(** * Canvas engine of the data-model diagram editor

    A shallow embedding of the canvas component ([Canvas], the component that
    the application mounts as [<Canvas .../>]) and of the part of the host
    application ([App]) that receives its updates.

    Numbers.  JavaScript numbers are modelled as exact rationals ([Q]):
    every arithmetic operation of the handlers ([+], [-], [*], [/],
    [Math.min], [Math.max]) is the exact one, rounding is not modelled, and
    equality of numbers is [Qeq] ([==]).  [Math.pow] has no rational
    counterpart and is a variable of the development.

    React state.  Each [useState] cell of the component is a field of
    [State]; a handler reads the cells of the render it was created in and
    returns the cells as they are after its [set...] calls, together with
    the calls it made to the two model-update callbacks, in order. *)

From Stdlib Require Import QArith Qminmax Qabs Qround Qpower Lqa Lia.
From stdpp Require Import gmap strings list fin_maps pretty.

Set Default Proof Using "Type".

(* ================================================================== *)
(** ** Data model *)
(* ================================================================== *)

(** The declarations of [types] are imported by every component; the records
    below carry the fields the canvas reads or writes. *)

Inductive ModelType := CONCEPTUAL | LOGICAL | PHYSICAL | DIMENSIONAL.

Inductive Cardinality := ONE_TO_ONE | ONE_TO_MANY | MANY_TO_MANY.

Inductive LineStyle := straight | curve | step.

Inductive MarkerType := marker_none | marker_one | marker_crowfoot | marker_arrow.

#[global] Instance ModelType_eq_dec : EqDecision ModelType.
Proof. solve_decision. Defined.

Module Attribute.
Record t := mk {
  id : string;
  name : string;
  dataType : string;
  isPrimaryKey : bool;
  isNullable : bool
}.

(** [{ ...a, id: newId }] *)
Definition with_id (newId : string) (a : t) : t :=
  {| id := newId; name := name a; dataType := dataType a;
     isPrimaryKey := isPrimaryKey a; isNullable := isNullable a |}.
End Attribute.

Module EntityNode.
Record t := mk {
  id : string;
  name : string;
  chineseName : option string;
  x : Q;
  y : Q;
  width : option Q;
  height : option Q;
  attributes : list Attribute.t;
  collapsed : bool;
  color : option string
}.
End EntityNode.

Module Relationship.
Record t := mk {
  id : string;
  sourceId : string;
  targetId : string;
  cardinality : Cardinality;
  lineStyle : LineStyle;
  sourceMarker : option MarkerType;
  targetMarker : option MarkerType;
  label : option string
}.
End Relationship.

(** [Partial<EntityNode>], with the fields the canvas ever puts in one. *)
Module PartialEntity.
Record t := mk {
  x : option Q;
  y : option Q;
  width : option Q;
  height : option Q
}.

(** [{ ...e, ...p }] *)
Definition merge (e : EntityNode.t) (p : t) : EntityNode.t :=
  {| EntityNode.id := EntityNode.id e;
     EntityNode.name := EntityNode.name e;
     EntityNode.chineseName := EntityNode.chineseName e;
     EntityNode.x := default (EntityNode.x e) (x p);
     EntityNode.y := default (EntityNode.y e) (y p);
     EntityNode.width := match width p with Some w => Some w | None => EntityNode.width e end;
     EntityNode.height := match height p with Some h => Some h | None => EntityNode.height e end;
     EntityNode.attributes := EntityNode.attributes e;
     EntityNode.collapsed := EntityNode.collapsed e;
     EntityNode.color := EntityNode.color e |}.
End PartialEntity.

Record Point := mkPoint { px : Q; py : Q }.

Record Rect := mkRect { rx : Q; ry : Q; rw : Q; rh : Q }.

Record SelectionBox := mkSelectionBox {
  startX : Q;
  startY : Q;
  currentX : Q;
  currentY : Q
}.

Inductive InteractionMode := mode_select | mode_pan.

#[global] Instance InteractionMode_eq_dec : EqDecision InteractionMode.
Proof. solve_decision. Defined.

Inductive DragType := drag_entity | drag_pan | drag_selection | drag_resize.

#[global] Instance DragType_eq_dec : EqDecision DragType.
Proof. solve_decision. Defined.

Module DragState.
Record t := mk {
  type : DragType;
  startMouseX : Q;
  startMouseY : Q;
  initialPositions : option (gmap string Point);
  startOffset : option Point;
  entityId : option string;
  startW : option Q;
  startH : option Q
}.
End DragState.

(** ** Events and the DOM the handlers look at *)

Record MouseEvent := mkMouseEvent {
  button : Z;
  clientX : Q;
  clientY : Q;
  shiftKey : bool;
  ctrlKey : bool;
  metaKey : bool
}.

Record WheelEvent := mkWheelEvent {
  w_clientX : Q;
  w_clientY : Q;
  deltaX : Q;
  deltaY : Q;
  w_ctrlKey : bool;
  w_metaKey : bool
}.

Record KeyboardEvent := mkKeyboardEvent {
  key : string;
  code : string;
  k_ctrlKey : bool;
  k_metaKey : bool;
  k_repeat : bool
}.

Record DOMRect := mkDOMRect { rect_left : Q; rect_top : Q }.

Record Dom := mkDom {
  (** [canvasRef.current?.getBoundingClientRect()] *)
  boundingClientRect : option DOMRect;
  (** [document.activeElement?.tagName] *)
  activeElementTag : option string
}.

(** The body of the callback passed to [requestAnimationFrame] reads the
    event and the render's [dragState], [zoom], [offset], [selectionBox] and
    [readOnly]: a pending frame is that closure. *)
Record Frame := mkFrame {
  f_event : MouseEvent;
  f_dragState : DragState.t;
  f_zoom : Q;
  f_offset : Point;
  f_selectionBox : option SelectionBox;
  f_readOnly : bool
}.

(** ** Props and state of the component *)

Record Props := mkProps {
  modelType : ModelType;
  entities : list EntityNode.t;
  relationships : list Relationship.t;
  readOnly : bool
}.

(** A call to one of the two model-update callbacks. *)
Inductive Commit :=
| onEntitiesChange (ents : list EntityNode.t)
| onRelationshipsChange (rels : list Relationship.t).

(** The [useState] cells (and the [rafRef] cell) that the handlers below
    touch; [showGrid], [viewportSize], [loadingSuggestion] and [contextMenu]
    only drive rendering and are left out. *)
Record State := mkState {
  interactionMode : InteractionMode;
  selectedEntityIds : gset string;
  selectedRelId : option string;
  dragUpdates : gmap string PartialEntity.t;
  raf : option Frame;
  dragState : option DragState.t;
  selectionBox : option SelectionBox;
  offset : Point;
  zoom : Q;
  connectingSource : option string;
  clipboard : option (list EntityNode.t);
  searchTerm : string;
  isSpacePressed : bool
}.

Definition initialState : State :=
  {| interactionMode := mode_select;
     selectedEntityIds := ∅;
     selectedRelId := None;
     dragUpdates := ∅;
     raf := None;
     dragState := None;
     selectionBox := None;
     offset := mkPoint 0 0;
     zoom := 1;
     connectingSource := None;
     clipboard := None;
     searchTerm := "";
     isSpacePressed := false |}.

Definition setInteractionMode (v : InteractionMode) (s : State) : State :=
  mkState v (selectedEntityIds s) (selectedRelId s) (dragUpdates s) (raf s)
    (dragState s) (selectionBox s) (offset s) (zoom s) (connectingSource s)
    (clipboard s) (searchTerm s) (isSpacePressed s).

Definition setSelectedEntityIds (v : gset string) (s : State) : State :=
  mkState (interactionMode s) v (selectedRelId s) (dragUpdates s) (raf s)
    (dragState s) (selectionBox s) (offset s) (zoom s) (connectingSource s)
    (clipboard s) (searchTerm s) (isSpacePressed s).

Definition setSelectedRelId (v : option string) (s : State) : State :=
  mkState (interactionMode s) (selectedEntityIds s) v (dragUpdates s) (raf s)
    (dragState s) (selectionBox s) (offset s) (zoom s) (connectingSource s)
    (clipboard s) (searchTerm s) (isSpacePressed s).

Definition setDragUpdates (v : gmap string PartialEntity.t) (s : State) : State :=
  mkState (interactionMode s) (selectedEntityIds s) (selectedRelId s) v (raf s)
    (dragState s) (selectionBox s) (offset s) (zoom s) (connectingSource s)
    (clipboard s) (searchTerm s) (isSpacePressed s).

Definition setRaf (v : option Frame) (s : State) : State :=
  mkState (interactionMode s) (selectedEntityIds s) (selectedRelId s)
    (dragUpdates s) v (dragState s) (selectionBox s) (offset s) (zoom s)
    (connectingSource s) (clipboard s) (searchTerm s) (isSpacePressed s).

Definition setDragState (v : option DragState.t) (s : State) : State :=
  mkState (interactionMode s) (selectedEntityIds s) (selectedRelId s)
    (dragUpdates s) (raf s) v (selectionBox s) (offset s) (zoom s)
    (connectingSource s) (clipboard s) (searchTerm s) (isSpacePressed s).

Definition setSelectionBox (v : option SelectionBox) (s : State) : State :=
  mkState (interactionMode s) (selectedEntityIds s) (selectedRelId s)
    (dragUpdates s) (raf s) (dragState s) v (offset s) (zoom s)
    (connectingSource s) (clipboard s) (searchTerm s) (isSpacePressed s).

Definition setOffset (v : Point) (s : State) : State :=
  mkState (interactionMode s) (selectedEntityIds s) (selectedRelId s)
    (dragUpdates s) (raf s) (dragState s) (selectionBox s) v (zoom s)
    (connectingSource s) (clipboard s) (searchTerm s) (isSpacePressed s).

Definition setZoom (v : Q) (s : State) : State :=
  mkState (interactionMode s) (selectedEntityIds s) (selectedRelId s)
    (dragUpdates s) (raf s) (dragState s) (selectionBox s) (offset s) v
    (connectingSource s) (clipboard s) (searchTerm s) (isSpacePressed s).

Definition setConnectingSource (v : option string) (s : State) : State :=
  mkState (interactionMode s) (selectedEntityIds s) (selectedRelId s)
    (dragUpdates s) (raf s) (dragState s) (selectionBox s) (offset s) (zoom s)
    v (clipboard s) (searchTerm s) (isSpacePressed s).

Definition setClipboard (v : option (list EntityNode.t)) (s : State) : State :=
  mkState (interactionMode s) (selectedEntityIds s) (selectedRelId s)
    (dragUpdates s) (raf s) (dragState s) (selectionBox s) (offset s) (zoom s)
    (connectingSource s) v (searchTerm s) (isSpacePressed s).

Definition setSearchTerm (v : string) (s : State) : State :=
  mkState (interactionMode s) (selectedEntityIds s) (selectedRelId s)
    (dragUpdates s) (raf s) (dragState s) (selectionBox s) (offset s) (zoom s)
    (connectingSource s) (clipboard s) v (isSpacePressed s).

Definition setIsSpacePressed (v : bool) (s : State) : State :=
  mkState (interactionMode s) (selectedEntityIds s) (selectedRelId s)
    (dragUpdates s) (raf s) (dragState s) (selectionBox s) (offset s) (zoom s)
    (connectingSource s) (clipboard s) (searchTerm s) v.

(** ** JavaScript values *)

(** Truthiness of an optional number ([undefined] and [0] are falsy). *)
Definition truthy (o : option Q) : bool :=
  match o with
  | Some q => negb (Qeq_bool q 0)
  | None => false
  end.

(** Truthiness of a nullable string ([null] and the empty string are falsy). *)
Definition truthy_str (o : option string) : bool :=
  match o with
  | Some s => negb (String.eqb s "")
  | None => false
  end.

(** [o || 0] *)
Definition or0 (o : option Q) : Q :=
  match o with
  | Some q => if Qeq_bool q 0 then 0%Q else q
  | None => 0%Q
  end.

Definition Math_max (a b : Q) : Q := Qmax a b.
Definition Math_min (a b : Q) : Q := Qmin a b.

(** [js_gt a b] is [a > b], [js_lt a b] is [a < b]. *)
Definition js_gt (a b : Q) : bool := negb (Qle_bool a b).
Definition js_lt (a b : Q) : bool := negb (Qle_bool b a).

Definition length_Q {A} (l : list A) : Q := inject_Z (Z.of_nat (length l)).

(* ================================================================== *)
(** ** Identifier generation *)
(* ================================================================== *)

(** [generateId] returns [crypto.randomUUID()] or a string built from
    [Math.random()].  A computation that generates identifiers is a function
    of the number of identifiers drawn so far; the [n]-th draw returns
    [random_id n], for a source [random_id] that the development leaves
    arbitrary. *)
Definition Gen (A : Type) : Type := nat → A * nat.

#[global] Instance Gen_ret : MRet Gen := λ A a n, (a, n).

#[global] Instance Gen_bind : MBind Gen :=
  λ A B k m n, let '(a, n') := m n in k a n'.

Notation "'let*' x ':=' m 'in' k" := (mbind (M:=Gen) (λ x, k) m)
  (at level 10, x name, m at level 100, k at level 200, only parsing).

Definition pure {A} (a : A) : Gen A := mret a.

(* ================================================================== *)
(** ** The minimap (components/Minimap.tsx) *)
(* ================================================================== *)

Module Minimap.

Record Props := mkProps {
  entities : list EntityNode.t;
  viewX : Q;
  viewY : Q;
  zoom : Q;
  containerWidth : Q;
  containerHeight : Q
}.

(** The fields of the window [mousemove] event the minimap reads. *)
Record MovementEvent := mkMovementEvent {
  movementX : Q;
  movementY : Q
}.

(** [Math.min(...xs, last)] and [Math.max(...xs, last)] *)
Definition Math_min_of (xs : list Q) (last : Q) : Q := foldr Math_min last xs.
Definition Math_max_of (xs : list Q) (last : Q) : Q := foldr Math_max last xs.

(** Bounding box of all entities *)
Definition minX (p : Props) : Q := Math_min_of (EntityNode.x <$> entities p) 0.
Definition minY (p : Props) : Q := Math_min_of (EntityNode.y <$> entities p) 0.
Definition maxX (p : Props) : Q :=
  Math_max_of ((λ e, EntityNode.x e + 256)%Q <$> entities p) 2000.
Definition maxY (p : Props) : Q :=
  Math_max_of ((λ e, EntityNode.y e + 200)%Q <$> entities p) 2000.

Definition worldWidth (p : Props) : Q := (maxX p - minX p + 500)%Q.
Definition worldHeight (p : Props) : Q := (maxY p - minY p + 500)%Q.
Definition scale (p : Props) : Q := (150 / Math_max (worldWidth p) (worldHeight p))%Q.

(** Viewfinder geometry *)
Definition viewfinderX (p : Props) : Q := ((- viewX p / zoom p - minX p) * scale p)%Q.
Definition viewfinderY (p : Props) : Q := ((- viewY p / zoom p - minY p) * scale p)%Q.
Definition viewfinderW (p : Props) : Q := ((containerWidth p / zoom p) * scale p)%Q.
Definition viewfinderH (p : Props) : Q := ((containerHeight p / zoom p) * scale p)%Q.

(** The cell [isDragging] after a press on the viewfinder, and after a
    release anywhere. *)
Definition handleMouseDown (isDragging : bool) : bool := true.
Definition handleMouseUp (isDragging : bool) : bool := false.

(** The window [mousemove] listener: the arguments of the call to
    [onViewChange], when it makes one. *)
Definition handleMouseMove (p : Props) (isDragging : bool) (e : MovementEvent)
  : option (Q * Q) :=
  if negb isDragging then None
  else
    let dx := movementX e in
    let dy := movementY e in
    let offsetDx := (- (dx / scale p) * zoom p)%Q in
    let offsetDy := (- (dy / scale p) * zoom p)%Q in
    Some ((viewX p + offsetDx)%Q, (viewY p + offsetDy)%Q).

(** The click handler of the minimap's surface; [rect] is the bounding
    rectangle of [minimapRef.current], when the ref is set. *)
Definition onClick (p : Props) (rect : option DOMRect) (e : MouseEvent)
  : option (Q * Q) :=
  match rect with
  | Some rect =>
    let clickX := (clientX e - rect_left rect)%Q in
    let clickY := (clientY e - rect_top rect)%Q in
    let worldX := (clickX / scale p + minX p)%Q in
    let worldY := (clickY / scale p + minY p)%Q in
    Some ((- worldX * zoom p + containerWidth p / 2)%Q,
          (- worldY * zoom p + containerHeight p / 2)%Q)
  | None => None
  end.

(** What the component draws: the height of its surface, one box per
    entity (left, top, width, height) and the viewfinder. *)
Record View := mkView {
  surfaceHeight : Q;
  entityBoxes : list Rect;
  viewfinder : Rect
}.

Definition render (p : Props) : option View :=
  if (length (entities p) =? 0)%nat then None
  else
    Some {| surfaceHeight := (worldHeight p * scale p)%Q;
            entityBoxes :=
              (λ ent, {| rx := ((EntityNode.x ent - minX p) * scale p)%Q;
                         ry := ((EntityNode.y ent - minY p) * scale p)%Q;
                         rw := (256 * scale p)%Q;
                         rh := (100 * scale p)%Q |}) <$> entities p;
            viewfinder := {| rx := viewfinderX p; ry := viewfinderY p;
                             rw := viewfinderW p; rh := viewfinderH p |} |}.

End Minimap.

Section Canvas.

Variable random_id : nat → string.

(** [Math.pow] *)
Variable Math_pow : Q → Q → Q.

Definition generateId : Gen string := λ n, (random_id n, S n).

(* ================================================================== *)
(** ** Geometry: bounding box of an entity *)
(* ================================================================== *)

Definition getEntityRect (mt : ModelType) (search : string) (node : EntityNode.t) : Rect :=
  if truthy (EntityNode.width node) && truthy (EntityNode.height node) then
    {| rx := EntityNode.x node; ry := EntityNode.y node;
       rw := default 0%Q (EntityNode.width node);
       rh := default 0%Q (EntityNode.height node) |}
  else if decide (mt = CONCEPTUAL) then
    {| rx := EntityNode.x node; ry := EntityNode.y node; rw := 160%Q; rh := 100%Q |}
  else
    let width := 256%Q in
    let HEADER_HEIGHT := 44%Q in
    let ROW_HEIGHT := 24%Q in
    let FOOTER_HEIGHT := 24%Q in
    let n := length (EntityNode.attributes node) in
    let collapsed := EntityNode.collapsed node in
    let isFiltering := (0 <? String.length search)%nat in
    let '(visibleAttrsCount, hasFooter) := (n, false) in
    let '(visibleAttrsCount, hasFooter) :=
      if negb isFiltering && collapsed && (5 <? n)%nat
      then (5%nat, true) else (visibleAttrsCount, hasFooter) in
    let '(visibleAttrsCount, hasFooter) :=
      if negb isFiltering && negb collapsed && (5 <? n)%nat
      then (visibleAttrsCount, true) else (visibleAttrsCount, hasFooter) in
    let '(visibleAttrsCount, hasFooter) :=
      if isFiltering then (n, false) else (visibleAttrsCount, hasFooter) in
    let height :=
      (HEADER_HEIGHT + inject_Z (Z.of_nat visibleAttrsCount) * ROW_HEIGHT
       + (if hasFooter then FOOTER_HEIGHT else 4))%Q in
    {| rx := EntityNode.x node; ry := EntityNode.y node; rw := width; rh := height |}.

(* ================================================================== *)
(** ** Viewport *)
(* ================================================================== *)

(** Screen to world, as the handlers compute it:
    [(e.clientX - rect.left - offset.x) / zoom]. *)
Definition toWorld (screen off z : Q) : Q := ((screen - off) / z)%Q.

(** The world delta of a pointer move since the press, at zoom [z]:
    [(e.clientX - dragState.startMouseX) / zoom]. *)
Definition worldDelta (down move : Q) (z : Q) : Q := ((move - down) / z)%Q.

Definition handleWheel (dom : Dom) (st : State) (e : WheelEvent) : State :=
  match boundingClientRect dom with
  | None => st
  | Some rect =>
    if w_ctrlKey e || w_metaKey e || bool_decide (interactionMode st = mode_pan) then
      let mouseX := (w_clientX e - rect_left rect)%Q in
      let mouseY := (w_clientY e - rect_top rect)%Q in
      let sensitivity := 0.001%Q in
      let delta := (- deltaY e)%Q in
      let scaleFactor := Math_pow (1 + sensitivity)%Q delta in
      let nextZoom := Math_max 0.1 (Math_min 5 (zoom st * scaleFactor)) in
      let scaleRatio := (nextZoom / zoom st)%Q in
      let newOffset :=
        {| px := (mouseX - (mouseX - px (offset st)) * scaleRatio)%Q;
           py := (mouseY - (mouseY - py (offset st)) * scaleRatio)%Q |} in
      setOffset newOffset (setZoom nextZoom st)
    else
      setOffset {| px := (px (offset st) - deltaX e)%Q;
                   py := (py (offset st) - deltaY e)%Q |} st
  end.

(** The two toolbar buttons: [setZoom(z => Math.min(z + 0.1, 2))] and
    [setZoom(z => Math.max(z - 0.1, 0.5))]. *)
Definition zoomInButton (st : State) : State :=
  setZoom (Math_min (zoom st + 0.1) 2) st.

Definition zoomOutButton (st : State) : State :=
  setZoom (Math_max (zoom st - 0.1) 0.5) st.

(** Every way the component has to change [zoom]. *)
Inductive ZoomOp :=
| Wheel (dom : Dom) (e : WheelEvent)
| ZoomIn
| ZoomOut.

Definition zoomStep (st : State) (op : ZoomOp) : State :=
  match op with
  | Wheel dom e => handleWheel dom st e
  | ZoomIn => zoomInButton st
  | ZoomOut => zoomOutButton st
  end.

(* ================================================================== *)
(** ** Delete *)
(* ================================================================== *)

(** [handleDeleteSelectedEntities] as it runs when a handler of the same
    render calls it: it reads the cells of that render ([st]) and its
    [set...] calls come after those already made ([acc]). *)
Definition handleDeleteSelectedEntities_in (props : Props) (st acc : State)
  : State * list Commit :=
  if readOnly props then (acc, [])
  else if decide (size (selectedEntityIds st) = 0%nat) then (acc, [])
  else
    let newEntities :=
      filter (λ e, EntityNode.id e ∉ selectedEntityIds st) (entities props) in
    let newRelationships :=
      filter (λ r, (Relationship.sourceId r ∉ selectedEntityIds st)
                   ∧ (Relationship.targetId r ∉ selectedEntityIds st))
             (relationships props) in
    (setSelectedEntityIds ∅ acc,
     [onRelationshipsChange newRelationships; onEntitiesChange newEntities]).

Definition handleDeleteSelectedEntities (props : Props) (st : State)
  : State * list Commit :=
  handleDeleteSelectedEntities_in props st st.

Definition handleDeleteRel_in (props : Props) (st acc : State) (id : string)
  : State * list Commit :=
  (if decide (selectedRelId st = Some id) then setSelectedRelId None acc else acc,
   [onRelationshipsChange
      (filter (λ r, Relationship.id r ≠ id) (relationships props))]).

Definition handleDeleteRel (props : Props) (st : State) (id : string)
  : State * list Commit :=
  handleDeleteRel_in props st st id.

(* ================================================================== *)
(** ** Keyboard: copy, paste, delete, select all *)
(* ================================================================== *)

Definition cloneAttribute (a : Attribute.t) : Gen Attribute.t :=
  let* newId := generateId in
  pure (Attribute.with_id newId a).

(** The object pushed to [newEntities] for one clipboard item. *)
Definition cloneEntity (item : EntityNode.t) : Gen EntityNode.t :=
  let* newId := generateId in
  let* attrs := mapM cloneAttribute (EntityNode.attributes item) in
  pure {| EntityNode.id := newId;
          EntityNode.name := EntityNode.name item +:+ "_copy";
          EntityNode.chineseName := EntityNode.chineseName item;
          EntityNode.x := (EntityNode.x item + 20)%Q;
          EntityNode.y := (EntityNode.y item + 20)%Q;
          EntityNode.width := EntityNode.width item;
          EntityNode.height := EntityNode.height item;
          EntityNode.attributes := attrs;
          EntityNode.collapsed := EntityNode.collapsed item;
          EntityNode.color := EntityNode.color item |}.

Definition isInput (dom : Dom) : bool :=
  bool_decide (activeElementTag dom = Some "INPUT").

(** The paste block of [handleKeyDown]. *)
Definition paste (props : Props) (st acc : State) (e : KeyboardEvent)
  : Gen (State * list Commit) :=
  match clipboard st with
  | Some clip =>
    if (k_ctrlKey e || k_metaKey e) && String.eqb (key e) "v"
       && (0 <? length clip)%nat
    then
      let acc := setSelectedEntityIds ∅ acc in
      let* newEntities := mapM cloneEntity clip in
      pure (setSelectedEntityIds (list_to_set (EntityNode.id <$> newEntities)) acc,
            [onEntitiesChange (entities props ++ newEntities)])
    else pure (acc, [])
  | None => pure (acc, [])
  end.

Definition handleKeyDown (dom : Dom) (props : Props) (st : State) (e : KeyboardEvent)
  : Gen (State * list Commit) :=
  let acc := st in
  let acc :=
    if String.eqb (code e) "Space" && negb (k_repeat e)
    then setIsSpacePressed true acc else acc in
  (* Toggle tools with keys *)
  let acc :=
    if String.eqb (key e) "v" && negb (k_ctrlKey e) && negb (k_metaKey e)
       && negb (isInput dom)
    then setInteractionMode mode_select acc else acc in
  let acc :=
    if String.eqb (key e) "h" && negb (k_ctrlKey e) && negb (k_metaKey e)
       && negb (isInput dom)
    then setInteractionMode mode_pan acc else acc in
  if readOnly props then pure (acc, [])
  else
    (* Copy *)
    let acc :=
      if (k_ctrlKey e || k_metaKey e) && String.eqb (key e) "c" then
        let selected :=
          filter (λ ent, EntityNode.id ent ∈ selectedEntityIds st) (entities props) in
        if (0 <? length selected)%nat then setClipboard (Some selected) acc else acc
      else acc in
    (* Paste *)
    let* pasted := paste props st acc e in
    let '(acc, out) := pasted in
    (* Delete *)
    let isDelete := String.eqb (key e) "Delete" || String.eqb (key e) "Backspace" in
    if isDelete && isInput dom then pure (acc, out)
    else
      let '(acc, out') :=
        if isDelete then
          if decide (0 < size (selectedEntityIds st))%nat then
            handleDeleteSelectedEntities_in props st acc
          else
            match selectedRelId st with
            | Some rid =>
              if truthy_str (Some rid) then handleDeleteRel_in props st acc rid
              else (acc, [])
            | None => (acc, [])
            end
        else (acc, []) in
      (* Select All *)
      let acc :=
        if (k_ctrlKey e || k_metaKey e) && String.eqb (key e) "a"
        then setSelectedEntityIds (list_to_set (EntityNode.id <$> entities props)) acc
        else acc in
      pure (acc, out ++ out').

(* ================================================================== *)
(** ** Pointer handlers *)
(* ================================================================== *)

Definition isPanMode (st : State) : bool :=
  bool_decide (interactionMode st = mode_pan) || isSpacePressed st.

Definition handleMouseDown (dom : Dom) (props : Props) (st : State) (e : MouseEvent)
  : State :=
  let isLeftClick := (button e =? 0)%Z in
  let isMiddleClick := (button e =? 1)%Z in
  if isMiddleClick
     || (isLeftClick && (isSpacePressed st || bool_decide (interactionMode st = mode_pan)))
  then
    setDragState
      (Some {| DragState.type := drag_pan;
               DragState.startMouseX := clientX e;
               DragState.startMouseY := clientY e;
               DragState.initialPositions := None;
               DragState.startOffset := Some (offset st);
               DragState.entityId := None;
               DragState.startW := None;
               DragState.startH := None |}) st
  else if negb isLeftClick then st
  else if readOnly props then st
  else
    let acc :=
      if negb (shiftKey e) && negb (ctrlKey e) && negb (metaKey e)
      then setSelectedRelId None (setSelectedEntityIds ∅ st) else st in
    let acc :=
      setDragState
        (Some {| DragState.type := drag_selection;
                 DragState.startMouseX := clientX e;
                 DragState.startMouseY := clientY e;
                 DragState.initialPositions := None;
                 DragState.startOffset := None;
                 DragState.entityId := None;
                 DragState.startW := None;
                 DragState.startH := None |}) acc in
    match boundingClientRect dom with
    | Some rect =>
      let x := toWorld (clientX e - rect_left rect) (px (offset st)) (zoom st) in
      let y := toWorld (clientY e - rect_top rect) (py (offset st)) (zoom st) in
      setSelectionBox
        (Some {| startX := x; startY := y; currentX := x; currentY := y |}) acc
    | None => acc
    end.

(** [{ x: n.x, y: n.y }] *)
Definition pointOf (n : EntityNode.t) : Point :=
  mkPoint (EntityNode.x n) (EntityNode.y n).

(** [initialPos[n.id] = { x: n.x, y: n.y }] for every node to drag. *)
Definition capturePositions (nodes : list EntityNode.t) : gmap string Point :=
  foldl (λ m n, <[EntityNode.id n := pointOf n]> m) ∅ nodes.

(** The selection [handleEntityMouseDown] works with after a press on [id]. *)
Definition clickSelection (sel : gset string) (e : MouseEvent) (id : string)
  : gset string :=
  if shiftKey e || ctrlKey e || metaKey e then
    if decide (id ∈ sel) then sel ∖ {[id]} else sel ∪ {[id]}
  else
    if decide (id ∈ sel) then sel else {[id]}.

Definition handleEntityMouseDown (props : Props) (st : State) (e : MouseEvent)
    (id : string) : Gen (State * list Commit) :=
  if readOnly props then pure (st, [])
  else if truthy_str (connectingSource st) then
    (* Connection Mode *)
    let connectingSource := default "" (connectingSource st) in
    if decide (connectingSource ≠ id) then
      let* rid := generateId in
      let newRel :=
        {| Relationship.id := rid;
           Relationship.sourceId := connectingSource;
           Relationship.targetId := id;
           Relationship.cardinality := ONE_TO_MANY;
           Relationship.lineStyle := step;
           Relationship.sourceMarker := Some marker_one;
           Relationship.targetMarker := Some marker_crowfoot;
           Relationship.label := None |} in
      pure (setConnectingSource None st,
            [onRelationshipsChange (relationships props ++ [newRel])])
    else pure (st, [])
  else
    let isMultiSelect := shiftKey e || ctrlKey e || metaKey e in
    let newSelection := clickSelection (selectedEntityIds st) e id in
    let acc :=
      if isMultiSelect || negb (bool_decide (id ∈ selectedEntityIds st))
      then setSelectedEntityIds newSelection st else st in
    let acc :=
      if negb (isPanMode st) then
        let nodesToDrag :=
          filter (λ ent, EntityNode.id ent ∈ newSelection) (entities props) in
        setDragState
          (Some {| DragState.type := drag_entity;
                   DragState.startMouseX := clientX e;
                   DragState.startMouseY := clientY e;
                   DragState.initialPositions := Some (capturePositions nodesToDrag);
                   DragState.startOffset := None;
                   DragState.entityId := None;
                   DragState.startW := None;
                   DragState.startH := None |}) acc
      else acc in
    pure (setSelectedRelId None acc, []).

Definition handleResizeMouseDown (props : Props) (st : State) (e : MouseEvent)
    (id : string) : State :=
  if isPanMode st then st
  else
    match List.find (λ en, bool_decide (EntityNode.id en = id)) (entities props) with
    | None => st
    | Some entity =>
      let rect := getEntityRect (modelType props) (searchTerm st) entity in
      setDragState
        (Some {| DragState.type := drag_resize;
                 DragState.startMouseX := clientX e;
                 DragState.startMouseY := clientY e;
                 DragState.initialPositions := None;
                 DragState.startOffset := None;
                 DragState.entityId := Some id;
                 DragState.startW := Some (rw rect);
                 DragState.startH := Some (rh rect) |}) st
    end.

(** [handleMouseMove] only schedules: it replaces the pending frame, if
    any, by the callback of this event. *)
Definition handleMouseMove (props : Props) (st : State) (e : MouseEvent) : State :=
  match dragState st with
  | None => st
  | Some ds =>
    setRaf (Some {| f_event := e; f_dragState := ds; f_zoom := zoom st;
                    f_offset := offset st; f_selectionBox := selectionBox st;
                    f_readOnly := readOnly props |}) st
  end.

Definition entityDragUpdate (deltaX deltaY : Q) (init : Point) : PartialEntity.t :=
  {| PartialEntity.x := Some (px init + deltaX)%Q;
     PartialEntity.y := Some (py init + deltaY)%Q;
     PartialEntity.width := None;
     PartialEntity.height := None |}.

Definition resizeUpdate (newW newH : Q) : PartialEntity.t :=
  {| PartialEntity.x := None;
     PartialEntity.y := None;
     PartialEntity.width := Some newW;
     PartialEntity.height := Some newH |}.

(** The callback that [handleMouseMove] passed to [requestAnimationFrame]. *)
Definition frameCallback (dom : Dom) (f : Frame) (st : State) : State :=
  let e := f_event f in
  let ds := f_dragState f in
  match DragState.type ds, DragState.startOffset ds with
  | drag_pan, Some startOffset =>
    setOffset
      {| px := (px startOffset + (clientX e - DragState.startMouseX ds))%Q;
         py := (py startOffset + (clientY e - DragState.startMouseY ds))%Q |} st
  | _, _ =>
    if f_readOnly f then st
    else
      let deltaX := worldDelta (DragState.startMouseX ds) (clientX e) (f_zoom f) in
      let deltaY := worldDelta (DragState.startMouseY ds) (clientY e) (f_zoom f) in
      match DragState.type ds, DragState.initialPositions ds with
      | drag_entity, Some initialPositions =>
        setDragUpdates (entityDragUpdate deltaX deltaY <$> initialPositions) st
      | _, _ =>
        match DragState.type ds, DragState.entityId ds with
        | drag_resize, Some id =>
          if truthy_str (Some id) then
            let newW := Math_max 150 (or0 (DragState.startW ds) + deltaX) in
            let newH := Math_max 80 (or0 (DragState.startH ds) + deltaY) in
            setDragUpdates {[ id := resizeUpdate newW newH ]} st
          else st
        | _, _ =>
          match DragState.type ds, f_selectionBox f, boundingClientRect dom with
          | drag_selection, Some _, Some rect =>
            let currentX :=
              toWorld (clientX e - rect_left rect) (px (f_offset f)) (f_zoom f) in
            let currentY :=
              toWorld (clientY e - rect_top rect) (py (f_offset f)) (f_zoom f) in
            setSelectionBox
              (match selectionBox st with
               | Some prev =>
                 Some {| startX := startX prev; startY := startY prev;
                         currentX := currentX; currentY := currentY |}
               | None => None
               end) st
          | _, _, _ => st
          end
        end
      end
  end.

(** The browser runs the pending frame, if there is one. *)
Definition animationFrame (dom : Dom) (st : State) : State :=
  match raf st with
  | None => st
  | Some f => frameCallback dom f (setRaf None st)
  end.

(** [entities.map(e => dragUpdates[e.id] ? { ...e, ...dragUpdates[e.id] } : e)] *)
Definition applyDragUpdates (updates : gmap string PartialEntity.t)
    (ents : list EntityNode.t) : list EntityNode.t :=
  (λ e, match updates !! EntityNode.id e with
        | Some p => PartialEntity.merge e p
        | None => e
        end) <$> ents.

(** [!(rect.x > x2 || entRight < x1 || rect.y > y2 || entBottom < y1)] *)
Definition isOverlapping (rect : Rect) (x1 y1 x2 y2 : Q) : bool :=
  let entRight := (rx rect + rw rect)%Q in
  let entBottom := (ry rect + rh rect)%Q in
  negb (js_gt (rx rect) x2 || js_lt entRight x1
        || js_gt (ry rect) y2 || js_lt entBottom y1).

(** The selection set built on release of a marquee. *)
Definition marqueeSelection (props : Props) (st : State) (box : SelectionBox)
  : gset string :=
  let x1 := Math_min (startX box) (currentX box) in
  let y1 := Math_min (startY box) (currentY box) in
  let x2 := Math_max (startX box) (currentX box) in
  let y2 := Math_max (startY box) (currentY box) in
  foldl (λ newSelected ent,
           let rect := getEntityRect (modelType props) (searchTerm st) ent in
           if isOverlapping rect x1 y1 x2 y2
           then {[EntityNode.id ent]} ∪ newSelected
           else newSelected)
        (selectedEntityIds st) (entities props).

Definition handleMouseUp (props : Props) (st : State) : State * list Commit :=
  (* Commit Drag Updates *)
  let '(acc, out) :=
    match dragState st with
    | Some ds =>
      if bool_decide (DragState.type ds = drag_entity)
         || bool_decide (DragState.type ds = drag_resize)
      then
        if decide (0 < size (dragUpdates st))%nat then
          (setDragUpdates ∅ st,
           [onEntitiesChange (applyDragUpdates (dragUpdates st) (entities props))])
        else (st, [])
      else (st, [])
    | None => (st, [])
    end in
  let acc :=
    match dragState st, selectionBox st with
    | Some ds, Some box =>
      if bool_decide (DragState.type ds = drag_selection)
      then setSelectedEntityIds (marqueeSelection props st box) acc
      else acc
    | _, _ => acc
    end in
  (setSelectionBox None (setDragState None (setRaf None acc)), out).

(** A drag of entities, from the press on entity [id] to the release: the
    press, one pointer move, the frame the move asked for, the release.  The
    result is the state after the release and the calls made on the way. *)
Definition entityDrag (dom : Dom) (props : Props) (st : State)
    (down : MouseEvent) (id : string) (move : MouseEvent) : Gen (State * list Commit) :=
  let* pressed := handleEntityMouseDown props st down id in
  let '(st1, out1) := pressed in
  let st2 := handleMouseMove props st1 move in
  let st3 := animationFrame dom st2 in
  let '(st4, out4) := handleMouseUp props st3 in
  pure (st4, out1 ++ out4).

(** A resize, from the press on the handle of entity [id] to the release. *)
Definition resizeDrag (dom : Dom) (props : Props) (st : State)
    (down : MouseEvent) (id : string) (move : MouseEvent) : State * list Commit :=
  let st1 := handleResizeMouseDown props st down id in
  let st2 := handleMouseMove props st1 move in
  let st3 := animationFrame dom st2 in
  handleMouseUp props st3.

(* ================================================================== *)
(** ** The host application *)
(* ================================================================== *)

(** The selected model of [App], with the two collections the canvas
    replaces. *)
Record DataModel := mkDataModel {
  m_type : ModelType;
  m_entities : list EntityNode.t;
  m_relationships : list Relationship.t
}.

(** [updateSelectedModel(updates)] on the selected model:
    [{ ...currentModel, ...updates }], for the [updates] the canvas sends. *)
Definition updateSelectedModel (m : DataModel) (updates : Commit) : DataModel :=
  match updates with
  | onEntitiesChange ents =>
    {| m_type := m_type m; m_entities := ents; m_relationships := m_relationships m |}
  | onRelationshipsChange rels =>
    {| m_type := m_type m; m_entities := m_entities m; m_relationships := rels |}
  end.

(** The props [App] passes to the canvas ([readOnly] is not passed and takes
    its default). *)
Definition canvasProps (m : DataModel) : Props :=
  {| modelType := m_type m; entities := m_entities m;
     relationships := m_relationships m; readOnly := false |}.

Definition commitAll (m : DataModel) (calls : list Commit) : DataModel :=
  foldl updateSelectedModel m calls.

(* ================================================================== *)
(** ** Properties stated by the specification *)
(* ================================================================== *)

(** A state of the model in which entities selected for deletion are gone
    while some relationship still references one of them. *)
Definition entitiesGoneRelsRemain (sel : gset string) (m : DataModel) : Prop :=
  (∀ e, e ∈ m_entities m → EntityNode.id e ∉ sel)
  ∧ (∃ r, r ∈ m_relationships m
          ∧ (Relationship.sourceId r ∈ sel ∨ Relationship.targetId r ∈ sel)).

(** Every relationship of the model references entities of the model. *)
Definition noDangling (m : DataModel) : Prop :=
  ∀ r, r ∈ m_relationships m →
    Relationship.sourceId r ∈ EntityNode.id <$> m_entities m
    ∧ Relationship.targetId r ∈ EntityNode.id <$> m_entities m.

(** The closed rectangle of an entity's box meets the closed rectangle
    [[x1,x2] x [y1,y2]]. *)
Definition boxIntersects (rect : Rect) (x1 y1 x2 y2 : Q) : Prop :=
  (rx rect <= x2 ∧ x1 <= rx rect + rw rect
   ∧ ry rect <= y2 ∧ y1 <= ry rect + rh rect)%Q.

(** The selection cell after the sequence of zoom operations [ops]. *)
Definition zoomSteps (st : State) (ops : list ZoomOp) : State :=
  foldl zoomStep st ops.

(** [handleWheel] takes its zoom branch. *)
Definition wheelZooms (dom : Dom) (st : State) (e : WheelEvent) : Prop :=
  is_Some (boundingClientRect dom)
  ∧ w_ctrlKey e || w_metaKey e || bool_decide (interactionMode st = mode_pan) = true.

(** The anchor of a wheel event: the pointer, relative to the canvas. *)
Definition anchorX (dom : Dom) (e : WheelEvent) : Q :=
  (w_clientX e - from_option rect_left 0 (boundingClientRect dom))%Q.

Definition anchorY (dom : Dom) (e : WheelEvent) : Q :=
  (w_clientY e - from_option rect_top 0 (boundingClientRect dom))%Q.

(** An entity moved by a drag, and an entity resized. *)
Definition movedBy (dx dy : Q) (e : EntityNode.t) : EntityNode.t :=
  PartialEntity.merge e (entityDragUpdate dx dy (pointOf e)).

Definition resizedTo (w h : Q) (e : EntityNode.t) : EntityNode.t :=
  PartialEntity.merge e (resizeUpdate w h).

(** What a clone made by paste has in common with its clipboard item. *)
Definition cloneOf (item clone : EntityNode.t) : Prop :=
  EntityNode.x clone = (EntityNode.x item + 20)%Q
  ∧ EntityNode.y clone = (EntityNode.y item + 20)%Q
  ∧ EntityNode.name clone = EntityNode.name item +:+ "_copy"
  ∧ EntityNode.chineseName clone = EntityNode.chineseName item
  ∧ EntityNode.width clone = EntityNode.width item
  ∧ EntityNode.height clone = EntityNode.height item
  ∧ EntityNode.collapsed clone = EntityNode.collapsed item
  ∧ EntityNode.color clone = EntityNode.color item
  ∧ Forall2 (λ a c, c = Attribute.with_id (Attribute.id c) a)
            (EntityNode.attributes item) (EntityNode.attributes clone).

(** The identifiers a clone carries: its own, then those of its attributes. *)
Definition idsOf (e : EntityNode.t) : list string :=
  EntityNode.id e :: (Attribute.id <$> EntityNode.attributes e).


(* ================================================================== *)
(** ** Ports and routing *)
(* ================================================================== *)

(** [Math.hypot] *)
Variable Math_hypot : Q → Q → Q.

Inductive Side := side_top | side_bottom | side_left | side_right.

#[global] Instance Side_eq_dec : EqDecision Side.
Proof. solve_decision. Defined.

Record Port := mkPort { port_x : Q; port_y : Q; port_side : Side }.

Record Ports := mkPorts {
  p_top : Port;
  p_bottom : Port;
  p_left : Port;
  p_right : Port
}.

Definition getPorts (rect : Rect) : Ports :=
  let inset := 0%Q in
  {| p_top := mkPort (rx rect + rw rect / 2) (ry rect + inset) side_top;
     p_bottom := mkPort (rx rect + rw rect / 2) (ry rect + rh rect - inset) side_bottom;
     p_left := mkPort (rx rect + inset) (ry rect + rh rect / 2) side_left;
     p_right := mkPort (rx rect + rw rect - inset) (ry rect + rh rect / 2) side_right |}.

(** [Object.values(ports)]: the ports in the order their keys were written. *)
Definition portValues (p : Ports) : list Port :=
  [p_top p; p_bottom p; p_left p; p_right p].

Record Connection := mkConnection { c_start : Port; c_end : Port }.

(** [d < min], where [min] starts at [Infinity] ([None]). *)
Definition belowMin (d : Q) (min : option Q) : bool :=
  match min with
  | None => true
  | Some m => js_lt d m
  end.

(** The body of the inner [forEach] of [getBestConnection]. *)
Definition tryPorts (sp : Port) (acc : option Q * Connection) (tp : Port)
  : option Q * Connection :=
  let d := Math_hypot (port_x sp - port_x tp) (port_y sp - port_y tp) in
  if belowMin d acc.1 then (Some d, mkConnection sp tp) else acc.

Definition bestOfPorts (sPorts tPorts : Ports) : option Q * Connection :=
  foldl (λ acc sp, foldl (tryPorts sp) acc (portValues tPorts))
        (None, mkConnection (p_right sPorts) (p_left tPorts))
        (portValues sPorts).

Definition getBestConnection (mt : ModelType) (search : string)
    (source target : EntityNode.t) : Connection :=
  let sRect := getEntityRect mt search source in
  let tRect := getEntityRect mt search target in
  let sPorts := getPorts sRect in
  let tPorts := getPorts tRect in
  (bestOfPorts sPorts tPorts).2.

(** The path of a relationship.  The code writes it as the text of an SVG
    path ([M x y L x y ...], [M x y C x1 y1, x2 y2, x y]); here it is the
    list of the commands of that text, with their numbers. *)
Inductive PathCmd :=
| MoveTo (x y : Q)
| LineTo (x y : Q)
| CurveTo (x1 y1 x2 y2 x y : Q).

Record PathData := mkPathData { path : list PathCmd; label : Point }.

Definition isHorizontalSide (s : Side) : bool :=
  bool_decide (s = side_left) || bool_decide (s = side_right).

Definition isVerticalSide (s : Side) : bool :=
  bool_decide (s = side_top) || bool_decide (s = side_bottom).

(** A control point of the curve style: the port moved along its side's
    axis by [Math.abs(d) * curvature]. *)
Definition controlPoint (p : Port) (dx dy curvature : Q) : Point :=
  if isHorizontalSide (port_side p) then
    mkPoint (port_x p
             + (if bool_decide (port_side p = side_right) then 1 else -1)
               * Qabs dx * curvature)%Q
            (port_y p)
  else
    mkPoint (port_x p)
            (port_y p
             + (if bool_decide (port_side p = side_bottom) then 1 else -1)
               * Qabs dy * curvature)%Q.

Definition getPathData (mt : ModelType) (search : string) (rel : Relationship.t)
    (source target : EntityNode.t) : PathData :=
  let conn := getBestConnection mt search source target in
  let start := c_start conn in
  let end_ := c_end conn in
  match Relationship.lineStyle rel with
  | straight =>
    {| path := [MoveTo (port_x start) (port_y start);
                LineTo (port_x end_) (port_y end_)];
       label := mkPoint ((port_x start + port_x end_) / 2)%Q
                        ((port_y start + port_y end_) / 2)%Q |}
  | curve =>
    let dx := (port_x end_ - port_x start)%Q in
    let dy := (port_y end_ - port_y start)%Q in
    let curvature := 0.5%Q in
    let cp1 := controlPoint start dx dy curvature in
    let cp2 := controlPoint end_ dx dy curvature in
    let t := 0.5%Q in
    let mt := (1 - t)%Q in
    {| path := [MoveTo (port_x start) (port_y start);
                CurveTo (px cp1) (py cp1) (px cp2) (py cp2)
                        (port_x end_) (port_y end_)];
       label :=
         mkPoint (mt*mt*mt*port_x start + 3*mt*mt*t*px cp1
                  + 3*mt*t*t*px cp2 + t*t*t*port_x end_)%Q
                 (mt*mt*mt*port_y start + 3*mt*mt*t*py cp1
                  + 3*mt*t*t*py cp2 + t*t*t*port_y end_)%Q |}
  | step =>
    let mx := ((port_x start + port_x end_) / 2)%Q in
    let my := ((port_y start + port_y end_) / 2)%Q in
    if isHorizontalSide (port_side start) && isHorizontalSide (port_side end_) then
      {| path := [MoveTo (port_x start) (port_y start);
                  LineTo mx (port_y start);
                  LineTo mx (port_y end_);
                  LineTo (port_x end_) (port_y end_)];
         label := mkPoint mx my |}
    else if isVerticalSide (port_side start) && isVerticalSide (port_side end_) then
      {| path := [MoveTo (port_x start) (port_y start);
                  LineTo (port_x start) my;
                  LineTo (port_x end_) my;
                  LineTo (port_x end_) (port_y end_)];
         label := mkPoint ((port_x start + port_x end_) / 2)%Q my |}
    else if isHorizontalSide (port_side start) then
      {| path := [MoveTo (port_x start) (port_y start);
                  LineTo (port_x end_) (port_y start);
                  LineTo (port_x end_) (port_y end_)];
         label := mkPoint (port_x end_) (port_y start) |}
    else
      {| path := [MoveTo (port_x start) (port_y start);
                  LineTo (port_x start) (port_y end_);
                  LineTo (port_x end_) (port_y end_)];
         label := mkPoint (port_x start) (port_y end_) |}
  end.

(* ================================================================== *)
(** ** The overlay, and the other handlers of the canvas *)
(* ================================================================== *)

(** [effectiveEntities]: the entities as rendered, the overlay applied. *)
Definition effectiveEntities (props : Props) (st : State) : list EntityNode.t :=
  if decide (size (dragUpdates st) = 0%nat) then entities props
  else applyDragUpdates (dragUpdates st) (entities props).

(** [{ ...e, collapsed }] and [{ ...e, color }] *)
Definition withCollapsed (c : bool) (e : EntityNode.t) : EntityNode.t :=
  EntityNode.mk (EntityNode.id e) (EntityNode.name e) (EntityNode.chineseName e)
    (EntityNode.x e) (EntityNode.y e) (EntityNode.width e) (EntityNode.height e)
    (EntityNode.attributes e) c (EntityNode.color e).

Definition withColor (color : string) (e : EntityNode.t) : EntityNode.t :=
  EntityNode.mk (EntityNode.id e) (EntityNode.name e) (EntityNode.chineseName e)
    (EntityNode.x e) (EntityNode.y e) (EntityNode.width e) (EntityNode.height e)
    (EntityNode.attributes e) (EntityNode.collapsed e) (Some color).

Definition toggleCollapse (props : Props) (id : string) : list Commit :=
  [onEntitiesChange
     ((λ e, if decide (EntityNode.id e = id)
            then withCollapsed (negb (EntityNode.collapsed e)) e else e)
        <$> entities props)].

Definition setAllCollapsed (props : Props) (collapsed : bool) : list Commit :=
  [onEntitiesChange (withCollapsed collapsed <$> entities props)].

Definition handleUpdateColor (props : Props) (st : State) (color : string)
  : list Commit :=
  let selected :=
    filter (λ e, EntityNode.id e ∈ selectedEntityIds st) (entities props) in
  if decide (length selected = 0%nat) then []
  else
    let ids : gset string := list_to_set (EntityNode.id <$> selected) in
    [onEntitiesChange
       ((λ e, if decide (EntityNode.id e ∈ ids) then withColor color e else e)
          <$> entities props)].

Definition handleKeyUp (st : State) (e : KeyboardEvent) : State :=
  if String.eqb (code e) "Space" then
    let acc := setIsSpacePressed false st in
    match dragState st with
    | Some ds =>
      if bool_decide (DragState.type ds = drag_pan) then setDragState None acc
      else acc
    | None => acc
    end
  else st.

(** A click on the path of relationship [rid], and a click on the connect
    button of entity [id]. *)
Definition relationshipClick (st : State) (rid : string) : State :=
  setSelectedEntityIds ∅ (setSelectedRelId (Some rid) st).

Definition connectClick (st : State) (id : string) : State :=
  setConnectingSource (Some id) st.

(** A pan, from the press to the release: the press on the canvas, one
    pointer move, the frame the move asked for, the release. *)
Definition panDrag (dom : Dom) (props : Props) (st : State)
    (down move : MouseEvent) : State * list Commit :=
  let st1 := handleMouseDown dom props st down in
  let st2 := handleMouseMove props st1 move in
  let st3 := animationFrame dom st2 in
  handleMouseUp props st3.

(** [Math.hypot] orders pairs as the sums of their squares do. *)
Definition hypotOrder : Prop :=
  ∀ a b c d, (Math_hypot a b < Math_hypot c d)%Q ↔ (a * a + b * b < c * c + d * d)%Q.

(** [Math.hypot] of the offset between the two ports of a pair. *)
Definition hypotOf (c : Port * Port) : Q :=
  Math_hypot (port_x c.1 - port_x c.2) (port_y c.1 - port_y c.2).

(** What the search of [getBestConnection] knows after the pairs [cands]. *)
Definition searched (cands : list (Port * Port)) (acc : option Q * Connection)
  : Prop :=
  match acc.1 with
  | None => cands = []
  | Some d =>
    d = hypotOf (c_start acc.2, c_end acc.2)
    ∧ (c_start acc.2, c_end acc.2) ∈ cands
    ∧ ∀ c, c ∈ cands → ¬ (hypotOf c < d)%Q
  end.

(** The squared distance between two ports. *)
Definition sqDist (sp tp : Port) : Q :=
  ((port_x sp - port_x tp) * (port_x sp - port_x tp)
   + (port_y sp - port_y tp) * (port_y sp - port_y tp))%Q.

(** The point a path command ends at, and the points of a path. *)
Definition cmdPoint (c : PathCmd) : Point :=
  match c with
  | MoveTo x y => mkPoint x y
  | LineTo x y => mkPoint x y
  | CurveTo _ _ _ _ x y => mkPoint x y
  end.

Definition isLineTo (c : PathCmd) : Prop :=
  match c with LineTo _ _ => True | _ => False end.

Definition portPoint (p : Port) : Point := mkPoint (port_x p) (port_y p).

(** [v] lies between [u] and [w], whichever is the smaller. *)
Definition between (u v w : Q) : Prop :=
  (u <= v ∧ v <= w)%Q ∨ (w <= v ∧ v <= u)%Q.

(** [p] lies on the horizontal or vertical segment from [a] to [b]. *)
Definition onAxisSegment (p a b : Point) : Prop :=
  (px a = px b ∧ (px p == px a)%Q ∧ between (py a) (py p) (py b))
  ∨ (py a = py b ∧ (py p == py a)%Q ∧ between (px a) (px p) (px b)).

(** Consecutive points differ in one coordinate only. *)
Fixpoint orthogonalChain (pts : list Point) : Prop :=
  match pts with
  | a :: (b :: _) as rest => (px a = px b ∨ py a = py b) ∧ orthogonalChain rest
  | _ => True
  end.

(** The closed box of an entity and the closed rectangle share a point. *)
Definition sharePoint (rect : Rect) (x1 y1 x2 y2 : Q) : Prop :=
  ∃ p q, (rx rect <= p <= rx rect + rw rect)%Q ∧ (x1 <= p <= x2)%Q
         ∧ (ry rect <= q <= ry rect + rh rect)%Q ∧ (y1 <= q <= y2)%Q.

(** The press starts a pan: the middle button, or the left one with the
    space bar held or the pan tool active. *)
Definition startsPan (st : State) (e : MouseEvent) : bool :=
  (button e =? 1)%Z
  || ((button e =? 0)%Z
      && (isSpacePressed st || bool_decide (interactionMode st = mode_pan))).

(** A click on the canvas: the press and the release, no move between. *)
Definition backgroundClick (dom : Dom) (props : Props) (st : State)
    (down : MouseEvent) : State * list Commit :=
  handleMouseUp props (handleMouseDown dom props st down).

(* ================================================================== *)
(** ** The minimap as the canvas mounts it *)
(* ================================================================== *)

(** The props of [<Minimap ... />]; the two sizes are those of the
    [viewportSize] cell. *)
Definition minimapProps (props : Props) (st : State) (viewportWidth viewportHeight : Q)
  : Minimap.Props :=
  {| Minimap.entities := effectiveEntities props st;
     Minimap.viewX := px (offset st);
     Minimap.viewY := py (offset st);
     Minimap.zoom := zoom st;
     Minimap.containerWidth := viewportWidth;
     Minimap.containerHeight := viewportHeight |}.

(** [onViewChange={(x, y) => setOffset({ x, y })}] *)
Definition onViewChange (st : State) (view : Q * Q) : State :=
  setOffset {| px := view.1; py := view.2 |} st.

(** What the browser does between the press and the release of a drag: it
    delivers a pointer move, or it runs the pending frame. *)
Inductive PointerStep :=
| Move (e : MouseEvent)
| FrameTick.

Definition pointerStep (dom : Dom) (props : Props) (st : State) (s : PointerStep)
  : State :=
  match s with
  | Move e => handleMouseMove props st e
  | FrameTick => animationFrame dom st
  end.

(** A drag of entities with any sequence of moves and frames between the
    press on entity [id] and the release. *)
Definition entityDragSteps (dom : Dom) (props : Props) (st : State)
    (down : MouseEvent) (id : string) (steps : list PointerStep)
  : Gen (State * list Commit) :=
  let* pressed := handleEntityMouseDown props st down id in
  let '(st1, out1) := pressed in
  let st3 := foldl (pointerStep dom props) st1 steps in
  let '(st4, out4) := handleMouseUp props st3 in
  pure (st4, out1 ++ out4).

(** The cells a drag of entities leaves alone between press and release:
    every cell but the overlay and the pending frame is as in [s0], and a
    pending frame is one of this drag. *)
Definition duringDrag (props : Props) (s0 : State) (ds : DragState.t) (s : State)
  : Prop :=
  (∀ U r, setDragUpdates U (setRaf r s) = setDragUpdates U (setRaf r s0))
  ∧ (∀ f, raf s = Some f → f_dragState f = ds ∧ f_readOnly f = readOnly props).

(** Two key presses in a row, the second on the state and with the
    identifier count the first left; the props are those of the first when
    it made no call. *)
Definition twoKeys (dom : Dom) (props : Props) (st : State)
    (e1 e2 : KeyboardEvent) : Gen (State * list Commit) :=
  let* first := handleKeyDown dom props st e1 in
  handleKeyDown dom props first.1 e2.

(* ================================================================== *)
(** ** The host's models, history and store (App.tsx, services/api.ts) *)
(* ================================================================== *)

(** A model of the host's list: its [id] and the fields the canvas reads. *)
Record Model := mkModel {
  model_id : string;
  model_data : DataModel
}.

(** [Partial<DataModel>], for the fields the canvas replaces. *)
Record PartialModel := mkPartialModel {
  p_entities : option (list EntityNode.t);
  p_relationships : option (list Relationship.t)
}.

(** [{ entities: ents }] and [{ relationships: rels }] *)
Definition partialOf (c : Commit) : PartialModel :=
  match c with
  | onEntitiesChange ents => {| p_entities := Some ents; p_relationships := None |}
  | onRelationshipsChange rels => {| p_entities := None; p_relationships := Some rels |}
  end.

(** A whole model passed where a partial one is expected. *)
Definition wholeOf (m : Model) : PartialModel :=
  {| p_entities := Some (m_entities (model_data m));
     p_relationships := Some (m_relationships (model_data m)) |}.

(** [{ ...model, ...updates }] *)
Definition mergeModel (m : Model) (updates : PartialModel) : Model :=
  {| model_id := model_id m;
     model_data :=
       {| m_type := m_type (model_data m);
          m_entities := default (m_entities (model_data m)) (p_entities updates);
          m_relationships :=
            default (m_relationships (model_data m)) (p_relationships updates) |} |}.

(** *** services/api.ts, on the in-memory store [dbStore] *)

Definition api_fetchModelById (dbStore : list Model) (id : string) : option Model :=
  List.find (λ m, bool_decide (model_id m = id)) dbStore.

Definition api_createModel (dbStore : list Model) (model : Model) : list Model :=
  dbStore ++ [model].

(** [None] when the function throws. *)
Definition api_updateModel (dbStore : list Model) (id : string) (updates : PartialModel)
  : option (list Model) :=
  match list_find (λ m, model_id m = id) dbStore with
  | None => None
  | Some (index, found) => Some (<[index := mergeModel found updates]> dbStore)
  end.

Definition api_deleteModel (dbStore : list Model) (id : string) : list Model :=
  filter (λ m, model_id m ≠ id) dbStore.

(** *** App.tsx *)

Record HistoryState := mkHistoryState {
  modelId : string;
  data : Model
}.

(** The cells of [App] the canvas's updates go through; [saveTimeoutRef]
    holds the pending timeout, as the arguments its callback will pass to
    [api.updateModel]. *)
Record App := mkApp {
  models : list Model;
  selectedModelId : option string;
  historyStack : list HistoryState;
  saveTimeoutRef : option (string * PartialModel)
}.

Definition setModels (v : list Model) (a : App) : App :=
  mkApp v (selectedModelId a) (historyStack a) (saveTimeoutRef a).
Definition setHistoryStack (v : list HistoryState) (a : App) : App :=
  mkApp (models a) (selectedModelId a) v (saveTimeoutRef a).
Definition setSaveTimeoutRef (v : option (string * PartialModel)) (a : App) : App :=
  mkApp (models a) (selectedModelId a) (historyStack a) v.

(** [models.find(m => m.id === selectedModelId)] *)
Definition selectedModel (a : App) : option Model :=
  match selectedModelId a with
  | Some id => List.find (λ m, bool_decide (model_id m = id)) (models a)
  | None => None
  end.

(** The updater [pushToHistory] passes to [setHistoryStack]. *)
Definition pushToHistory (model : Model) (prev : list HistoryState)
  : list HistoryState :=
  let newStack := prev ++ [{| modelId := model_id model; data := model |}] in
  if (20 <? length newStack)%nat then drop (length newStack - 20) newStack
  else newStack.

(** [triggerSave]: the pending timeout is cleared and a new one is set. *)
Definition triggerSave (id : string) (updates : PartialModel) (a : App) : App :=
  setSaveTimeoutRef (Some (id, updates)) a.

(** [updateSelectedModel(updates, saveHistory)] of the render [render], run
    after the [set...] calls that led to [acc]. *)
Definition App_updateSelectedModel (render acc : App) (updates : PartialModel)
    (saveHistory : bool) : App :=
  if negb (truthy_str (selectedModelId render)) then acc
  else
    let id := default "" (selectedModelId render) in
    let acc :=
      match List.find (λ m, bool_decide (model_id m = id)) (models acc) with
      | None => acc
      | Some currentModel =>
        let updatedModel := mergeModel currentModel updates in
        triggerSave id updates
          (setModels ((λ m, if decide (model_id m = id) then updatedModel else m)
                        <$> models acc) acc)
      end in
    if saveHistory then
      match selectedModel render with
      | Some model => setHistoryStack (pushToHistory model (historyStack acc)) acc
      | None => acc
      end
    else acc.

Definition handleUndo (render acc : App) : App :=
  if negb (truthy_str (selectedModelId render))
     || (length (historyStack render) =? 0)%nat
  then acc
  else
    let id := default "" (selectedModelId render) in
    match last (historyStack render) with
    | None => acc
    | Some lastState =>
      if decide (modelId lastState = id) then
        let acc :=
          setModels ((λ m, if decide (model_id m = id) then data lastState else m)
                       <$> models acc) acc in
        let acc :=
          setHistoryStack
            (take (length (historyStack acc) - 1) (historyStack acc)) acc in
        triggerSave id (wholeOf (data lastState)) acc
      else acc
    end.

(** The pending timeout fires: [api.updateModel] runs on the store; when it
    throws, the error is logged and the store is as before. *)
Definition saveTimeoutFires (a : App) (dbStore : list Model) : App * list Model :=
  match saveTimeoutRef a with
  | Some (id, updates) =>
    (setSaveTimeoutRef None a, default dbStore (api_updateModel dbStore id updates))
  | None => (a, dbStore)
  end.

(** The calls a handler of the canvas made, received by the host in order:
    each is [updateSelectedModel] of the render the canvas was mounted in. *)
Definition hostCalls (a : App) (calls : list Commit) : App :=
  foldl (λ acc c, App_updateSelectedModel a acc (partialOf c) true) a calls.

(** *** [handleAutoLayout] *)

(** [record[key] || 0] *)
Definition orZero (record : gmap string nat) (key : string) : nat :=
  default 0%nat (record !! key).

(** [entities.forEach(e => { levels[e.id] = 0; inDegree[e.id] = 0; })] *)
Definition initialRecord (entities : list EntityNode.t) : gmap string nat :=
  foldl (λ record e, <[EntityNode.id e := 0%nat]> record) ∅ entities.

Definition inDegree (entities : list EntityNode.t) (rels : list Relationship.t)
  : gmap string nat :=
  foldl (λ d r,
           <[Relationship.targetId r := (orZero d (Relationship.targetId r) + 1)%nat]> d)
        (initialRecord entities) rels.

(** The variables of the [while] loop. *)
Record LayoutState := mkLayoutState {
  queue : list string;
  visited : gset string;
  levels : gmap string nat
}.

Definition initialLayout (entities : list EntityNode.t) (rels : list Relationship.t)
  : LayoutState :=
  {| queue :=
       EntityNode.id
         <$> filter (λ e, inDegree entities rels !! EntityNode.id e = Some 0%nat)
                    entities;
     visited := ∅;
     levels := initialRecord entities |}.

(** The body of [outgoing.forEach], on [levels] and [queue]. *)
Definition visitOutgoing (currentId : string)
    (acc : gmap string nat * list string) (r : Relationship.t)
  : gmap string nat * list string :=
  (<[Relationship.targetId r :=
       Nat.max (orZero acc.1 (Relationship.targetId r)) (orZero acc.1 currentId + 1)]>
     acc.1,
   acc.2 ++ [Relationship.targetId r]).

(** One turn of the loop; [None] when [queue.length > 0] fails. *)
Definition layoutIteration (rels : list Relationship.t) (s : LayoutState)
  : option LayoutState :=
  match queue s with
  | [] => None
  | currentId :: rest =>
    if decide (currentId ∈ visited s) then
      Some {| queue := rest; visited := visited s; levels := levels s |}
    else
      let outgoing := filter (λ r, Relationship.sourceId r = currentId) rels in
      let result := foldl (visitOutgoing currentId) (levels s, rest) outgoing in
      Some {| queue := result.2;
              visited := {[currentId]} ∪ visited s;
              levels := result.1 |}
  end.

Fixpoint layoutLoop (fuel : nat) (rels : list Relationship.t) (s : LayoutState)
  : LayoutState :=
  match fuel with
  | O => s
  | S fuel =>
    match layoutIteration rels s with
    | None => s
    | Some s' => layoutLoop fuel rels s'
    end
  end.

(** The state the loop ends in: no identifier is queued more often than
    once per entity and once per relationship. *)
Definition layoutResult (entities : list EntityNode.t) (rels : list Relationship.t)
  : LayoutState :=
  layoutLoop (length entities + length rels) rels (initialLayout entities rels).

Definition levelOf (lv : gmap string nat) (e : EntityNode.t) : nat :=
  orZero lv (EntityNode.id e).

(** [nodesByLevel], an entity standing in it as its position in
    [entities], which is what [indexOf] compares. *)
Definition nodesByLevel (lv : gmap string nat) (entities : list EntityNode.t)
  : gmap nat (list nat) :=
  foldl (λ byLevel ie,
           let lvl := levelOf lv ie.2 in
           <[lvl := default [] (byLevel !! lvl) ++ [ie.1]]> byLevel)
        ∅ (imap pair entities).

Definition indexOf (l : list nat) (i : nat) : Z :=
  match list_find (λ j, j = i) l with
  | Some (k, _) => Z.of_nat k
  | None => (-1)%Z
  end.

Definition withPosition (x y : Q) (e : EntityNode.t) : EntityNode.t :=
  EntityNode.mk (EntityNode.id e) (EntityNode.name e) (EntityNode.chineseName e)
    x y (EntityNode.width e) (EntityNode.height e)
    (EntityNode.attributes e) (EntityNode.collapsed e) (EntityNode.color e).

(** [newEntities] *)
Definition autoLayout (entities : list EntityNode.t) (rels : list Relationship.t)
  : list EntityNode.t :=
  let lv := levels (layoutResult entities rels) in
  let byLevel := nodesByLevel lv entities in
  let LEVEL_WIDTH := 350%Q in
  let LEVEL_HEIGHT := 200%Q in
  imap (λ i e,
          let lvl := levelOf lv e in
          let indexInLevel := indexOf (default [] (byLevel !! lvl)) i in
          withPosition (100 + inject_Z (Z.of_nat lvl) * LEVEL_WIDTH)%Q
                       (100 + inject_Z indexInLevel * LEVEL_HEIGHT)%Q e)
       entities.

Definition handleAutoLayout (render acc : App) : App :=
  match selectedModel render with
  | None => acc
  | Some model =>
    App_updateSelectedModel render acc
      {| p_entities :=
           Some (autoLayout (m_entities (model_data model))
                            (m_relationships (model_data model)));
         p_relationships := None |} true
  end.

(** The entities no relationship leads to. *)
Definition isRoot (rels : list Relationship.t) (id : string) : Prop :=
  ∀ r, r ∈ rels → Relationship.targetId r ≠ id.

(** What the turns of the loop still have to do: the queued identifiers,
    and the relationships whose source has not been visited. *)
Definition layoutMeasure (rels : list Relationship.t) (s : LayoutState) : nat :=
  (length (queue s)
   + length (filter (λ r, Relationship.sourceId r ∉ visited s) rels))%nat.

(** [n] presses of undo, each in a render of its own. *)
Definition undos (n : nat) (a : App) : App :=
  Nat.iter n (λ x, handleUndo x x) a.

(** The entry [pushToHistory] adds for [model]. *)
Definition snapshotOf (model : Model) : HistoryState :=
  {| modelId := model_id model; data := model |}.

(* ================================================================== *)
(** ** Sample data *)
(* ================================================================== *)

(** [Math.pow] where rationals can follow it: exact at integer exponents. *)
Definition pow_int (b e : Q) : Q := Qpower b (Qfloor e).

(** A source of identifiers that never repeats itself. *)
Definition sample_random_id (n : nat) : string := "id-" +:+ pretty n.

(** The two entities and the relationship of the first mock model. *)
Definition a1 : Attribute.t := Attribute.mk "a1" "email" "String" true false.
Definition a2 : Attribute.t := Attribute.mk "a2" "order_id" "UUID" true false.
Definition a3 : Attribute.t := Attribute.mk "a3" "total" "Money" false true.

Definition E1 : EntityNode.t :=
  EntityNode.mk "e1" "User" None 100 100 None None [a1] false None.

Definition E2 : EntityNode.t :=
  EntityNode.mk "e2" "Order" None 500 150 None None [a2; a3] false None.

Definition R1 : Relationship.t :=
  Relationship.mk "r1" "e1" "e2" ONE_TO_MANY step
    (Some marker_one) (Some marker_crowfoot) None.

Definition model0 : DataModel :=
  {| m_type := LOGICAL; m_entities := [E1; E2]; m_relationships := [R1] |}.

(** An entity with 8 attributes. *)
Definition E8 : EntityNode.t :=
  EntityNode.mk "e8" "Wide" None 0 0 None None
    [a1; a2; a3; a1; a2; a3; a1; a2] false None.

Definition dom0 : Dom :=
  {| boundingClientRect := Some (mkDOMRect 10 20); activeElementTag := None |}.

(** Wheel events with Ctrl held: a notch in, far out, far in. *)
Definition wheelIn : WheelEvent := mkWheelEvent 110 220 0 (-100) true false.
Definition wheelFarOut : WheelEvent := mkWheelEvent 110 220 0 9000 true false.
Definition wheelFarIn : WheelEvent := mkWheelEvent 110 220 0 (-4000) true false.

(** A left press at (300, 300), a move by (50, -20), a move by (-176, 0). *)
Definition press : MouseEvent := mkMouseEvent 0 300 300 false false false.
Definition moveBy50 : MouseEvent := mkMouseEvent 0 350 280 false false false.
Definition moveShrink : MouseEvent := mkMouseEvent 0 124 300 false false false.

(** At zoom 2: a left press at (300, 300) followed by a move by (100, -40)
    on screen, and a left press at (600, 300) followed by a move by
    (-352, 0) on screen. *)
Definition moveBy100 : MouseEvent := mkMouseEvent 0 400 260 false false false.
Definition pressHandle : MouseEvent := mkMouseEvent 0 600 300 false false false.
Definition moveShrinkZoomed : MouseEvent := mkMouseEvent 0 248 300 false false false.

Definition ctrlV : KeyboardEvent := mkKeyboardEvent "v" "KeyV" true false false.

(** [E1] selected; [E1] on the clipboard; a marquee from (0, 0) to
    (120, 120) in progress while [E2] is selected. *)
Definition stSelected : State := setSelectedEntityIds {["e1"]} initialState.

Definition stClipboard : State := setClipboard (Some [E1]) initialState.

(** The canvas zoomed to 2, nothing selected, and with [E1] selected. *)
Definition stZoom2 : State := setZoom 2 initialState.
Definition stSelectedZoom2 : State := setZoom 2 stSelected.



Definition marqueeDrag : DragState.t :=
  DragState.mk drag_selection 10 20 None None None None None.

Definition marqueeBox : SelectionBox := mkSelectionBox 120 120 0 0.

Definition stMarquee : State :=
  setSelectionBox (Some marqueeBox)
    (setDragState (Some marqueeDrag)
       (setSelectedEntityIds {["e2"]} initialState)).

(** The square of the distance: it orders pairs as [Math.hypot] does. *)
Definition hypot_sq (a b : Q) : Q := (a * a + b * b)%Q.

(** The canvas on the first mock model, read-only. *)
Definition readOnlyProps : Props :=
  {| modelType := LOGICAL; entities := [E1; E2]; relationships := [R1];
     readOnly := true |}.

(** A text input has the focus. *)
Definition domInput : Dom :=
  {| boundingClientRect := Some (mkDOMRect 10 20);
     activeElementTag := Some "INPUT" |}.

Definition ctrlC : KeyboardEvent := mkKeyboardEvent "c" "KeyC" true false false.
Definition ctrlA : KeyboardEvent := mkKeyboardEvent "a" "KeyA" true false false.
Definition deleteKey : KeyboardEvent :=
  mkKeyboardEvent "Delete" "Delete" false false false.

(** A left press with Shift held, and a left press over [E1]. *)
Definition shiftPress : MouseEvent := mkMouseEvent 0 300 300 true false false.
Definition pressOnE1 : MouseEvent := mkMouseEvent 0 150 130 false false false.

(** The pan tool is active. *)
Definition stPan : State := setInteractionMode mode_pan initialState.

(** A drag of [E1] in progress, with its overlay. *)
Definition dragE1 : DragState.t :=
  DragState.mk drag_entity 300 300 (Some {["e1" := mkPoint 100 100]})
    None None None None.

Definition stDragging : State :=
  setDragUpdates {["e1" := entityDragUpdate 50 (-20) (mkPoint 100 100)]}
    (setDragState (Some dragE1) initialState).

(** The minimap of the first mock model in a viewport of 800 by 600, and a
    pointer movement of (5, 3) over it. *)
Definition minimap0 : Minimap.Props :=
  minimapProps (canvasProps model0) initialState 800 600.

Definition movement0 : Minimap.MovementEvent := Minimap.mkMovementEvent 5 3.

(** The host with the first mock model selected and in its store. *)
Definition stored0 : Model := {| model_id := "1"; model_data := model0 |}.

Definition app0 : App :=
  {| models := [stored0]; selectedModelId := Some "1"; historyStack := [];
     saveTimeoutRef := None |}.

(** The two calls of a delete of [E1]. *)
Definition deleteCalls0 : list Commit :=
  [onRelationshipsChange []; onEntitiesChange [E2]].

(* ================================================================== *)
(** ** Arithmetic of the clamps *)
(* ================================================================== *)

Lemma Math_max_lb_l a b : (a <= Math_max a b)%Q.
Proof. apply Q.le_max_l. Qed.

Lemma Math_max_lb_r a b : (b <= Math_max a b)%Q.
Proof. apply Q.le_max_r. Qed.

Lemma Math_min_ub_l a b : (Math_min a b <= a)%Q.
Proof. apply Q.le_min_l. Qed.

Lemma Math_min_ub_r a b : (Math_min a b <= b)%Q.
Proof. apply Q.le_min_r. Qed.

Lemma Math_max_lub a b c : (a <= c → b <= c → Math_max a b <= c)%Q.
Proof. intros. by apply Q.max_lub. Qed.

Lemma Math_min_glb a b c : (c <= a → c <= b → c <= Math_min a b)%Q.
Proof. intros. by apply Q.min_glb. Qed.

Lemma wheel_clamp_range z : (0.1 <= Math_max 0.1 (Math_min 5 z) <= 5)%Q.
Proof.
  split; [apply Math_max_lb_l|].
  apply Math_max_lub; [lra | apply Math_min_ub_l].
Qed.

Lemma or0_Some q : (or0 (Some q) == q)%Q.
Proof.
  simpl. destruct (Qeq_bool q 0) eqn:E; [|reflexivity].
  apply Qeq_bool_iff in E. by rewrite E.
Qed.

(* ================================================================== *)
(** ** Bounding box *)
(* ================================================================== *)

Lemma getEntityRect_tabular mt search node :
  truthy (EntityNode.width node) && truthy (EntityNode.height node) = false →
  mt ≠ CONCEPTUAL →
  search = "" →
  EntityNode.collapsed node = false →
  (5 < length (EntityNode.attributes node))%nat →
  getEntityRect mt search node =
    {| rx := EntityNode.x node; ry := EntityNode.y node; rw := 256%Q;
       rh := (44 + inject_Z (Z.of_nat (length (EntityNode.attributes node))) * 24
              + 24)%Q |}.
Proof.
  intros Hsz Hmt -> Hc Hn. unfold getEntityRect.
  rewrite Hsz, Hc. destruct (decide (mt = CONCEPTUAL)); [done|].
  apply Nat.ltb_lt in Hn. simpl. by rewrite Hn.
Qed.

(** C8.  A non-conceptual entity without explicit size, with exactly 8
    attributes, not collapsed, while no text filter is active: the box is
    256 wide and its height is the header, 8 rows and the footer,
    44 + 8 * 24 + 24 = 260.  All 8 rows count (5 rows and a footer would
    give 188) and the footer is there (8 rows without one would give 240). *)
Theorem getEntityRect_eight_attributes mt node :
  mt ≠ CONCEPTUAL →
  EntityNode.width node = None →
  EntityNode.height node = None →
  length (EntityNode.attributes node) = 8%nat →
  EntityNode.collapsed node = false →
  getEntityRect mt "" node =
    {| rx := EntityNode.x node; ry := EntityNode.y node; rw := 256%Q; rh := 260%Q |}
  ∧ (260 == 44 + 8 * 24 + 24)%Q
  ∧ ¬ (260 == 44 + 5 * 24 + 24)%Q
  ∧ ¬ (260 == 44 + 8 * 24 + 4)%Q.
Proof.
  intros Hmt Hw Hh Hn Hc. split; [|done].
  rewrite getEntityRect_tabular; try done.
  - by rewrite Hn.
  - by rewrite Hw.
  - rewrite Hn. lia.
Qed.

(* ================================================================== *)
(** ** Zoom *)
(* ================================================================== *)

Lemma handleWheel_zoom_branch dom st e rect :
  boundingClientRect dom = Some rect →
  w_ctrlKey e || w_metaKey e || bool_decide (interactionMode st = mode_pan) = true →
  let mouseX := (w_clientX e - rect_left rect)%Q in
  let mouseY := (w_clientY e - rect_top rect)%Q in
  let nextZoom :=
    Math_max 0.1 (Math_min 5 (zoom st * Math_pow (1 + 0.001)%Q (- deltaY e)%Q)) in
  handleWheel dom st e =
    setOffset {| px := (mouseX - (mouseX - px (offset st)) * (nextZoom / zoom st))%Q;
                 py := (mouseY - (mouseY - py (offset st)) * (nextZoom / zoom st))%Q |}
              (setZoom nextZoom st).
Proof. intros Hr Hz. unfold handleWheel. by rewrite Hr, Hz. Qed.

Lemma anchor_algebra m o z z' :
  ¬ (z == 0)%Q → ¬ (z' == 0)%Q →
  (toWorld m (m - (m - o) * (z' / z)) z' == toWorld m o z)%Q.
Proof. intros Hz Hz'. unfold toWorld. field. done. Qed.

(** C1.  A wheel event that zooms keeps the world point under the pointer
    in place.  The new offset is
    [mouse - (mouse - offset) * (newZoom / zoom)] on each axis, and the
    world coordinate [(screen - offset) / zoom] of the anchor is the same
    before and after [handleWheel], on both axes.  Numbers are exact here,
    so the two coordinates are equal and their distance is below every
    positive epsilon.  The zoom is a scale factor and is not zero (it starts
    at 1 and every zoom operation keeps it within [0.1, 5], see
    [zoom_reachable_range]). *)
Theorem handleWheel_anchor_preserving dom st e :
  wheelZooms dom st e →
  ¬ (zoom st == 0)%Q →
  let st' := handleWheel dom st e in
  let mouseX := anchorX dom e in
  let mouseY := anchorY dom e in
  (toWorld mouseX (px (offset st')) (zoom st')
     == toWorld mouseX (px (offset st)) (zoom st))%Q
  ∧ (toWorld mouseY (py (offset st')) (zoom st')
     == toWorld mouseY (py (offset st)) (zoom st))%Q
  ∧ px (offset st')
    = (mouseX - (mouseX - px (offset st)) * (zoom st' / zoom st))%Q
  ∧ py (offset st')
    = (mouseY - (mouseY - py (offset st)) * (zoom st' / zoom st))%Q
  ∧ ∀ eps, (0 < eps)%Q →
      (Qabs (toWorld mouseX (px (offset st')) (zoom st')
             - toWorld mouseX (px (offset st)) (zoom st)) < eps)%Q
      ∧ (Qabs (toWorld mouseY (py (offset st')) (zoom st')
               - toWorld mouseY (py (offset st)) (zoom st)) < eps)%Q.
Proof.
  intros [[rect Hr] Hz] Hzoom st' mouseX mouseY.
  assert (Hnz : ∀ z, ¬ (Math_max 0.1 (Math_min 5 z) == 0)%Q).
  { intros z Hz0. pose proof (wheel_clamp_range z) as [Hlo _].
    rewrite Hz0 in Hlo. lra. }
  pose proof (handleWheel_zoom_branch dom st e rect Hr Hz) as Hst'.
  fold st' in Hst'. cbv zeta in Hst'.
  assert (HmX : mouseX = (w_clientX e - rect_left rect)%Q)
    by (subst mouseX; unfold anchorX; by rewrite Hr).
  assert (HmY : mouseY = (w_clientY e - rect_top rect)%Q)
    by (subst mouseY; unfold anchorY; by rewrite Hr).
  rewrite <- HmX, <- HmY in Hst'. clearbody st' mouseX mouseY. subst st'.
  cbn [offset zoom setOffset setZoom px py].
  assert (HX : ∀ m o, (toWorld m
                    (m - (m - o)
                         * (Math_max 0.1
                              (Math_min 5 (zoom st * Math_pow (1 + 0.001)
                                                       (- deltaY e)))
                            / zoom st))
                    (Math_max 0.1
                       (Math_min 5 (zoom st * Math_pow (1 + 0.001) (- deltaY e))))
                == toWorld m o (zoom st))%Q).
  { intros m o. by apply anchor_algebra. }
  split; [apply HX|]. split; [apply HX|]. split; [done|]. split; [done|].
  intros eps Heps. rewrite !HX.
  assert (∀ q, (Qabs (q - q) == 0)%Q) as Habs.
  { intros q. assert (Hq : (q - q == 0)%Q) by ring. by rewrite Hq. }
  rewrite !Habs. done.
Qed.

Lemma handleWheel_zoom_range dom st e :
  wheelZooms dom st e →
  (0.1 <= zoom (handleWheel dom st e) <= 5)%Q.
Proof.
  intros [[rect Hr] Hz].
  rewrite (handleWheel_zoom_branch dom st e rect Hr Hz). simpl.
  apply wheel_clamp_range.
Qed.

Lemma handleWheel_zoom_cases dom st e :
  wheelZooms dom st e ∨ zoom (handleWheel dom st e) = zoom st.
Proof.
  unfold wheelZooms, handleWheel.
  destruct (boundingClientRect dom) as [rect|]; [|by right].
  destruct (w_ctrlKey e || w_metaKey e || bool_decide (interactionMode st = mode_pan))
    eqn:Hz; [left; eauto | by right].
Qed.

Lemma zoomInButton_zoom st : zoom (zoomInButton st) = Math_min (zoom st + 0.1) 2.
Proof. done. Qed.

Lemma zoomOutButton_zoom st : zoom (zoomOutButton st) = Math_max (zoom st - 0.1) 0.5.
Proof. done. Qed.

Lemma zoomStep_range st op :
  (0.1 <= zoom st <= 5)%Q → (0.1 <= zoom (zoomStep st op) <= 5)%Q.
Proof.
  intros [Hlo Hhi]. destruct op as [dom e| |]; cbn [zoomStep].
  - destruct (handleWheel_zoom_cases dom st e) as [Hz| ->]; [|done].
    by apply handleWheel_zoom_range.
  - rewrite zoomInButton_zoom. split.
    + apply Math_min_glb; lra.
    + eapply Qle_trans; [apply Math_min_ub_r|lra].
  - rewrite zoomOutButton_zoom. split.
    + eapply Qle_trans; [|apply Math_max_lb_r]. lra.
    + apply Math_max_lub; lra.
Qed.

(** Whatever the sequence of wheel events and button presses, the zoom
    stays within [0.1, 5]; in particular it is never zero. *)
Lemma zoom_reachable_range ops :
  (0.1 <= zoom (zoomSteps initialState ops) <= 5)%Q.
Proof.
  unfold zoomSteps.
  assert (H0 : (0.1 <= zoom initialState <= 5)%Q) by (simpl; lra).
  revert H0. generalize initialState.
  induction ops as [|op ops IH]; intros st Hst; simpl; [done|].
  apply IH. by apply zoomStep_range.
Qed.

(** C9, as the code has it.  After a wheel-driven zoom the factor lies
    within [0.1, 5].  The zoom-in button only bounds the factor from above
    (at most 2) and the zoom-out button only from below (at least 0.5): a
    button press ends within [0.5, 2] when it starts there (zoom-in: from
    0.4 at least; zoom-out: from 2.1 at most). *)
Theorem zoom_clamps_by_control_path :
  (∀ dom st e, wheelZooms dom st e → (0.1 <= zoom (handleWheel dom st e) <= 5)%Q)
  ∧ (∀ st, (zoom (zoomInButton st) <= 2)%Q)
  ∧ (∀ st, (0.5 <= zoom (zoomOutButton st))%Q)
  ∧ (∀ st, (0.4 <= zoom st)%Q → (0.5 <= zoom (zoomInButton st) <= 2)%Q)
  ∧ (∀ st, (zoom st <= 2.1)%Q → (0.5 <= zoom (zoomOutButton st) <= 2)%Q).
Proof.
  split; [apply handleWheel_zoom_range|].
  split; [intros; rewrite zoomInButton_zoom; apply Math_min_ub_r|].
  split; [intros; rewrite zoomOutButton_zoom; apply Math_max_lb_r|].
  split; intros st Hst.
  - rewrite zoomInButton_zoom. split; [|apply Math_min_ub_r].
    apply Math_min_glb; lra.
  - rewrite zoomOutButton_zoom. split; [apply Math_max_lb_r|].
    apply Math_max_lub; lra.
Qed.

(* ================================================================== *)
(** ** Delete *)
(* ================================================================== *)

Lemma size_gset_zero (X : gset string) : size X = 0%nat ↔ X = ∅.
Proof. rewrite size_empty_iff. apply leibniz_equiv_iff. Qed.

Lemma filter_Forall_id {A} (P : A → Prop) `{∀ x, Decision (P x)} (l : list A) :
  Forall P l → filter P l = l.
Proof.
  induction 1 as [|x l Hx _ IH]; [done|].
  by rewrite filter_cons_True, IH.
Qed.

Lemma handleDeleteSelectedEntities_eq props st :
  readOnly props = false →
  selectedEntityIds st ≠ ∅ →
  handleDeleteSelectedEntities props st =
    (setSelectedEntityIds ∅ st,
     [onRelationshipsChange
        (filter (λ r, (Relationship.sourceId r ∉ selectedEntityIds st)
                      ∧ (Relationship.targetId r ∉ selectedEntityIds st))
                (relationships props));
      onEntitiesChange
        (filter (λ e, EntityNode.id e ∉ selectedEntityIds st) (entities props))]).
Proof.
  intros Hro Hsel. unfold handleDeleteSelectedEntities, handleDeleteSelectedEntities_in.
  rewrite Hro. destruct (decide _) as [Hz|]; [|done].
  by apply size_gset_zero in Hz.
Qed.

Lemma handleDeleteSelectedEntities_spec props st :
  readOnly props = false →
  selectedEntityIds st ≠ ∅ →
  ∃ newEntities newRelationships,
    handleDeleteSelectedEntities props st =
      (setSelectedEntityIds ∅ st,
       [onRelationshipsChange newRelationships; onEntitiesChange newEntities])
    ∧ (∀ r, r ∈ newRelationships ↔
            r ∈ relationships props
            ∧ (Relationship.sourceId r ∉ selectedEntityIds st)
            ∧ (Relationship.targetId r ∉ selectedEntityIds st))
    ∧ (∀ e, e ∈ newEntities ↔
            e ∈ entities props ∧ EntityNode.id e ∉ selectedEntityIds st)
    ∧ newEntities `sublist_of` entities props
    ∧ newRelationships `sublist_of` relationships props.
Proof.
  intros Hro Hsel. eexists _, _.
  split; [by apply handleDeleteSelectedEntities_eq|].
  split; [|split; [|split]].
  - intros r. rewrite list_elem_of_filter. split.
    + by intros [[? ?] ?].
    + by intros (? & ? & ?).
  - intros e. rewrite list_elem_of_filter. split; intros [? ?]; done.
  - apply sublist_filter.
  - apply sublist_filter.
Qed.

(** C2.  Deleting a non-empty selection on the canvas as the application
    mounts it.  The handler sends a relationship collection and an entity
    collection to the host.  The relationships sent are those of the model
    that reference no selected entity at either end, so none has a deleted
    entity as source or target; the entities sent are exactly the entities
    of the model whose identifier is not selected; both keep their order.
    These two collections are the ones the host holds once it has taken the
    two calls, and the selection is empty afterwards. *)
Theorem delete_selected_entities_prunes m st :
  selectedEntityIds st ≠ ∅ →
  let sel := selectedEntityIds st in
  let result := handleDeleteSelectedEntities (canvasProps m) st in
  let m' := commitAll m result.2 in
  (∀ r, r ∈ m_relationships m' →
        (Relationship.sourceId r ∉ sel) ∧ (Relationship.targetId r ∉ sel))
  ∧ (∀ r, r ∈ m_relationships m' ↔
          r ∈ m_relationships m
          ∧ (Relationship.sourceId r ∉ sel) ∧ (Relationship.targetId r ∉ sel))
  ∧ (∀ e, e ∈ m_entities m' ↔ e ∈ m_entities m ∧ EntityNode.id e ∉ sel)
  ∧ m_entities m' `sublist_of` m_entities m
  ∧ m_relationships m' `sublist_of` m_relationships m
  ∧ result.2 = [onRelationshipsChange (m_relationships m');
                onEntitiesChange (m_entities m')]
  ∧ selectedEntityIds result.1 = ∅.
Proof.
  intros Hsel sel result m'.
  destruct (handleDeleteSelectedEntities_spec (canvasProps m) st eq_refl Hsel)
    as (ents & rels & Heq & Hrels & Hents & Hsub1 & Hsub2).
  assert (Hm' : m_relationships m' = rels ∧ m_entities m' = ents).
  { subst m' result. by rewrite Heq. }
  destruct Hm' as [-> ->]. fold sel in Hrels, Hents.
  split; [intros r Hr; by apply Hrels in Hr as (_ & ? & ?)|].
  split; [done|]. split; [done|]. split; [done|]. split; [done|].
  subst result. by rewrite Heq.
Qed.

Lemma noDangling_pruned (sel : gset string) m :
  noDangling m →
  noDangling
    {| m_type := m_type m;
       m_entities := filter (λ e, EntityNode.id e ∉ sel) (m_entities m);
       m_relationships :=
         filter (λ r, (Relationship.sourceId r ∉ sel)
                      ∧ (Relationship.targetId r ∉ sel)) (m_relationships m) |}.
Proof.
  intros Hm r Hr. simpl in *.
  apply list_elem_of_filter in Hr as [[Hs Ht] Hr].
  destruct (Hm r Hr) as [Hs' Ht'].
  apply list_elem_of_fmap in Hs' as (es & Hes & Hes').
  apply list_elem_of_fmap in Ht' as (et & Het & Het').
  split; apply list_elem_of_fmap.
  - exists es. split; [done|]. apply list_elem_of_filter. by rewrite <- Hes.
  - exists et. split; [done|]. apply list_elem_of_filter. by rewrite <- Het.
Qed.

Lemma noDangling_fewer_relationships m rels :
  noDangling m →
  rels ⊆ m_relationships m →
  noDangling {| m_type := m_type m; m_entities := m_entities m;
                m_relationships := rels |}.
Proof. intros Hm Hsub r Hr. apply Hm. by apply Hsub. Qed.

Lemma noDangling_not_gone (sel : gset string) m :
  noDangling m → ¬ entitiesGoneRelsRemain sel m.
Proof.
  intros Hm [Hgone (r & Hr & Hsel)].
  destruct (Hm r Hr) as [Hs Ht].
  apply list_elem_of_fmap in Hs as (es & Hes & Hes').
  apply list_elem_of_fmap in Ht as (et & Het & Het').
  destruct Hsel as [Hsel|Hsel].
  - apply (Hgone es Hes'). by rewrite <- Hes.
  - apply (Hgone et Het'). by rewrite <- Het.
Qed.

(** C10.  Deleting a relationship by identifier makes one call, for the
    relationships: the collection without the relationships of that
    identifier, the others unchanged and in their order.  No call is made
    for the entities, so the host's entity collection is the one it had.
    The relationship selection is cleared when it was that identifier, and
    no other cell of the component changes. *)
Theorem handleDeleteRel_frame props st id :
  ∃ rels',
    handleDeleteRel props st id =
      (if decide (selectedRelId st = Some id) then setSelectedRelId None st else st,
       [onRelationshipsChange rels'])
    ∧ rels' = filter (λ r, Relationship.id r ≠ id) (relationships props)
    ∧ (∀ r, r ∈ rels' ↔ r ∈ relationships props ∧ Relationship.id r ≠ id)
    ∧ rels' `sublist_of` relationships props
    ∧ (∀ l1 r l2,
         relationships props = l1 ++ r :: l2 →
         Relationship.id r = id →
         Forall (λ r', Relationship.id r' ≠ id) (l1 ++ l2) →
         rels' = l1 ++ l2)
    ∧ (∀ m, m_entities (commitAll m (handleDeleteRel props st id).2) = m_entities m
            ∧ m_relationships (commitAll m (handleDeleteRel props st id).2) = rels')
    ∧ selectedRelId (handleDeleteRel props st id).1 =
        (if decide (selectedRelId st = Some id) then None else selectedRelId st)
    ∧ selectedEntityIds (handleDeleteRel props st id).1 = selectedEntityIds st.
Proof.
  eexists. split; [done|]. split; [done|].
  split; [|split; [|split; [|split; [|split]]]].
  - intros r. rewrite list_elem_of_filter. split; intros [? ?]; done.
  - apply sublist_filter.
  - intros l1 r l2 -> Hr Hall. apply Forall_app in Hall as [H1 H2].
    rewrite filter_app, filter_cons_False; [|intros Hne; by apply Hne].
    by rewrite !filter_Forall_id.
  - done.
  - simpl. by destruct (decide _).
  - simpl. by destruct (decide _).
Qed.

(* ================================================================== *)
(** ** Marquee selection *)
(* ================================================================== *)

Lemma js_gt_false a b : js_gt a b = false ↔ (a <= b)%Q.
Proof. unfold js_gt. rewrite negb_false_iff. apply Qle_bool_iff. Qed.

Lemma js_lt_false a b : js_lt a b = false ↔ (b <= a)%Q.
Proof. unfold js_lt. rewrite negb_false_iff. apply Qle_bool_iff. Qed.

Lemma isOverlapping_boxIntersects rect x1 y1 x2 y2 :
  isOverlapping rect x1 y1 x2 y2 = true ↔ boxIntersects rect x1 y1 x2 y2.
Proof.
  unfold isOverlapping, boxIntersects.
  rewrite negb_true_iff, !orb_false_iff, !js_gt_false, !js_lt_false.
  split; [intros [[[? ?] ?] ?] | intros (? & ? & ? & ?)]; repeat split; done.
Qed.

(** For a box of non-negative size and a normalized rectangle, the test of
    the code holds exactly when the two closed rectangles share a point. *)
Lemma boxIntersects_shared_point rect x1 y1 x2 y2 :
  (0 <= rw rect)%Q → (0 <= rh rect)%Q → (x1 <= x2)%Q → (y1 <= y2)%Q →
  boxIntersects rect x1 y1 x2 y2 ↔
  ∃ p q, (rx rect <= p <= rx rect + rw rect)%Q ∧ (x1 <= p <= x2)%Q
         ∧ (ry rect <= q <= ry rect + rh rect)%Q ∧ (y1 <= q <= y2)%Q.
Proof.
  intros Hw Hh Hx Hy. unfold boxIntersects. split.
  - intros (H1 & H2 & H3 & H4).
    exists (Qmax (rx rect) x1), (Qmax (ry rect) y1).
    repeat split;
      first [ apply Q.le_max_l | apply Q.le_max_r | apply Q.max_lub; lra ].
  - intros (p & q & [? ?] & [? ?] & [? ?] & [? ?]). repeat split; lra.
Qed.

Lemma Math_min_le_max a b : (Math_min a b <= Math_max a b)%Q.
Proof. eapply Qle_trans; [apply Math_min_ub_l | apply Math_max_lb_l]. Qed.

Lemma marquee_fold (P : EntityNode.t → bool) ents (sel : gset string) id :
  id ∈ foldl (λ acc ent, if P ent then {[EntityNode.id ent]} ∪ acc else acc) sel ents
  ↔ id ∈ sel ∨ ∃ ent, ent ∈ ents ∧ EntityNode.id ent = id ∧ P ent = true.
Proof.
  revert sel. induction ents as [|a ents IH]; intros sel; simpl.
  - split; [by left|]. intros [?|(ent & Hent & _)]; [done|].
    by apply elem_of_nil in Hent.
  - rewrite IH. split.
    + intros [Hin|(ent & Hent & Hid & HP)].
      * destruct (P a) eqn:Ha; [|by left].
        apply elem_of_union in Hin as [Hin|Hin]; [|by left].
        apply elem_of_singleton in Hin. right. exists a.
        split; [apply list_elem_of_here|done].
      * right. exists ent. split; [by apply list_elem_of_further|done].
    + intros [Hin|(ent & Hent & Hid & HP)].
      * left. destruct (P a); [|done]. apply elem_of_union. by right.
      * apply elem_of_cons in Hent as [->|Hent].
        -- left. rewrite HP. apply elem_of_union. left. by apply elem_of_singleton.
        -- right. by exists ent.
Qed.

Lemma handleMouseUp_selection props st ds box :
  dragState st = Some ds →
  DragState.type ds = drag_selection →
  selectionBox st = Some box →
  handleMouseUp props st =
    (setSelectionBox None
       (setDragState None
          (setRaf None (setSelectedEntityIds (marqueeSelection props st box) st))),
     []).
Proof. intros Hds Hty Hbox. unfold handleMouseUp. by rewrite Hds, Hty, Hbox. Qed.

(** C4.  Releasing a marquee.  The rectangle is the one spanned by the two
    corners of the selection box, normalized by min and max.  The selection
    after the release is the selection before it together with the
    identifiers of the entities whose box meets that rectangle; so it
    contains the selection before the release.  The release changes no
    collection and ends the gesture. *)
Theorem marquee_release_union props st ds box :
  dragState st = Some ds →
  DragState.type ds = drag_selection →
  selectionBox st = Some box →
  let x1 := Math_min (startX box) (currentX box) in
  let y1 := Math_min (startY box) (currentY box) in
  let x2 := Math_max (startX box) (currentX box) in
  let y2 := Math_max (startY box) (currentY box) in
  let st' := (handleMouseUp props st).1 in
  (∀ id, id ∈ selectedEntityIds st' ↔
         id ∈ selectedEntityIds st
         ∨ ∃ ent, ent ∈ entities props ∧ EntityNode.id ent = id
                  ∧ boxIntersects
                      (getEntityRect (modelType props) (searchTerm st) ent)
                      x1 y1 x2 y2)
  ∧ selectedEntityIds st ⊆ selectedEntityIds st'
  ∧ (x1 <= x2)%Q ∧ (y1 <= y2)%Q
  ∧ (handleMouseUp props st).2 = []
  ∧ dragState st' = None
  ∧ selectionBox st' = None.
Proof.
  intros Hds Hty Hbox x1 y1 x2 y2 st'.
  assert (Hsel : ∀ id, id ∈ selectedEntityIds st' ↔
            id ∈ selectedEntityIds st
            ∨ ∃ ent, ent ∈ entities props ∧ EntityNode.id ent = id
                     ∧ boxIntersects
                         (getEntityRect (modelType props) (searchTerm st) ent)
                         x1 y1 x2 y2).
  { intros id. subst st'. rewrite (handleMouseUp_selection props st ds box) by done.
    eapply iff_trans;
      [exact (marquee_fold
                (λ ent, isOverlapping
                          (getEntityRect (modelType props) (searchTerm st) ent)
                          x1 y1 x2 y2)
                (entities props) (selectedEntityIds st) id)|].
    split; (intros [?|(ent & ? & ? & Hov)]; [by left|]); right; exists ent;
      (split; [done|]); (split; [done|]); by apply isOverlapping_boxIntersects. }
  split; [done|]. split.
  { intros id Hid. apply Hsel. by left. }
  split; [apply Math_min_le_max|]. split; [apply Math_min_le_max|].
  subst st'. by rewrite (handleMouseUp_selection props st ds box).
Qed.

(* ================================================================== *)
(** ** Dragging and resizing *)
(* ================================================================== *)

Lemma capture_fold_notin nodes (acc : gmap string Point) k :
  k ∉ EntityNode.id <$> nodes →
  foldl (λ m n, <[EntityNode.id n := pointOf n]> m) acc nodes !! k = acc !! k.
Proof.
  revert acc. induction nodes as [|a nodes IH]; intros acc Hk; simpl; [done|].
  rewrite fmap_cons in Hk. apply not_elem_of_cons in Hk as [Hne Hk].
  rewrite IH by done. by rewrite lookup_insert_ne.
Qed.

Lemma capture_fold_in nodes (acc : gmap string Point) n :
  NoDup (EntityNode.id <$> nodes) →
  n ∈ nodes →
  foldl (λ m n, <[EntityNode.id n := pointOf n]> m) acc nodes !! EntityNode.id n
  = Some (pointOf n).
Proof.
  revert acc. induction nodes as [|a nodes IH]; intros acc Hnd Hn; simpl.
  { by apply elem_of_nil in Hn. }
  rewrite fmap_cons in Hnd. apply NoDup_cons in Hnd as [Ha Hnd].
  apply elem_of_cons in Hn as [->|Hn].
  - rewrite capture_fold_notin by done. by rewrite lookup_insert_eq.
  - by apply IH.
Qed.

Lemma capturePositions_lookup (sel : gset string) ents e :
  NoDup (EntityNode.id <$> ents) →
  e ∈ ents →
  capturePositions (filter (λ ent, EntityNode.id ent ∈ sel) ents) !! EntityNode.id e
  = if decide (EntityNode.id e ∈ sel) then Some (pointOf e) else None.
Proof.
  intros Hnd He. unfold capturePositions.
  destruct (decide (EntityNode.id e ∈ sel)) as [Hin|Hout].
  - apply capture_fold_in.
    + eapply sublist_NoDup; [exact Hnd|]. apply fmap_sublist, sublist_filter.
    + by apply list_elem_of_filter.
  - rewrite capture_fold_notin; [done|].
    intros (n & Hid & Hn)%list_elem_of_fmap.
    apply list_elem_of_filter in Hn as [Hn _]. apply Hout. by rewrite Hid.
Qed.

Lemma capturePositions_size nodes :
  NoDup (EntityNode.id <$> nodes) →
  (0 < size (capturePositions nodes))%nat ↔ nodes ≠ [].
Proof.
  intros Hnd. split.
  - intros Hsz ->. unfold capturePositions in Hsz. simpl in Hsz.
    rewrite map_size_empty in Hsz. lia.
  - intros Hne. destruct nodes as [|n nodes]; [done|].
    assert (capturePositions (n :: nodes) ≠ ∅) as Hm.
    { intros Hm.
      assert (capturePositions (n :: nodes) !! EntityNode.id n = Some (pointOf n))
        as Hl by (apply capture_fold_in; [done|apply list_elem_of_here]).
      by rewrite Hm in Hl. }
    apply map_size_non_empty_iff in Hm. lia.
Qed.

Lemma applyDragUpdates_entity (sel : gset string) ents dx dy :
  NoDup (EntityNode.id <$> ents) →
  applyDragUpdates
    (entityDragUpdate dx dy
       <$> capturePositions (filter (λ ent, EntityNode.id ent ∈ sel) ents)) ents
  = (λ e, if decide (EntityNode.id e ∈ sel) then movedBy dx dy e else e) <$> ents.
Proof.
  intros Hnd. unfold applyDragUpdates. apply list_fmap_ext. intros i e Hi.
  rewrite lookup_fmap, capturePositions_lookup;
    [|done|by eapply list_elem_of_lookup_2].
  by destruct (decide _).
Qed.

Lemma applyDragUpdates_resize id w h ents :
  applyDragUpdates {[ id := resizeUpdate w h ]} ents
  = (λ e, if decide (EntityNode.id e = id) then resizedTo w h e else e) <$> ents.
Proof.
  unfold applyDragUpdates. apply list_fmap_ext. intros i e _.
  destruct (decide (EntityNode.id e = id)) as [->|Hne].
  - by rewrite lookup_singleton_eq.
  - by rewrite lookup_singleton_ne.
Qed.

Lemma clickSelection_plain (sel : gset string) e id :
  shiftKey e || ctrlKey e || metaKey e = false → id ∈ clickSelection sel e id.
Proof.
  intros Hm. unfold clickSelection. rewrite Hm.
  destruct (decide (id ∈ sel)); [done|]. by apply elem_of_singleton.
Qed.

Lemma handleMouseUp_commit props st ds :
  dragState st = Some ds →
  DragState.type ds = drag_entity ∨ DragState.type ds = drag_resize →
  handleMouseUp props st =
    (setSelectionBox None
       (setDragState None
          (setRaf None
             (if decide (0 < size (dragUpdates st))%nat
              then setDragUpdates ∅ st else st))),
     if decide (0 < size (dragUpdates st))%nat
     then [onEntitiesChange (applyDragUpdates (dragUpdates st) (entities props))]
     else []).
Proof.
  intros Hds Hty. unfold handleMouseUp. rewrite Hds.
  destruct Hty as [-> | ->]; cbn [orb bool_decide decide_rel];
    destruct (decide (0 < size (dragUpdates st))%nat);
    by destruct (selectionBox st).
Qed.

Lemma handleMouseUp_overlay_empty props st ds :
  dragState st = Some ds →
  DragState.type ds = drag_entity ∨ DragState.type ds = drag_resize →
  dragUpdates (handleMouseUp props st).1 = ∅
  ∧ dragState (handleMouseUp props st).1 = None
  ∧ raf (handleMouseUp props st).1 = None
  ∧ selectedEntityIds (handleMouseUp props st).1 = selectedEntityIds st.
Proof.
  intros Hds Hty. rewrite (handleMouseUp_commit props st ds Hds Hty).
  destruct (decide (0 < size (dragUpdates st))%nat) as [|Hz]; cbn; [done|].
  split; [|done]. apply map_size_empty_iff. lia.
Qed.

Lemma frameCallback_entity dom f st ip :
  DragState.type (f_dragState f) = drag_entity →
  DragState.initialPositions (f_dragState f) = Some ip →
  f_readOnly f = false →
  frameCallback dom f st =
    setDragUpdates
      (entityDragUpdate
         (worldDelta (DragState.startMouseX (f_dragState f)) (clientX (f_event f))
                     (f_zoom f))
         (worldDelta (DragState.startMouseY (f_dragState f)) (clientY (f_event f))
                     (f_zoom f))
       <$> ip) st.
Proof. intros Hty Hip Hro. unfold frameCallback. by rewrite Hty, Hip, Hro. Qed.

Lemma frameCallback_resize dom f st id :
  DragState.type (f_dragState f) = drag_resize →
  DragState.entityId (f_dragState f) = Some id →
  id ≠ "" →
  f_readOnly f = false →
  frameCallback dom f st =
    setDragUpdates
      {[ id := resizeUpdate
                 (Math_max 150
                    (or0 (DragState.startW (f_dragState f))
                     + worldDelta (DragState.startMouseX (f_dragState f))
                                  (clientX (f_event f)) (f_zoom f)))
                 (Math_max 80
                    (or0 (DragState.startH (f_dragState f))
                     + worldDelta (DragState.startMouseY (f_dragState f))
                                  (clientY (f_event f)) (f_zoom f))) ]} st.
Proof.
  intros Hty Hid Hne Hro. unfold frameCallback. rewrite Hty, Hid, Hro.
  assert (truthy_str (Some id) = true) as ->; [|done].
  simpl. apply negb_true_iff. by apply String.eqb_neq.
Qed.

(** The state after a press on entity [id] that starts a drag. *)
Lemma handleEntityMouseDown_drag props st down id n :
  readOnly props = false →
  truthy_str (connectingSource st) = false →
  isPanMode st = false →
  let captured := clickSelection (selectedEntityIds st) down id in
  ∃ st1,
    handleEntityMouseDown props st down id n = ((st1, []), n)
    ∧ dragState st1 =
        Some {| DragState.type := drag_entity;
                DragState.startMouseX := clientX down;
                DragState.startMouseY := clientY down;
                DragState.initialPositions :=
                  Some (capturePositions
                          (filter (λ ent, EntityNode.id ent ∈ captured)
                                  (entities props)));
                DragState.startOffset := None;
                DragState.entityId := None;
                DragState.startW := None;
                DragState.startH := None |}
    ∧ zoom st1 = zoom st
    ∧ selectedEntityIds st1 = captured.
Proof.
  intros Hro Hconn Hpan captured. unfold handleEntityMouseDown.
  rewrite Hro, Hconn, Hpan. eexists. split; [reflexivity|].
  cbn [negb]. fold captured.
  destruct (shiftKey down || ctrlKey down || metaKey down
            || negb (bool_decide (id ∈ selectedEntityIds st))) eqn:Hc;
    (split; [done|]); (split; [done|]); [done|].
  apply orb_false_iff in Hc as [Hmulti Hin].
  apply negb_false_iff, bool_decide_eq_true in Hin.
  cbn. subst captured. unfold clickSelection. rewrite Hmulti.
  by destruct (decide (id ∈ selectedEntityIds st)).
Qed.

(** The whole drag, on a canvas that accepts edits, with no connection
    pending and the select tool active. *)
Lemma entityDrag_eq dom props st down id move n :
  readOnly props = false →
  truthy_str (connectingSource st) = false →
  isPanMode st = false →
  NoDup (EntityNode.id <$> entities props) →
  let captured := clickSelection (selectedEntityIds st) down id in
  let dx := worldDelta (clientX down) (clientX move) (zoom st) in
  let dy := worldDelta (clientY down) (clientY move) (zoom st) in
  ∃ st',
    entityDrag dom props st down id move n =
      ((st',
        match filter (λ ent, EntityNode.id ent ∈ captured) (entities props) with
        | [] => []
        | _ :: _ =>
          [onEntitiesChange
             ((λ e, if decide (EntityNode.id e ∈ captured)
                    then movedBy dx dy e else e) <$> entities props)]
        end), n)
    ∧ dragUpdates st' = ∅
    ∧ dragState st' = None
    ∧ raf st' = None
    ∧ selectedEntityIds st' = captured.
Proof.
  intros Hro Hconn Hpan Hnd captured dx dy.
  destruct (handleEntityMouseDown_drag props st down id n Hro Hconn Hpan)
    as (st1 & Hdown & Hds1 & Hz1 & Hsel1).
  fold captured in Hds1, Hsel1.
  set (nodes := filter (λ ent, EntityNode.id ent ∈ captured) (entities props)) in *.
  assert (Hnodes : NoDup (EntityNode.id <$> nodes)).
  { eapply sublist_NoDup; [exact Hnd|]. apply fmap_sublist, sublist_filter. }
  pose proof (capturePositions_size nodes Hnodes) as Hsize.
  pose proof (applyDragUpdates_entity captured (entities props) dx dy Hnd) as Happly.
  fold nodes in Happly.
  unfold entityDrag, mbind, Gen_bind. rewrite Hdown.
  unfold handleMouseMove. rewrite Hds1, Hro, Hz1.
  unfold animationFrame. cbn [raf setRaf].
  erewrite frameCallback_entity; [|done..].
  cbn [f_dragState f_event f_zoom DragState.startMouseX DragState.startMouseY].
  fold dx dy.
  match goal with
  | |- context [handleMouseUp props ?s] => set (st3 := s)
  end.
  assert (Hds3 : dragState st3 = dragState st1) by done.
  assert (Hup3 : dragUpdates st3 = entityDragUpdate dx dy <$> capturePositions nodes)
    by done.
  assert (Hsel3 : selectedEntityIds st3 = captured) by (by rewrite <- Hsel1).
  rewrite Hds1 in Hds3.
  destruct (handleMouseUp_overlay_empty props st3 _ Hds3 (or_introl eq_refl))
    as (Hov & Hdsf & Hraf & Hself).
  pose proof (handleMouseUp_commit props st3 _ Hds3 (or_introl eq_refl)) as Hup.
  rewrite Hup3, map_size_fmap, Happly in Hup.
  assert (Hout : (handleMouseUp props st3).2 =
                 match nodes with
                 | [] => []
                 | _ :: _ =>
                   [onEntitiesChange
                      ((λ e, if decide (EntityNode.id e ∈ captured)
                             then movedBy dx dy e else e) <$> entities props)]
                 end).
  { rewrite Hup. cbn [snd].
    destruct (decide (0 < size (capturePositions nodes))%nat) as [Hpos|Hzero].
    - apply Hsize in Hpos. by destruct nodes.
    - destruct nodes as [|n0 nodes']; [done|]. exfalso. by apply Hzero, Hsize. }
  clear Hup. destruct (handleMouseUp props st3) as [st4 out4].
  cbn [fst snd] in *. subst out4. exists st4.
  split; [done|]. split; [done|]. split; [done|]. split; [done|].
  by rewrite Hself.
Qed.

Lemma fmap_unselected_id (captured : gset string) (f : EntityNode.t → EntityNode.t) ents :
  filter (λ ent, EntityNode.id ent ∈ captured) ents = [] →
  (λ e, if decide (EntityNode.id e ∈ captured) then f e else e) <$> ents = ents.
Proof.
  intros Hnone. rewrite <- (list_fmap_id ents) at 2.
  apply list_fmap_ext. intros i e Hi.
  destruct (decide (EntityNode.id e ∈ captured)) as [Hin|]; [|done].
  exfalso. apply (filter_nil_not_elem_of _ _ e Hnone Hin).
  by eapply list_elem_of_lookup_2.
Qed.

(** C5.  A drag of entities on the canvas as the application mounts it: a
    press on an entity (select tool, no connection pending), a pointer move
    whose frame has run, the release.  With [(dx, dy)] the world delta of
    the move, that is the pointer's displacement on screen since the press
    divided by the zoom, the entity collection the host holds after the
    release has
    every captured entity at its committed position plus [(dx, dy)] and every
    other entity unchanged; the relationships are unchanged.  A press without
    modifier key captures the pressed entity.  After the release the overlay
    [dragUpdates] is empty and no drag is active.  Concretely, a captured
    entity at (100, 100) dragged by (50, -20) is committed at (150, 80). *)
Theorem entity_drag_commits dom m st down id move n :
  truthy_str (connectingSource st) = false →
  isPanMode st = false →
  NoDup (EntityNode.id <$> m_entities m) →
  let captured := clickSelection (selectedEntityIds st) down id in
  let dx := ((clientX move - clientX down) / zoom st)%Q in
  let dy := ((clientY move - clientY down) / zoom st)%Q in
  let result := (entityDrag dom (canvasProps m) st down id move n).1 in
  let m' := commitAll m result.2 in
  m_entities m' =
    ((λ e, if decide (EntityNode.id e ∈ captured) then movedBy dx dy e else e)
       <$> m_entities m)
  ∧ (∀ e, EntityNode.x (movedBy dx dy e) = (EntityNode.x e + dx)%Q
          ∧ EntityNode.y (movedBy dx dy e) = (EntityNode.y e + dy)%Q
          ∧ EntityNode.id (movedBy dx dy e) = EntityNode.id e)
  ∧ (∀ e, e ∈ m_entities m → EntityNode.id e ∈ captured →
          movedBy dx dy e ∈ m_entities m')
  ∧ m_relationships m' = m_relationships m
  ∧ (shiftKey down || ctrlKey down || metaKey down = false → id ∈ captured)
  ∧ dragUpdates result.1 = ∅
  ∧ dragState result.1 = None
  ∧ (∀ e, e ∈ m_entities m → EntityNode.id e ∈ captured →
          (EntityNode.x e == 100)%Q → (EntityNode.y e == 100)%Q →
          (dx == 50)%Q → (dy == -20)%Q →
          ∃ e', e' ∈ m_entities m' ∧ EntityNode.id e' = EntityNode.id e
                ∧ (EntityNode.x e' == 150)%Q ∧ (EntityNode.y e' == 80)%Q).
Proof.
  intros Hconn Hpan Hnd captured dx dy result m'.
  destruct (entityDrag_eq dom (canvasProps m) st down id move n
              eq_refl Hconn Hpan Hnd) as (st' & Heq & Hov & Hds & _ & _).
  fold captured in Heq.
  change (worldDelta (clientX down) (clientX move) (zoom st)) with dx in Heq.
  change (worldDelta (clientY down) (clientY move) (zoom st)) with dy in Heq.
  cbn [entities canvasProps] in Heq.
  assert (Hents : m_entities m' =
    ((λ e, if decide (EntityNode.id e ∈ captured) then movedBy dx dy e else e)
       <$> m_entities m)).
  { subst m' result. rewrite Heq. cbn [fst snd].
    destruct (filter _ (m_entities m)) eqn:Hf; [|done].
    cbn. by rewrite fmap_unselected_id. }
  assert (Hrels : m_relationships m' = m_relationships m).
  { subst m' result. rewrite Heq. cbn [fst snd].
    by destruct (filter _ (m_entities m)). }
  assert (Hmoved : ∀ e, e ∈ m_entities m → EntityNode.id e ∈ captured →
                        movedBy dx dy e ∈ m_entities m').
  { intros e He Hin. rewrite Hents. apply list_elem_of_fmap. exists e.
    split; [|done]. by destruct (decide _). }
  split; [done|]. split; [done|]. split; [done|]. split; [done|].
  split; [apply clickSelection_plain|].
  split; [by subst result; rewrite Heq|].
  split; [by subst result; rewrite Heq|].
  intros e He Hin Hx Hy Hdx Hdy. exists (movedBy dx dy e).
  split; [by apply Hmoved|]. split; [done|]. cbn.
  rewrite Hx, Hy, Hdx, Hdy. done.
Qed.

(* ------------------------------------------------------------------ *)

Lemma find_by_id_Some id ents entity :
  List.find (λ en, bool_decide (EntityNode.id en = id)) ents = Some entity →
  entity ∈ ents ∧ EntityNode.id entity = id.
Proof.
  intros Hf. apply List.find_some in Hf as [Hin Hid].
  split; [by apply list_elem_of_In|]. by apply bool_decide_eq_true in Hid.
Qed.

Lemma resizeDrag_eq dom props st down id move entity :
  readOnly props = false →
  isPanMode st = false →
  id ≠ "" →
  List.find (λ en, bool_decide (EntityNode.id en = id)) (entities props)
    = Some entity →
  let rect := getEntityRect (modelType props) (searchTerm st) entity in
  let newW := Math_max 150 (or0 (Some (rw rect))
                            + worldDelta (clientX down) (clientX move) (zoom st)) in
  let newH := Math_max 80 (or0 (Some (rh rect))
                           + worldDelta (clientY down) (clientY move) (zoom st)) in
  (resizeDrag dom props st down id move).2 =
    [onEntitiesChange
       ((λ e, if decide (EntityNode.id e = id) then resizedTo newW newH e else e)
          <$> entities props)]
  ∧ dragUpdates (resizeDrag dom props st down id move).1 = ∅
  ∧ dragState (resizeDrag dom props st down id move).1 = None.
Proof.
  intros Hro Hpan Hne Hfind rect newW newH.
  unfold resizeDrag, handleResizeMouseDown. rewrite Hpan, Hfind.
  fold rect. unfold handleMouseMove. cbn [dragState setDragState].
  unfold animationFrame. cbn [raf setRaf].
  erewrite frameCallback_resize; [|done..].
  cbn [f_dragState f_event f_zoom DragState.startMouseX DragState.startMouseY
       DragState.startW DragState.startH zoom setDragState].
  fold newW newH.
  match goal with
  | |- context [handleMouseUp props ?s] => set (st3 := s)
  end.
  assert (Hup3 : dragUpdates st3 = {[ id := resizeUpdate newW newH ]}) by done.
  assert (∃ ds, dragState st3 = Some ds ∧ DragState.type ds = drag_resize)
    as (ds & Hds3 & Hty) by (eexists; split; [reflexivity|done]).
  destruct (handleMouseUp_overlay_empty props st3 ds Hds3 (or_intror Hty))
    as (Hov & Hdsf & _ & _).
  split; [|done].
  rewrite (handleMouseUp_commit props st3 ds Hds3 (or_intror Hty)). cbn [snd].
  rewrite Hup3, map_size_singleton.
  destruct (decide (0 < 1)%nat); [|lia].
  by rewrite applyDragUpdates_resize.
Qed.

(** C7.  A resize on the canvas as the application mounts it: a press on
    the handle of an entity (select tool), a pointer move whose frame has
    run, the release.  With [(w0, h0)] the size of the entity's box at the
    press and [(dx, dy)] the world delta of the move, that is the pointer's
    displacement on screen since the press divided by the zoom, the release
    commits
    width max(150, w0 + dx) and height max(80, h0 + dy) for that entity and
    leaves the other entities unchanged.  So the committed width is never
    below 150 and the committed height never below 80, and a requested width
    of 80 commits 150.  After the release the overlay is empty. *)
Theorem resize_commits_clamped dom m st down id move entity :
  isPanMode st = false →
  id ≠ "" →
  List.find (λ en, bool_decide (EntityNode.id en = id)) (m_entities m)
    = Some entity →
  let rect := getEntityRect (m_type m) (searchTerm st) entity in
  let dx := ((clientX move - clientX down) / zoom st)%Q in
  let dy := ((clientY move - clientY down) / zoom st)%Q in
  let result := resizeDrag dom (canvasProps m) st down id move in
  ∃ newW newH,
    result.2 =
      [onEntitiesChange
         ((λ e, if decide (EntityNode.id e = id) then resizedTo newW newH e else e)
            <$> m_entities m)]
    ∧ (newW == Qmax 150 (rw rect + dx))%Q
    ∧ (newH == Qmax 80 (rh rect + dy))%Q
    ∧ (150 <= newW)%Q
    ∧ (80 <= newH)%Q
    ∧ ((rw rect + dx == 80)%Q → (newW == 150)%Q)
    ∧ resizedTo newW newH entity ∈ m_entities (commitAll m result.2)
    ∧ EntityNode.width (resizedTo newW newH entity) = Some newW
    ∧ EntityNode.height (resizedTo newW newH entity) = Some newH
    ∧ dragUpdates result.1 = ∅
    ∧ dragState result.1 = None.
Proof.
  intros Hpan Hne Hfind rect dx dy result.
  destruct (resizeDrag_eq dom (canvasProps m) st down id move entity
              eq_refl Hpan Hne Hfind) as (Hout & Hov & Hds).
  cbn [entities modelType canvasProps] in Hout. fold rect in Hout.
  change (worldDelta (clientX down) (clientX move) (zoom st)) with dx in Hout.
  change (worldDelta (clientY down) (clientY move) (zoom st)) with dy in Hout.
  destruct (find_by_id_Some _ _ _ Hfind) as [Hin Hid].
  eexists _, _. split; [exact Hout|].
  assert (HW : (Math_max 150 (or0 (Some (rw rect)) + dx)
                == Qmax 150 (rw rect + dx))%Q).
  { unfold Math_max. apply Q.max_compat; [done|]. by rewrite or0_Some. }
  assert (HH : (Math_max 80 (or0 (Some (rh rect)) + dy)
                == Qmax 80 (rh rect + dy))%Q).
  { unfold Math_max. apply Q.max_compat; [done|]. by rewrite or0_Some. }
  split; [done|]. split; [done|].
  split; [apply Math_max_lb_l|]. split; [apply Math_max_lb_l|].
  split.
  { intros H80. rewrite HW, H80. done. }
  split.
  { subst result. rewrite Hout. cbn. apply list_elem_of_fmap. exists entity.
    split; [|done]. by rewrite decide_True. }
  done.
Qed.

(* ================================================================== *)
(** ** Paste *)
(* ================================================================== *)

Lemma mapM_Gen_cons {A B} (f : A → Gen B) x l n :
  mapM f (x :: l) n =
    let '(y, n1) := f x n in let '(k, n2) := mapM f l n1 in (y :: k, n2).
Proof. reflexivity. Qed.

Lemma cloneAttribute_eq a n :
  cloneAttribute a n = (Attribute.with_id (random_id n) a, S n).
Proof. reflexivity. Qed.

Lemma cloneEntity_eq item n :
  cloneEntity item n =
    let '(attrs, n') := mapM cloneAttribute (EntityNode.attributes item) (S n) in
    ({| EntityNode.id := random_id n;
        EntityNode.name := EntityNode.name item +:+ "_copy";
        EntityNode.chineseName := EntityNode.chineseName item;
        EntityNode.x := (EntityNode.x item + 20)%Q;
        EntityNode.y := (EntityNode.y item + 20)%Q;
        EntityNode.width := EntityNode.width item;
        EntityNode.height := EntityNode.height item;
        EntityNode.attributes := attrs;
        EntityNode.collapsed := EntityNode.collapsed item;
        EntityNode.color := EntityNode.color item |}, n').
Proof. reflexivity. Qed.

Lemma cloneAttributes_spec attrs n :
  ∃ attrs',
    mapM cloneAttribute attrs n = (attrs', (n + length attrs)%nat)
    ∧ Forall2 (λ a c, c = Attribute.with_id (Attribute.id c) a) attrs attrs'
    ∧ Attribute.id <$> attrs' = random_id <$> seq n (length attrs).
Proof.
  revert n. induction attrs as [|a attrs IH]; intros n.
  - exists []. rewrite Nat.add_0_r. by repeat split.
  - destruct (IH (S n)) as (attrs' & Heq & Hall & Hids).
    exists (Attribute.with_id (random_id n) a :: attrs').
    rewrite mapM_Gen_cons, cloneAttribute_eq, Heq. split; [f_equal; simpl; lia|]. split.
    + by constructor.
    + cbn [length seq]. by rewrite !fmap_cons, Hids.
Qed.

Lemma cloneEntity_spec item n :
  ∃ c,
    cloneEntity item n = (c, (S n + length (EntityNode.attributes item))%nat)
    ∧ cloneOf item c
    ∧ idsOf c = random_id <$> seq n (S (length (EntityNode.attributes item))).
Proof.
  destruct (cloneAttributes_spec (EntityNode.attributes item) (S n))
    as (attrs' & Heq & Hall & Hids).
  eexists. rewrite cloneEntity_eq, Heq.
  split; [reflexivity|]. split.
  - by repeat split.
  - unfold idsOf. cbn [EntityNode.id EntityNode.attributes seq].
    by rewrite fmap_cons, Hids.
Qed.

Lemma cloneAll_spec clip n :
  ∃ clones n',
    mapM cloneEntity clip n = (clones, n')
    ∧ (n ≤ n')%nat
    ∧ Forall2 cloneOf clip clones
    ∧ concat (idsOf <$> clones) = random_id <$> seq n (n' - n).
Proof.
  revert n. induction clip as [|item clip IH]; intros n.
  - exists [], n. rewrite Nat.sub_diag. by repeat split.
  - destruct (cloneEntity_spec item n) as (c & Hc & Hof & Hids).
    set (n1 := (S n + length (EntityNode.attributes item))%nat) in *.
    destruct (IH n1) as (clones & n' & Heq & Hle & Hall & Hcat).
    exists (c :: clones), n'. rewrite mapM_Gen_cons, Hc, Heq.
    split; [done|]. split; [lia|]. split; [by constructor|].
    rewrite fmap_cons, concat_cons, Hids, Hcat, <- fmap_app.
    f_equal.
    replace (n' - n)%nat
      with (S (length (EntityNode.attributes item)) + (n' - n1))%nat by lia.
    rewrite seq_app. do 2 f_equal. lia.
Qed.



Lemma paste_eq props st acc e clip n :
  k_ctrlKey e || k_metaKey e = true →
  key e = "v" →
  clipboard st = Some clip →
  clip ≠ [] →
  paste props st acc e n =
    let '(newEntities, n') := mapM cloneEntity clip n in
    ((setSelectedEntityIds (list_to_set (EntityNode.id <$> newEntities))
        (setSelectedEntityIds ∅ acc),
      [onEntitiesChange (entities props ++ newEntities)]), n').
Proof.
  intros Hmod Hkey Hclip Hne. unfold paste. rewrite Hclip, Hmod, Hkey.
  destruct clip as [|item clip]; [done|]. reflexivity.
Qed.

Lemma handleKeyDown_paste dom props st e clip n :
  readOnly props = false →
  k_ctrlKey e || k_metaKey e = true →
  key e = "v" →
  clipboard st = Some clip →
  clip ≠ [] →
  ∃ acc,
    handleKeyDown dom props st e n =
      let '(newEntities, n') := mapM cloneEntity clip n in
      ((setSelectedEntityIds (list_to_set (EntityNode.id <$> newEntities)) acc,
        [onEntitiesChange (entities props ++ newEntities)]), n').
Proof.
  intros Hro Hmod Hkey Hclip Hne. unfold handleKeyDown.
  rewrite Hro, Hmod, Hkey.
  assert (negb (k_ctrlKey e) && negb (k_metaKey e) = false) as Hnm.
  { destruct (k_ctrlKey e), (k_metaKey e); done. }
  cbn [String.eqb Ascii.eqb Bool.eqb andb orb].
  rewrite Hnm. cbn [andb].
  eexists. unfold mbind, Gen_bind.
  rewrite (paste_eq props st _ e clip n) by done.
  destruct (mapM cloneEntity clip n) as [newEntities n'].
  reflexivity.
Qed.


(* ================================================================== *)
(** ** Ports and routing *)
(* ================================================================== *)

Lemma js_lt_true a b : js_lt a b = true ↔ (a < b)%Q.
Proof.
  unfold js_lt. rewrite negb_true_iff. split.
  - intros H. apply Qnot_le_lt. intros Hle. apply Qle_bool_iff in Hle. congruence.
  - intros H. destruct (Qle_bool b a) eqn:E; [|done].
    apply Qle_bool_iff in E. lra.
Qed.

Lemma tryPorts_searched sp tp cands acc :
  searched cands acc → searched (cands ++ [(sp, tp)]) (tryPorts sp acc tp).
Proof.
  destruct acc as [[d|] conn]; unfold searched, tryPorts; cbn [fst snd belowMin].
  - intros (Hd & Hin & Hmin).
    destruct (js_lt _ d) eqn:Hlt; cbn [fst snd c_start c_end].
    + apply js_lt_true in Hlt. split; [done|]. split.
      * apply elem_of_app. right. apply list_elem_of_singleton. done.
      * intros c [Hc|Hc%list_elem_of_singleton]%elem_of_app.
        -- intros Hcd. apply (Hmin c Hc). unfold hypotOf in *. cbn [fst snd] in *. lra.
        -- subst c. unfold hypotOf. cbn [fst snd]. lra.
    + split; [done|]. split; [apply elem_of_app; by left|].
      intros c [Hc|Hc%list_elem_of_singleton]%elem_of_app; [by apply Hmin|].
      subst c. intros Hlt'. apply js_lt_true in Hlt'. unfold hypotOf in Hlt'.
      cbn [fst snd] in Hlt'. congruence.
  - intros ->. cbn [fst snd c_start c_end]. split; [done|]. split.
    + apply list_elem_of_singleton. done.
    + intros c Hc%list_elem_of_singleton. subst c. unfold hypotOf. cbn [fst snd]. lra.
Qed.

Lemma inner_searched sp ts cands acc :
  searched cands acc →
  searched (cands ++ (pair sp <$> ts)) (foldl (tryPorts sp) acc ts).
Proof.
  revert cands acc. induction ts as [|tp ts IH]; intros cands acc Hacc.
  - cbn [foldl]. by rewrite fmap_nil, app_nil_r.
  - cbn [foldl]. rewrite fmap_cons, cons_middle, (assoc_L (++)).
    apply IH. by apply tryPorts_searched.
Qed.

Lemma outer_searched ss ts cands acc :
  searched cands acc →
  searched (cands ++ (ss ≫= λ sp, pair sp <$> ts))
           (foldl (λ acc sp, foldl (tryPorts sp) acc ts) acc ss).
Proof.
  revert cands acc. induction ss as [|sp ss IH]; intros cands acc Hacc.
  - cbn [foldl]. change ([] ≫= (λ sp : Port, pair sp <$> ts)) with (@nil (Port * Port)).
    by rewrite app_nil_r.
  - cbn [foldl]. rewrite bind_cons, (assoc_L (++)).
    apply IH. by apply inner_searched.
Qed.

Lemma bestOfPorts_searched sPorts tPorts :
  searched (portValues sPorts ≫= λ sp, pair sp <$> portValues tPorts)
           (bestOfPorts sPorts tPorts).
Proof.
  unfold bestOfPorts.
  apply (outer_searched (portValues sPorts) (portValues tPorts) []). done.
Qed.

Lemma portPairs_elem_of sPorts tPorts sp tp :
  (sp, tp) ∈ (portValues sPorts ≫= λ sp, pair sp <$> portValues tPorts)
  ↔ sp ∈ portValues sPorts ∧ tp ∈ portValues tPorts.
Proof.
  rewrite list_elem_of_bind. split.
  - intros (sp' & Hin & Hsp). apply list_elem_of_fmap in Hin as (tp' & Heq & Htp).
    by simplify_eq.
  - intros [Hsp Htp]. exists sp. split; [|done]. apply list_elem_of_fmap. by exists tp.
Qed.

(** The connection chosen: its ends are ports, and no pair of ports has a
    smaller [Math.hypot]. *)
Lemma bestOfPorts_spec sPorts tPorts :
  let best := (bestOfPorts sPorts tPorts).2 in
  c_start best ∈ portValues sPorts
  ∧ c_end best ∈ portValues tPorts
  ∧ ∀ sp tp, sp ∈ portValues sPorts → tp ∈ portValues tPorts →
      ¬ (hypotOf (sp, tp) < hypotOf (c_start best, c_end best))%Q.
Proof.
  pose proof (bestOfPorts_searched sPorts tPorts) as H.
  unfold searched in H. destruct (bestOfPorts sPorts tPorts) as [[d|] best].
  - cbn [fst snd] in *. destruct H as (Hd & Hin & Hmin).
    apply portPairs_elem_of in Hin as [Hs Ht].
    split; [done|]. split; [done|]. intros sp tp Hsp Htp. rewrite <- Hd.
    apply Hmin. by apply portPairs_elem_of.
  - cbn [fst] in H. discriminate H.
Qed.

Lemma sqDist_sym sp tp : (sqDist sp tp == sqDist tp sp)%Q.
Proof. unfold sqDist. ring. Qed.

Lemma bestOfPorts_minimal sPorts tPorts :
  hypotOrder →
  let best := (bestOfPorts sPorts tPorts).2 in
  ∀ sp tp, sp ∈ portValues sPorts → tp ∈ portValues tPorts →
    (sqDist (c_start best) (c_end best) <= sqDist sp tp)%Q.
Proof.
  intros Hh best sp tp Hsp Htp.
  destruct (bestOfPorts_spec sPorts tPorts) as (_ & _ & Hmin).
  specialize (Hmin sp tp Hsp Htp). fold best in Hmin.
  apply Qnot_lt_le. intros Hlt. apply Hmin. unfold hypotOf. cbn [fst snd].
  apply Hh. exact Hlt.
Qed.

(** X1.  [getBestConnection] returns a port of the source's box and a port
    of the target's box, and no other of the 16 pairs of ports is closer:
    the squared distance of the pair returned is the least. *)
Theorem getBestConnection_closest mt search source target :
  hypotOrder →
  let sPorts := getPorts (getEntityRect mt search source) in
  let tPorts := getPorts (getEntityRect mt search target) in
  let best := getBestConnection mt search source target in
  c_start best ∈ portValues sPorts
  ∧ c_end best ∈ portValues tPorts
  ∧ ∀ sp tp, sp ∈ portValues sPorts → tp ∈ portValues tPorts →
      (sqDist (c_start best) (c_end best) <= sqDist sp tp)%Q.
Proof.
  intros Hh sPorts tPorts best.
  destruct (bestOfPorts_spec sPorts tPorts) as (Hs & Ht & _).
  split; [exact Hs|]. split; [exact Ht|].
  by apply bestOfPorts_minimal.
Qed.

(** X2.  The cost of the best connection is symmetric: the distance found
    from A to B is the distance found from B to A. *)
Theorem getBestConnection_symmetric_cost mt search a b :
  hypotOrder →
  let ab := getBestConnection mt search a b in
  let ba := getBestConnection mt search b a in
  (sqDist (c_start ab) (c_end ab) == sqDist (c_start ba) (c_end ba))%Q.
Proof.
  intros Hh ab ba.
  set (aPorts := getPorts (getEntityRect mt search a)).
  set (bPorts := getPorts (getEntityRect mt search b)).
  destruct (bestOfPorts_spec aPorts bPorts) as (Hab1 & Hab2 & _).
  destruct (bestOfPorts_spec bPorts aPorts) as (Hba1 & Hba2 & _).
  assert (H1 : (sqDist (c_start ab) (c_end ab)
                <= sqDist (c_end ba) (c_start ba))%Q)
    by exact (bestOfPorts_minimal aPorts bPorts Hh _ _ Hba2 Hba1).
  assert (H2 : (sqDist (c_start ba) (c_end ba)
                <= sqDist (c_end ab) (c_start ab))%Q)
    by exact (bestOfPorts_minimal bPorts aPorts Hh _ _ Hab2 Hab1).
  pose proof (sqDist_sym (c_start ab) (c_end ab)) as E1.
  pose proof (sqDist_sym (c_start ba) (c_end ba)) as E2.
  apply Qle_antisym; lra.
Qed.

(** X3.  Whatever the line style, the path of a relationship starts with a
    move to the start port of the best connection and ends at its end port;
    these are a port of the source's box and a port of the target's box. *)
Theorem getPathData_endpoints mt search rel source target :
  let best := getBestConnection mt search source target in
  let pd := getPathData mt search rel source target in
  head (path pd) = Some (MoveTo (port_x (c_start best)) (port_y (c_start best)))
  ∧ (2 ≤ length (path pd))%nat
  ∧ last (cmdPoint <$> path pd) = Some (portPoint (c_end best))
  ∧ c_start best ∈ portValues (getPorts (getEntityRect mt search source))
  ∧ c_end best ∈ portValues (getPorts (getEntityRect mt search target)).
Proof.
  intros best pd.
  destruct (bestOfPorts_spec (getPorts (getEntityRect mt search source))
              (getPorts (getEntityRect mt search target))) as (Hs & Ht & _).
  assert (Hpath : head (path pd)
                  = Some (MoveTo (port_x (c_start best)) (port_y (c_start best)))
                  ∧ (2 ≤ length (path pd))%nat
                  ∧ last (cmdPoint <$> path pd) = Some (portPoint (c_end best))).
  { subst pd. unfold getPathData. fold best.
    destruct (Relationship.lineStyle rel); cbn [path];
      repeat (match goal with |- context [if ?b then _ else _] => destruct b end);
      cbn; (split; [done|]); (split; [lia|done]). }
  destruct Hpath as (? & ? & ?). done.
Qed.

Lemma between_midpoint u w : between u ((u + w) / 2) w.
Proof.
  unfold between. destruct (Qlt_le_dec w u) as [Hlt|Hle].
  - right. split; apply Qle_shift_div_l || apply Qle_shift_div_r; lra.
  - left. split; apply Qle_shift_div_l || apply Qle_shift_div_r; lra.
Qed.

Lemma between_refl_l u w : between u u w.
Proof.
  unfold between. destruct (Qlt_le_dec w u); [right|left]; lra.
Qed.

Lemma between_refl_r u w : between u w w.
Proof.
  unfold between. destruct (Qlt_le_dec w u); [right|left]; lra.
Qed.

(** X4.  The step style routes at right angles: after the first move every
    command is a line, consecutive points of the path differ in one
    coordinate only, and the label lies on one of the segments of the
    path. *)
Theorem getPathData_step_orthogonal mt search rel source target :
  Relationship.lineStyle rel = step →
  let pd := getPathData mt search rel source target in
  let pts := cmdPoint <$> path pd in
  Forall isLineTo (tail (path pd))
  ∧ orthogonalChain pts
  ∧ ∃ a b rest1 rest2, pts = rest1 ++ a :: b :: rest2
                       ∧ onAxisSegment (label pd) a b.
Proof.
  intros Hstep pd pts. subst pts pd. unfold getPathData. rewrite Hstep.
  set (best := getBestConnection mt search source target).
  set (sx := port_x (c_start best)). set (sy := port_y (c_start best)).
  set (ex := port_x (c_end best)). set (ey := port_y (c_end best)).
  destruct (isHorizontalSide (port_side (c_start best))
            && isHorizontalSide (port_side (c_end best))); [|
  destruct (isVerticalSide (port_side (c_start best))
            && isVerticalSide (port_side (c_end best))); [|
  destruct (isHorizontalSide (port_side (c_start best)))]];
    cbn [path label fmap list_fmap cmdPoint tail orthogonalChain px py].
  - split; [repeat constructor|]. split; [by auto|].
    exists (mkPoint ((sx + ex) / 2) sy), (mkPoint ((sx + ex) / 2) ey),
           [mkPoint sx sy], [mkPoint ex ey].
    split; [done|]. left. cbn. split; [done|]. split; [reflexivity|].
    apply between_midpoint.
  - split; [repeat constructor|]. split; [by auto|].
    exists (mkPoint sx ((sy + ey) / 2)), (mkPoint ex ((sy + ey) / 2)),
           [mkPoint sx sy], [mkPoint ex ey].
    split; [done|]. right. cbn. split; [done|]. split; [reflexivity|].
    apply between_midpoint.
  - split; [repeat constructor|]. split; [by auto|].
    exists (mkPoint sx sy), (mkPoint ex sy), [], [mkPoint ex ey].
    split; [done|]. right. cbn. split; [done|]. split; [reflexivity|].
    apply between_refl_r.
  - split; [repeat constructor|]. split; [by auto|].
    exists (mkPoint sx sy), (mkPoint sx ey), [], [mkPoint ex ey].
    split; [done|]. left. cbn. split; [done|]. split; [reflexivity|].
    apply between_refl_r.
Qed.

(* ================================================================== *)
(** ** Boxes *)
(* ================================================================== *)

Lemma getEntityRect_origin mt search node :
  rx (getEntityRect mt search node) = EntityNode.x node
  ∧ ry (getEntityRect mt search node) = EntityNode.y node.
Proof.
  unfold getEntityRect.
  destruct (truthy _ && truthy _); [done|].
  destruct (decide (mt = CONCEPTUAL)); [done|].
  repeat (match goal with |- context [if ?b then _ else _] => destruct b end); done.
Qed.

Lemma inject_nat_nonneg n : (0 <= inject_Z (Z.of_nat n))%Q.
Proof. change 0%Q with (inject_Z 0). rewrite <- Zle_Qle. lia. Qed.

Lemma getEntityRect_computed_size mt search node :
  truthy (EntityNode.width node) && truthy (EntityNode.height node) = false →
  (160 <= rw (getEntityRect mt search node))%Q
  ∧ (48 <= rh (getEntityRect mt search node))%Q.
Proof.
  intros Hsz. unfold getEntityRect. rewrite Hsz.
  destruct (decide (mt = CONCEPTUAL)); [cbn; lra|].
  pose proof (inject_nat_nonneg (length (EntityNode.attributes node))) as Hn.
  repeat (match goal with |- context [if ?b then _ else _] => destruct b end);
    cbn [rw rh]; split; try lra;
    change (inject_Z (Z.of_nat 5)) with 5%Q; lra.
Qed.

(** X5.  The box of an entity without an explicit size is never degenerate:
    it is at least 160 wide and 48 high, whatever the kind of model, the
    number of attributes, the collapsed flag and the search term; its
    origin is the position of the entity. *)
Theorem getEntityRect_never_degenerate mt search node :
  truthy (EntityNode.width node) && truthy (EntityNode.height node) = false →
  (160 <= rw (getEntityRect mt search node))%Q
  ∧ (48 <= rh (getEntityRect mt search node))%Q
  ∧ rx (getEntityRect mt search node) = EntityNode.x node
  ∧ ry (getEntityRect mt search node) = EntityNode.y node.
Proof.
  intros Hsz. destruct (getEntityRect_computed_size mt search node Hsz).
  destruct (getEntityRect_origin mt search node). done.
Qed.

(** X6.  Collapsing never makes a box taller and never moves or widens it:
    for every entity, kind of model and search term, the box of the
    collapsed entity has the origin and the width of the box of the
    expanded one, and at most its height. *)
Theorem collapse_never_grows_box mt search node :
  let collapsed := getEntityRect mt search (withCollapsed true node) in
  let expanded := getEntityRect mt search (withCollapsed false node) in
  rx collapsed = rx expanded
  ∧ ry collapsed = ry expanded
  ∧ rw collapsed = rw expanded
  ∧ (rh collapsed <= rh expanded)%Q.
Proof.
  intros collapsed expanded. subst collapsed expanded. unfold getEntityRect.
  cbn [withCollapsed EntityNode.width EntityNode.height EntityNode.x EntityNode.y
       EntityNode.attributes EntityNode.collapsed].
  destruct (truthy _ && truthy _); [cbn; repeat split; lra|].
  destruct (decide (mt = CONCEPTUAL)); [cbn; repeat split; lra|].
  destruct (0 <? String.length search)%nat; cbn [negb andb rx ry rw rh];
    [repeat split; lra|].
  destruct (5 <? length (EntityNode.attributes node))%nat eqn:Hn;
    cbn [rx ry rw rh]; (split; [done|]); (split; [done|]); (split; [done|]);
    [|lra].
  apply Nat.ltb_lt in Hn.
  assert (5 <= inject_Z (Z.of_nat (length (EntityNode.attributes node))))%Q.
  { change 5%Q with (inject_Z 5). rewrite <- Zle_Qle. lia. }
  change (inject_Z (Z.of_nat 5)) with 5%Q. lra.
Qed.

(* ================================================================== *)
(** ** Marquee, exactly *)
(* ================================================================== *)

Lemma getEntityRect_nonneg mt search node :
  (∀ w, EntityNode.width node = Some w → (0 <= w)%Q) →
  (∀ h, EntityNode.height node = Some h → (0 <= h)%Q) →
  (0 <= rw (getEntityRect mt search node))%Q
  ∧ (0 <= rh (getEntityRect mt search node))%Q.
Proof.
  intros Hw Hh.
  destruct (truthy (EntityNode.width node) && truthy (EntityNode.height node))
    eqn:Hsz.
  - unfold getEntityRect. rewrite Hsz. cbn [rw rh].
    destruct (EntityNode.width node) as [w|], (EntityNode.height node) as [h|];
      cbn [truthy] in Hsz; rewrite ?andb_false_r in Hsz; try discriminate Hsz.
    cbn. split; [by apply Hw|by apply Hh].
  - destruct (getEntityRect_computed_size mt search node Hsz). split; lra.
Qed.

Lemma marqueeSelection_elem_of props st box id :
  id ∈ marqueeSelection props st box ↔
  id ∈ selectedEntityIds st
  ∨ ∃ ent, ent ∈ entities props ∧ EntityNode.id ent = id
           ∧ boxIntersects (getEntityRect (modelType props) (searchTerm st) ent)
               (Math_min (startX box) (currentX box))
               (Math_min (startY box) (currentY box))
               (Math_max (startX box) (currentX box))
               (Math_max (startY box) (currentY box)).
Proof.
  eapply iff_trans;
    [exact (marquee_fold
              (λ ent, isOverlapping
                        (getEntityRect (modelType props) (searchTerm st) ent)
                        (Math_min (startX box) (currentX box))
                        (Math_min (startY box) (currentY box))
                        (Math_max (startX box) (currentX box))
                        (Math_max (startY box) (currentY box)))
              (entities props) (selectedEntityIds st) id)|].
  split; (intros [?|(ent & ? & ? & Hov)]; [by left|]); right; exists ent;
    (split; [done|]); (split; [done|]); by apply isOverlapping_boxIntersects.
Qed.

(** X7.  For entities whose explicit size, if any, is not negative, the
    marquee selects by geometry: after the release an identifier is selected
    exactly when it was selected before or belongs to an entity whose closed
    box shares a point with the closed rectangle of the marquee. *)
Theorem marquee_selects_touching_boxes props st ds box :
  dragState st = Some ds →
  DragState.type ds = drag_selection →
  selectionBox st = Some box →
  (∀ ent w, ent ∈ entities props → EntityNode.width ent = Some w → (0 <= w)%Q) →
  (∀ ent h, ent ∈ entities props → EntityNode.height ent = Some h → (0 <= h)%Q) →
  ∀ id,
    id ∈ selectedEntityIds (handleMouseUp props st).1 ↔
    id ∈ selectedEntityIds st
    ∨ ∃ ent, ent ∈ entities props ∧ EntityNode.id ent = id
             ∧ sharePoint (getEntityRect (modelType props) (searchTerm st) ent)
                 (Math_min (startX box) (currentX box))
                 (Math_min (startY box) (currentY box))
                 (Math_max (startX box) (currentX box))
                 (Math_max (startY box) (currentY box)).
Proof.
  intros Hds Hty Hbox Hw Hh id.
  rewrite (handleMouseUp_selection props st ds box Hds Hty Hbox).
  cbn [fst selectedEntityIds setSelectionBox setDragState setRaf setSelectedEntityIds].
  rewrite marqueeSelection_elem_of.
  split; (intros [?|(ent & Hin & Hid & Hgeo)]; [by left|]); right; exists ent;
    (split; [done|]); (split; [done|]);
    destruct (getEntityRect_nonneg (modelType props) (searchTerm st) ent
                (λ w, Hw ent w Hin) (λ h, Hh ent h Hin)) as [Hrw Hrh];
    eapply (boxIntersects_shared_point _ _ _ _ _ Hrw Hrh);
    try apply Math_min_le_max; done.
Qed.

(* ================================================================== *)
(** ** The overlay *)
(* ================================================================== *)

Lemma merge_keeps e p :
  EntityNode.id (PartialEntity.merge e p) = EntityNode.id e
  ∧ EntityNode.name (PartialEntity.merge e p) = EntityNode.name e
  ∧ EntityNode.attributes (PartialEntity.merge e p) = EntityNode.attributes e
  ∧ EntityNode.collapsed (PartialEntity.merge e p) = EntityNode.collapsed e
  ∧ EntityNode.color (PartialEntity.merge e p) = EntityNode.color e.
Proof. done. Qed.

Lemma applyDragUpdates_keeps updates ents :
  Forall2 (λ e e', EntityNode.id e' = EntityNode.id e
                   ∧ EntityNode.name e' = EntityNode.name e
                   ∧ EntityNode.attributes e' = EntityNode.attributes e
                   ∧ EntityNode.collapsed e' = EntityNode.collapsed e
                   ∧ EntityNode.color e' = EntityNode.color e)
          ents (applyDragUpdates updates ents).
Proof.
  unfold applyDragUpdates. apply Forall2_fmap_r, Forall_Forall2_diag, Forall_forall.
  intros e _. change (let e' := match updates !! EntityNode.id e with
                               | Some p => PartialEntity.merge e p
                               | None => e
                               end in
                      EntityNode.id e' = EntityNode.id e
                      ∧ EntityNode.name e' = EntityNode.name e
                      ∧ EntityNode.attributes e' = EntityNode.attributes e
                      ∧ EntityNode.collapsed e' = EntityNode.collapsed e
                      ∧ EntityNode.color e' = EntityNode.color e).
  destruct (updates !! EntityNode.id e); [apply merge_keeps|done].
Qed.

Lemma applyDragUpdates_empty ents : applyDragUpdates ∅ ents = ents.
Proof.
  unfold applyDragUpdates. rewrite <- (list_fmap_id ents) at 2.
  apply list_fmap_ext. intros i e _. by rewrite lookup_empty.
Qed.

(** X8.  The overlay never changes what an entity is: the rendered entities
    are the committed ones, one for one and in their order, with the same
    identifier, name, attributes, collapsed flag and color; only position
    and size can differ.  With an empty overlay they are the committed
    entities themselves. *)
Theorem effectiveEntities_same_identity props st :
  Forall2 (λ e e', EntityNode.id e' = EntityNode.id e
                   ∧ EntityNode.name e' = EntityNode.name e
                   ∧ EntityNode.attributes e' = EntityNode.attributes e
                   ∧ EntityNode.collapsed e' = EntityNode.collapsed e
                   ∧ EntityNode.color e' = EntityNode.color e)
          (entities props) (effectiveEntities props st)
  ∧ length (effectiveEntities props st) = length (entities props)
  ∧ EntityNode.id <$> effectiveEntities props st = EntityNode.id <$> entities props
  ∧ (dragUpdates st = ∅ → effectiveEntities props st = entities props).
Proof.
  assert (H : Forall2 (λ e e', EntityNode.id e' = EntityNode.id e
                   ∧ EntityNode.name e' = EntityNode.name e
                   ∧ EntityNode.attributes e' = EntityNode.attributes e
                   ∧ EntityNode.collapsed e' = EntityNode.collapsed e
                   ∧ EntityNode.color e' = EntityNode.color e)
          (entities props) (effectiveEntities props st)).
  { unfold effectiveEntities. destruct (decide _).
    - apply Forall_Forall2_diag, Forall_forall. done.
    - apply applyDragUpdates_keeps. }
  split; [exact H|]. split; [symmetry; by eapply Forall2_length|]. split.
  - clear -H. induction H as [|e e' l l' (Hid & _) _ IH]; [done|].
    rewrite !fmap_cons. by f_equal.
  - intros Hempty. unfold effectiveEntities. rewrite Hempty.
    by rewrite map_size_empty, decide_True.
Qed.

(** X9.  What is committed is what was shown: when a drag of entities or a
    resize is released with a non-empty overlay, the one call made is
    [onEntitiesChange] with the entities as they were rendered; with an
    empty overlay no call is made.  Either way the rendered entities after
    the release are the committed entities of the props. *)
Theorem release_commits_rendered props st ds :
  dragState st = Some ds →
  DragState.type ds = drag_entity ∨ DragState.type ds = drag_resize →
  (handleMouseUp props st).2 =
    (if decide (dragUpdates st = ∅) then []
     else [onEntitiesChange (effectiveEntities props st)])
  ∧ effectiveEntities props (handleMouseUp props st).1 = entities props.
Proof.
  intros Hds Hty.
  destruct (handleMouseUp_overlay_empty props st ds Hds Hty) as (Hov & _).
  rewrite (handleMouseUp_commit props st ds Hds Hty). cbn [snd].
  split.
  - unfold effectiveEntities.
    destruct (decide (0 < size (dragUpdates st))%nat) as [Hpos|Hzero].
    + rewrite decide_False, decide_False; [done|lia|].
      intros Hempty. rewrite Hempty, map_size_empty in Hpos. lia.
    + rewrite decide_True; [done|]. apply map_size_empty_iff. lia.
  - rewrite (handleMouseUp_commit props st ds Hds Hty) in Hov. cbn [fst] in *.
    unfold effectiveEntities. rewrite Hov, map_size_empty. by rewrite decide_True.
Qed.

(* ================================================================== *)
(** ** Collapse *)
(* ================================================================== *)

Lemma withCollapsed_involutive e :
  withCollapsed (negb (EntityNode.collapsed (withCollapsed (negb (EntityNode.collapsed e)) e)))
    (withCollapsed (negb (EntityNode.collapsed e)) e) = e.
Proof. destruct e as [? ? ? ? ? ? ? ? c ?]. cbn. by rewrite negb_involutive. Qed.

(** X10.  Toggling the collapsed flag of an entity twice restores the model:
    the host, taking the call of the first toggle and then, with the props
    it passes next, the call of the second, holds the model it started
    from.  A toggle changes no relationship. *)
Theorem toggleCollapse_twice m id :
  let m1 := commitAll m (toggleCollapse (canvasProps m) id) in
  let m2 := commitAll m1 (toggleCollapse (canvasProps m1) id) in
  m2 = m ∧ m_relationships m1 = m_relationships m
  ∧ EntityNode.id <$> m_entities m1 = EntityNode.id <$> m_entities m.
Proof.
  destruct m as [mt ents rels]. cbn. split; [|split; [done|]].
  - f_equal. rewrite <- list_fmap_compose. rewrite <- (list_fmap_id ents) at 2.
    apply list_fmap_ext. intros i e _. cbn.
    destruct (decide (EntityNode.id e = id)) as [Heq|Hne].
    + cbn [withCollapsed EntityNode.id]. rewrite decide_True by done.
      apply withCollapsed_involutive.
    + by rewrite decide_False.
  - rewrite <- list_fmap_compose. apply list_fmap_ext. intros i e _. cbn.
    by destruct (decide _).
Qed.

(* ================================================================== *)
(** ** Panning and clicking *)
(* ================================================================== *)

Lemma handleMouseDown_pan dom props st e :
  startsPan st e = true →
  handleMouseDown dom props st e =
    setDragState
      (Some {| DragState.type := drag_pan;
               DragState.startMouseX := clientX e;
               DragState.startMouseY := clientY e;
               DragState.initialPositions := None;
               DragState.startOffset := Some (offset st);
               DragState.entityId := None;
               DragState.startW := None;
               DragState.startH := None |}) st.
Proof. intros Hpan. unfold handleMouseDown. unfold startsPan in Hpan. by rewrite Hpan. Qed.

(** X11.  A pan, whether or not the canvas is read-only: the offset moves
    by the screen distance between the press and the move, independently of
    the zoom; no call is made to the host; zoom, selections, clipboard and
    overlay are those before the press; no drag is active after it. *)
Theorem panDrag_moves_offset_only dom props st down move :
  startsPan st down = true →
  let result := panDrag dom props st down move in
  result.2 = []
  ∧ offset result.1 =
      {| px := (px (offset st) + (clientX move - clientX down))%Q;
         py := (py (offset st) + (clientY move - clientY down))%Q |}
  ∧ zoom result.1 = zoom st
  ∧ selectedEntityIds result.1 = selectedEntityIds st
  ∧ selectedRelId result.1 = selectedRelId st
  ∧ clipboard result.1 = clipboard st
  ∧ dragUpdates result.1 = dragUpdates st
  ∧ dragState result.1 = None.
Proof.
  intros Hpan result. subst result. unfold panDrag.
  rewrite (handleMouseDown_pan dom props st down Hpan).
  unfold handleMouseMove. cbn [dragState setDragState].
  unfold animationFrame. cbn [raf setRaf].
  unfold frameCallback.
  cbn [f_dragState f_event DragState.type DragState.startOffset
       DragState.startMouseX DragState.startMouseY].
  unfold handleMouseUp.
  cbn [dragState setOffset setRaf setDragState DragState.type].
  rewrite !bool_decide_eq_false_2 by done. cbn [orb].
  by destruct (selectionBox _).
Qed.

(* ------------------------------------------------------------------ *)

Lemma handleEntityMouseDown_selection props st e id n :
  readOnly props = false →
  truthy_str (connectingSource st) = false →
  ∃ st1,
    handleEntityMouseDown props st e id n = ((st1, []), n)
    ∧ selectedEntityIds st1 = clickSelection (selectedEntityIds st) e id
    ∧ selectedRelId st1 = None
    ∧ connectingSource st1 = connectingSource st
    ∧ interactionMode st1 = interactionMode st
    ∧ isSpacePressed st1 = isSpacePressed st.
Proof.
  intros Hro Hconn. unfold handleEntityMouseDown. rewrite Hro, Hconn.
  eexists. split; [reflexivity|].
  assert (Hkeep : shiftKey e || ctrlKey e || metaKey e
                  || negb (bool_decide (id ∈ selectedEntityIds st)) = false →
                  selectedEntityIds st = clickSelection (selectedEntityIds st) e id).
  { intros [Hmulti Hin%negb_false_iff%bool_decide_eq_true]%orb_false_iff.
    unfold clickSelection. rewrite Hmulti.
    by destruct (decide (id ∈ selectedEntityIds st)). }
  destruct (shiftKey e || ctrlKey e || metaKey e
            || negb (bool_decide (id ∈ selectedEntityIds st))) eqn:Hc;
    destruct (negb (isPanMode st)); cbn; repeat split; try done; by apply Hkeep.
Qed.

Lemma clickSelection_toggle_twice (sel : gset string) e id :
  shiftKey e || ctrlKey e || metaKey e = true →
  clickSelection (clickSelection sel e id) e id = sel.
Proof.
  intros Hm. unfold clickSelection. rewrite Hm.
  destruct (decide (id ∈ sel)) as [Hin|Hout].
  - rewrite decide_False
      by (rewrite elem_of_difference, elem_of_singleton; intros [_ ?]; done).
    apply set_eq. intros x.
    rewrite elem_of_union, elem_of_difference, elem_of_singleton.
    split; [intros [[? _]|?]; by subst|].
    intros Hx. destruct (decide (x = id)); [by right|by left].
  - rewrite decide_True
      by (apply elem_of_union; right; by apply elem_of_singleton).
    apply set_eq. intros x.
    rewrite elem_of_difference, elem_of_union, elem_of_singleton.
    split; [intros [[?|?] ?]; done|].
    intros Hx. split; [by left|]. intros ->. done.
Qed.

(** X12.  With Shift, Ctrl or Meta held, a press on an entity toggles it in
    the selection and leaves the rest of the selection alone; a second
    such press on the same entity restores the selection.  Each press
    clears the relationship selection. *)
Theorem modifier_press_toggles props st e id n :
  readOnly props = false →
  truthy_str (connectingSource st) = false →
  shiftKey e || ctrlKey e || metaKey e = true →
  let st1 := (handleEntityMouseDown props st e id n).1.1 in
  let st2 := (handleEntityMouseDown props st1 e id n).1.1 in
  (id ∈ selectedEntityIds st1 ↔ id ∉ selectedEntityIds st)
  ∧ (∀ x, x ≠ id → (x ∈ selectedEntityIds st1 ↔ x ∈ selectedEntityIds st))
  ∧ selectedEntityIds st2 = selectedEntityIds st
  ∧ selectedRelId st1 = None.
Proof.
  intros Hro Hconn Hm st1 st2.
  destruct (handleEntityMouseDown_selection props st e id n Hro Hconn)
    as (s1 & Heq1 & Hsel1 & Hrel1 & Hconn1 & _).
  assert (st1 = s1) as -> by (subst st1; by rewrite Heq1).
  rewrite <- Hconn1 in Hconn.
  destruct (handleEntityMouseDown_selection props s1 e id n Hro Hconn)
    as (s2 & Heq2 & Hsel2 & _).
  assert (st2 = s2) as -> by (subst st2; by rewrite Heq2).
  rewrite Hsel2, Hsel1. rewrite clickSelection_toggle_twice by done.
  split; [|split; [|done]].
  - unfold clickSelection. rewrite Hm.
    destruct (decide (id ∈ selectedEntityIds st)) as [Hin|Hout].
    + rewrite elem_of_difference, elem_of_singleton.
      split; [intros [_ ?]; done|intros ?; done].
    + rewrite elem_of_union, elem_of_singleton.
      split; [done|intros _; by right].
  - intros x Hx. unfold clickSelection. rewrite Hm.
    destruct (decide (id ∈ selectedEntityIds st)) as [Hin|Hout].
    + rewrite elem_of_difference, elem_of_singleton.
      split; [by intros [? _]|done].
    + rewrite elem_of_union, elem_of_singleton.
      split; [intros [?|?]; done|by left].
Qed.

(* ------------------------------------------------------------------ *)

Lemma Math_min_same a : (Math_min a a == a)%Q.
Proof. unfold Math_min. apply Q.min_l. lra. Qed.

Lemma Math_max_same a : (Math_max a a == a)%Q.
Proof. unfold Math_max. apply Q.max_l. lra. Qed.

Lemma boxIntersects_point rect x y :
  boxIntersects rect (Math_min x x) (Math_min y y) (Math_max x x) (Math_max y y)
  ↔ (rx rect <= x <= rx rect + rw rect)%Q ∧ (ry rect <= y <= ry rect + rh rect)%Q.
Proof.
  unfold boxIntersects.
  rewrite !Math_min_same, !Math_max_same. split.
  - intros (? & ? & ? & ?). done.
  - intros [[? ?] [? ?]]. done.
Qed.

(** X13.  A plain left click on the canvas (select tool, no modifier key,
    the canvas accepts edits): the relationship selection is cleared and
    the entity selection becomes the set of the entities whose box contains
    the world point under the pointer; it is empty when no box does.  No
    call is made to the host and no drag is active afterwards. *)
Theorem backgroundClick_selects_under_pointer dom props st down rect :
  readOnly props = false →
  startsPan st down = false →
  button down = 0%Z →
  shiftKey down || ctrlKey down || metaKey down = false →
  boundingClientRect dom = Some rect →
  let x := toWorld (clientX down - rect_left rect) (px (offset st)) (zoom st) in
  let y := toWorld (clientY down - rect_top rect) (py (offset st)) (zoom st) in
  let result := backgroundClick dom props st down in
  (∀ id, id ∈ selectedEntityIds result.1 ↔
         ∃ ent, ent ∈ entities props ∧ EntityNode.id ent = id
                ∧ (rx (getEntityRect (modelType props) (searchTerm st) ent) <= x
                   <= rx (getEntityRect (modelType props) (searchTerm st) ent)
                      + rw (getEntityRect (modelType props) (searchTerm st) ent))%Q
                ∧ (ry (getEntityRect (modelType props) (searchTerm st) ent) <= y
                   <= ry (getEntityRect (modelType props) (searchTerm st) ent)
                      + rh (getEntityRect (modelType props) (searchTerm st) ent))%Q)
  ∧ selectedRelId result.1 = None
  ∧ result.2 = []
  ∧ dragState result.1 = None
  ∧ selectionBox result.1 = None.
Proof.
  intros Hro Hpan Hbtn Hmod Hrect x y result.
  assert (Hdown : handleMouseDown dom props st down =
            setSelectionBox
              (Some {| startX := x; startY := y; currentX := x; currentY := y |})
              (setDragState
                 (Some {| DragState.type := drag_selection;
                          DragState.startMouseX := clientX down;
                          DragState.startMouseY := clientY down;
                          DragState.initialPositions := None;
                          DragState.startOffset := None;
                          DragState.entityId := None;
                          DragState.startW := None;
                          DragState.startH := None |})
                 (setSelectedRelId None (setSelectedEntityIds ∅ st)))).
  { unfold handleMouseDown. unfold startsPan in Hpan. rewrite Hpan, Hbtn, Hro, Hrect.
    apply orb_false_iff in Hmod as [[Hs Hc]%orb_false_iff Hm].
    rewrite Hs, Hc, Hm. reflexivity. }
  subst result. unfold backgroundClick. rewrite Hdown.
  erewrite handleMouseUp_selection; [|reflexivity..].
  cbn [fst snd selectedEntityIds selectedRelId dragState selectionBox
       setSelectionBox setDragState setRaf setSelectedEntityIds setSelectedRelId].
  split; [|done].
  intros id. rewrite marqueeSelection_elem_of.
  cbn [selectedEntityIds searchTerm startX startY currentX currentY
       setSelectionBox setDragState setSelectedRelId setSelectedEntityIds].
  split.
  - intros [Hin|(ent & Hin & Hid & Hgeo)]; [by apply not_elem_of_empty in Hin|].
    exists ent. split; [done|]. split; [done|]. by apply boxIntersects_point.
  - intros (ent & Hin & Hid & Hx & Hy). right. exists ent.
    split; [done|]. split; [done|]. by apply boxIntersects_point.
Qed.

(* ================================================================== *)
(** ** Further handlers of the canvas *)
(* ================================================================== *)

(** Releasing Space ends a pan in progress and no other drag. *)
Lemma handleKeyUp_space st e :
  code e = "Space" →
  isSpacePressed (handleKeyUp st e) = false
  ∧ offset (handleKeyUp st e) = offset st
  ∧ dragUpdates (handleKeyUp st e) = dragUpdates st
  ∧ selectedEntityIds (handleKeyUp st e) = selectedEntityIds st
  ∧ (∀ ds, dragState st = Some ds → DragState.type ds = drag_pan →
           dragState (handleKeyUp st e) = None)
  ∧ (∀ ds, dragState st = Some ds → DragState.type ds ≠ drag_pan →
           dragState (handleKeyUp st e) = Some ds).
Proof.
  intros Hcode. unfold handleKeyUp. rewrite Hcode. cbn [String.eqb Ascii.eqb Bool.eqb].
  destruct (dragState st) as [ds|] eqn:Hds.
  - destruct (bool_decide (DragState.type ds = drag_pan)) eqn:Hty.
    + apply bool_decide_eq_true in Hty. repeat split; try done.
      intros ds' [= <-] Hne. done.
    + apply bool_decide_eq_false in Hty. repeat split; try done.
      * intros ds' [= <-] Hpan. done.
      * intros ds' [= <-] _. cbn. done.
  - repeat split; done.
Qed.

(** Any other key released changes nothing. *)
Lemma handleKeyUp_other st e :
  code e ≠ "Space" → handleKeyUp st e = st.
Proof.
  intros Hcode. unfold handleKeyUp.
  by apply String.eqb_neq in Hcode as ->.
Qed.

(** A click on a relationship selects it alone. *)
Lemma relationshipClick_exclusive st rid :
  selectedRelId (relationshipClick st rid) = Some rid
  ∧ selectedEntityIds (relationshipClick st rid) = ∅.
Proof. done. Qed.

(** Collapsing or expanding all: every entity has the flag afterwards, the
    identifiers and the relationships are as before, and doing it again
    changes nothing. *)
Lemma setAllCollapsed_idempotent m c :
  let m1 := commitAll m (setAllCollapsed (canvasProps m) c) in
  commitAll m1 (setAllCollapsed (canvasProps m1) c) = m1
  ∧ Forall (λ e, EntityNode.collapsed e = c) (m_entities m1)
  ∧ EntityNode.id <$> m_entities m1 = EntityNode.id <$> m_entities m
  ∧ m_relationships m1 = m_relationships m.
Proof.
  cbn [setAllCollapsed commitAll foldl updateSelectedModel canvasProps entities
       m_entities m_relationships m_type].
  split; [|split; [|split]].
  - f_equal. rewrite <- list_fmap_compose. apply list_fmap_ext. by intros i e _.
  - apply Forall_fmap, Forall_true. done.
  - rewrite <- list_fmap_compose. apply list_fmap_ext. by intros i e _.
  - done.
Qed.

(** The colour goes to the selected entities of the model and to no other;
    without a selected entity of the model no call is made. *)
Lemma handleUpdateColor_selected_only props st color :
  (filter (λ e, EntityNode.id e ∈ selectedEntityIds st) (entities props) = [] →
   handleUpdateColor props st color = [])
  ∧ (filter (λ e, EntityNode.id e ∈ selectedEntityIds st) (entities props) ≠ [] →
     handleUpdateColor props st color =
       [onEntitiesChange
          ((λ e, if decide (EntityNode.id e ∈ selectedEntityIds st)
                 then withColor color e else e) <$> entities props)]).
Proof.
  unfold handleUpdateColor. split.
  - intros ->. done.
  - intros Hne.
    destruct (decide (length (filter _ (entities props)) = 0%nat)) as [Hz|_].
    { by apply length_zero_iff_nil in Hz. }
    do 2 f_equal. apply list_fmap_ext. intros i e He.
    apply list_elem_of_lookup_2 in He.
    destruct (decide (EntityNode.id e ∈ selectedEntityIds st)) as [Hin|Hnin].
    + rewrite decide_True; [done|].
      apply elem_of_list_to_set, list_elem_of_fmap. exists e. split; [done|].
      by apply list_elem_of_filter.
    + rewrite decide_False; [done|].
      intros (e' & Heq & He')%elem_of_list_to_set%list_elem_of_fmap.
      apply list_elem_of_filter in He' as [Hin' _]. apply Hnin. by rewrite Heq.
Qed.

(* ================================================================== *)
(** ** Keyboard *)
(* ================================================================== *)

Lemma handleKeyDown_readOnly dom props st e n :
  readOnly props = true →
  ∃ st', handleKeyDown dom props st e n = ((st', []), n)
         ∧ selectedEntityIds st' = selectedEntityIds st
         ∧ selectedRelId st' = selectedRelId st
         ∧ clipboard st' = clipboard st
         ∧ dragState st' = dragState st
         ∧ dragUpdates st' = dragUpdates st.
Proof.
  intros Hro. unfold handleKeyDown. rewrite Hro. eexists. split; [reflexivity|].
  repeat (match goal with |- context [if ?b then _ else _] => destruct b end); done.
Qed.

(** X14.  A read-only canvas is not edited from the keyboard or by a press
    on an entity: whatever the key, [handleKeyDown] makes no call to the
    host, draws no identifier and leaves the two selections and the
    clipboard as they are; the delete handler does nothing; a press on an
    entity changes nothing at all. *)
Theorem readOnly_keyboard_and_press_inert dom props st n :
  readOnly props = true →
  (∀ e, (handleKeyDown dom props st e n).1.2 = []
        ∧ (handleKeyDown dom props st e n).2 = n
        ∧ selectedEntityIds (handleKeyDown dom props st e n).1.1 = selectedEntityIds st
        ∧ selectedRelId (handleKeyDown dom props st e n).1.1 = selectedRelId st
        ∧ clipboard (handleKeyDown dom props st e n).1.1 = clipboard st)
  ∧ handleDeleteSelectedEntities props st = (st, [])
  ∧ (∀ e id, handleEntityMouseDown props st e id n = ((st, []), n)).
Proof.
  intros Hro. split; [|split].
  - intros e.
    destruct (handleKeyDown_readOnly dom props st e n Hro)
      as (st' & -> & ? & ? & ? & _). done.
  - unfold handleDeleteSelectedEntities, handleDeleteSelectedEntities_in.
    by rewrite Hro.
  - intros e id. unfold handleEntityMouseDown. by rewrite Hro.
Qed.

Lemma paste_other_key props st acc e n :
  String.eqb (key e) "v" = false → paste props st acc e n = ((acc, []), n).
Proof.
  intros Hk. unfold paste. destruct (clipboard st); [|done].
  by rewrite Hk, andb_false_r.
Qed.

Lemma paste_no_modifier props st acc e n :
  k_ctrlKey e || k_metaKey e = false → paste props st acc e n = ((acc, []), n).
Proof.
  intros Hk. unfold paste. destruct (clipboard st); [|done].
  by rewrite Hk.
Qed.

(** X15.  While a text input has the focus, [Delete] and [Backspace] do
    nothing to the model, the selections or the clipboard, and a plain [v]
    or [h] does not switch the tool. *)
Theorem input_focus_suppresses_keys dom props st e n :
  activeElementTag dom = Some "INPUT" →
  (key e = "Delete" ∨ key e = "Backspace" →
     (handleKeyDown dom props st e n).1.2 = []
     ∧ selectedEntityIds (handleKeyDown dom props st e n).1.1 = selectedEntityIds st
     ∧ selectedRelId (handleKeyDown dom props st e n).1.1 = selectedRelId st
     ∧ clipboard (handleKeyDown dom props st e n).1.1 = clipboard st
     ∧ interactionMode (handleKeyDown dom props st e n).1.1 = interactionMode st)
  ∧ (k_ctrlKey e || k_metaKey e = false → key e = "v" ∨ key e = "h" →
     interactionMode (handleKeyDown dom props st e n).1.1 = interactionMode st
     ∧ (handleKeyDown dom props st e n).1.2 = []).
Proof.
  intros Hin.
  assert (Hinput : isInput dom = true)
    by (unfold isInput; by rewrite Hin, bool_decide_eq_true_2).
  split.
  - intros Hkey. unfold handleKeyDown. rewrite Hinput.
    assert (String.eqb (key e) "v" = false ∧ String.eqb (key e) "h" = false
            ∧ String.eqb (key e) "c" = false
            ∧ String.eqb (key e) "Delete" || String.eqb (key e) "Backspace" = true)
      as (Hv & Hh & Hc & Hd) by (destruct Hkey as [-> | ->]; done).
    rewrite Hv, Hh, Hc, Hd, ?andb_false_r. cbn [andb negb].
    destruct (readOnly props).
    + destruct (String.eqb (code e) "Space" && negb (k_repeat e)); by cbn.
    + unfold mbind, Gen_bind. rewrite paste_other_key by done.
      destruct (String.eqb (code e) "Space" && negb (k_repeat e)); by cbn.
  - intros Hmod Hkey. unfold handleKeyDown. rewrite Hinput, Hmod.
    rewrite ?andb_false_r. cbn [andb negb].
    destruct (readOnly props).
    + destruct (String.eqb (code e) "Space" && negb (k_repeat e)); by cbn.
    + unfold mbind, Gen_bind. rewrite paste_no_modifier by done.
      assert (String.eqb (key e) "Delete" || String.eqb (key e) "Backspace" = false)
        as -> by (destruct Hkey as [-> | ->]; done).
      destruct (String.eqb (code e) "Space" && negb (k_repeat e)); by cbn.
Qed.

Lemma handleKeyDown_copy dom props st e n :
  readOnly props = false →
  k_ctrlKey e || k_metaKey e = true →
  key e = "c" →
  filter (λ ent, EntityNode.id ent ∈ selectedEntityIds st) (entities props) ≠ [] →
  ∃ st1,
    handleKeyDown dom props st e n = ((st1, []), n)
    ∧ clipboard st1 =
        Some (filter (λ ent, EntityNode.id ent ∈ selectedEntityIds st) (entities props))
    ∧ selectedEntityIds st1 = selectedEntityIds st.
Proof.
  intros Hro Hmod Hkey Hne. unfold handleKeyDown.
  rewrite Hro, Hmod, Hkey. cbn [String.eqb Ascii.eqb Bool.eqb andb orb].
  unfold mbind, Gen_bind. rewrite paste_other_key by (by rewrite Hkey).
  destruct (filter _ (entities props)) as [|x l] eqn:Hf; [done|].
  cbn [length Nat.ltb Nat.leb].
  eexists. split; [reflexivity|].
  destruct (String.eqb (code e) "Space" && negb (k_repeat e)); done.
Qed.

(** X16.  Copy then paste.  With Ctrl or Cmd held, [c] followed by [v] on a
    canvas whose selection holds at least one entity of the model sends the
    host, in one call, the entities followed by one clone of each selected
    entity, in model order: 20 further right and down, [_copy] appended to
    the name.  The copy itself makes no call and draws no identifier: it
    puts the selected entities of the model on the clipboard and leaves the
    selection as it is.  The clones are the selection after the paste. *)
Theorem copy_then_paste dom props st c v n :
  readOnly props = false →
  k_ctrlKey c || k_metaKey c = true → key c = "c" →
  k_ctrlKey v || k_metaKey v = true → key v = "v" →
  filter (λ ent, EntityNode.id ent ∈ selectedEntityIds st) (entities props) ≠ [] →
  (handleKeyDown dom props st c n).1.2 = []
  ∧ (handleKeyDown dom props st c n).2 = n
  ∧ clipboard (handleKeyDown dom props st c n).1.1 =
      Some (filter (λ ent, EntityNode.id ent ∈ selectedEntityIds st) (entities props))
  ∧ selectedEntityIds (handleKeyDown dom props st c n).1.1 = selectedEntityIds st
  ∧ ∃ st' clones n',
      twoKeys dom props st c v n =
        ((st', [onEntitiesChange (entities props ++ clones)]), n')
      ∧ Forall2 cloneOf
          (filter (λ ent, EntityNode.id ent ∈ selectedEntityIds st) (entities props))
          clones
      ∧ selectedEntityIds st' = list_to_set (EntityNode.id <$> clones)
      ∧ (n ≤ n')%nat.
Proof.
  intros Hro Hc1 Hc2 Hv1 Hv2 Hne.
  destruct (handleKeyDown_copy dom props st c n Hro Hc1 Hc2 Hne)
    as (st1 & Hcopy & Hclip & Hsel1).
  rewrite Hcopy. cbn [fst snd].
  split; [done|]. split; [done|]. split; [exact Hclip|]. split; [exact Hsel1|].
  destruct (handleKeyDown_paste dom props st1 v _ n Hro Hv1 Hv2 Hclip Hne)
    as (acc & Hpaste).
  destruct (cloneAll_spec
              (filter (λ ent, EntityNode.id ent ∈ selectedEntityIds st) (entities props))
              n) as (clones & n' & Hm & Hle & Hall & _).
  rewrite Hm in Hpaste.
  eexists _, clones, n'. unfold twoKeys, mbind, Gen_bind.
  rewrite Hcopy. cbn [fst snd]. rewrite Hpaste.
  split; [reflexivity|]. done.
Qed.

Lemma handleKeyDown_delete dom props st e n :
  readOnly props = false →
  isInput dom = false →
  key e = "Delete" ∨ key e = "Backspace" →
  ∃ acc,
    (acc = st ∨ acc = setIsSpacePressed true st)
    ∧ handleKeyDown dom props st e n =
        ((if decide (0 < size (selectedEntityIds st))%nat then
            handleDeleteSelectedEntities_in props st acc
          else
            match selectedRelId st with
            | Some rid =>
              if truthy_str (Some rid) then handleDeleteRel_in props st acc rid
              else (acc, [])
            | None => (acc, [])
            end), n).
Proof.
  intros Hro Hin Hkey. unfold handleKeyDown. rewrite Hro, Hin.
  assert (String.eqb (key e) "v" = false ∧ String.eqb (key e) "h" = false
          ∧ String.eqb (key e) "c" = false ∧ String.eqb (key e) "a" = false
          ∧ String.eqb (key e) "Delete" || String.eqb (key e) "Backspace" = true)
    as (Hv & Hh & Hc & Ha & Hd) by (destruct Hkey as [-> | ->]; done).
  rewrite Hv, Hh, Hc, Ha, Hd, ?andb_false_r. cbn [andb negb].
  unfold mbind, Gen_bind. rewrite paste_other_key by done.
  cbn [andb].
  exists (if String.eqb (code e) "Space" && negb (k_repeat e)
          then setIsSpacePressed true st else st).
  split; [destruct (String.eqb (code e) "Space" && negb (k_repeat e)); auto|].
  destruct (decide (0 < size (selectedEntityIds st))%nat).
  - destruct (handleDeleteSelectedEntities_in props st _) as [a o]. done.
  - destruct (selectedRelId st) as [rid|]; [|done].
    destruct (truthy_str (Some rid)); [|done].
    destruct (handleDeleteRel_in props st _ rid) as [a o]. done.
Qed.

Lemma size_gset_pos (X : gset string) : (0 < size X)%nat ↔ X ≠ ∅.
Proof.
  rewrite <- size_gset_zero. lia.
Qed.

(** X17.  [Delete] or [Backspace] outside a text input, on an editable
    canvas.  Selected entities take priority: they are deleted (relationships
    first, entities second), the entity selection is emptied and a selected
    relationship stays selected.  With no entity selected, the selected
    relationship is removed from the collection and deselected.  With
    nothing selected no call is made.  No identifier is drawn. *)
Theorem delete_key_dispatch dom props st e n :
  readOnly props = false →
  activeElementTag dom ≠ Some "INPUT" →
  key e = "Delete" ∨ key e = "Backspace" →
  (handleKeyDown dom props st e n).2 = n
  ∧ (selectedEntityIds st ≠ ∅ →
       (handleKeyDown dom props st e n).1.2 =
         [onRelationshipsChange
            (filter (λ r, (Relationship.sourceId r ∉ selectedEntityIds st)
                          ∧ (Relationship.targetId r ∉ selectedEntityIds st))
                    (relationships props));
          onEntitiesChange
            (filter (λ ent, EntityNode.id ent ∉ selectedEntityIds st) (entities props))]
       ∧ selectedEntityIds (handleKeyDown dom props st e n).1.1 = ∅
       ∧ selectedRelId (handleKeyDown dom props st e n).1.1 = selectedRelId st)
  ∧ (selectedEntityIds st = ∅ →
       ∀ rid, selectedRelId st = Some rid → rid ≠ "" →
         (handleKeyDown dom props st e n).1.2 =
           [onRelationshipsChange
              (filter (λ r, Relationship.id r ≠ rid) (relationships props))]
         ∧ selectedRelId (handleKeyDown dom props st e n).1.1 = None
         ∧ selectedEntityIds (handleKeyDown dom props st e n).1.1 = ∅)
  ∧ (selectedEntityIds st = ∅ → selectedRelId st = None →
       (handleKeyDown dom props st e n).1.2 = []).
Proof.
  intros Hro Hin Hkey.
  assert (Hinput : isInput dom = false)
    by (unfold isInput; by apply bool_decide_eq_false_2).
  destruct (handleKeyDown_delete dom props st e n Hro Hinput Hkey)
    as (acc & Hacc & ->).
  cbn [fst snd]. split; [done|]. split; [|split].
  - intros Hsel. apply size_gset_pos in Hsel.
    destruct (decide _) as [_|]; [|done].
    unfold handleDeleteSelectedEntities_in. rewrite Hro.
    destruct (decide (size (selectedEntityIds st) = 0%nat)) as [|_]; [lia|].
    cbn [fst snd]. split; [done|]. split; [done|].
    by destruct Hacc as [-> | ->].
  - intros Hsel rid Hrid Hne.
    destruct (decide _) as [Hpos|_]; [by apply size_gset_pos in Hpos|].
    rewrite Hrid.
    assert (truthy_str (Some rid) = true) as ->.
    { simpl. apply negb_true_iff. by apply String.eqb_neq. }
    unfold handleDeleteRel_in. rewrite Hrid, decide_True by done.
    cbn [fst snd]. split; [done|]. split; [done|].
    by destruct Hacc as [-> | ->].
  - intros Hsel Hrid.
    destruct (decide _) as [Hpos|_]; [by apply size_gset_pos in Hpos|].
    by rewrite Hrid.
Qed.

Lemma handleKeyDown_selectAll dom props st e n :
  readOnly props = false →
  k_ctrlKey e || k_metaKey e = true →
  key e = "a" →
  ∃ st1,
    handleKeyDown dom props st e n = ((st1, []), n)
    ∧ selectedEntityIds st1 = list_to_set (EntityNode.id <$> entities props)
    ∧ selectedRelId st1 = selectedRelId st.
Proof.
  intros Hro Hmod Hkey. unfold handleKeyDown.
  rewrite Hro, Hmod, Hkey. cbn [String.eqb Ascii.eqb Bool.eqb andb orb].
  unfold mbind, Gen_bind. rewrite paste_other_key by (by rewrite Hkey).
  eexists. split; [reflexivity|].
  destruct (String.eqb (code e) "Space" && negb (k_repeat e)); done.
Qed.

Lemma filter_nil_all {A} (P : A → Prop) `{∀ x, Decision (P x)} (l : list A) :
  (∀ x, x ∈ l → ¬ P x) → filter P l = [].
Proof.
  induction l as [|x l IH]; intros Hall; [done|].
  rewrite filter_cons_False by (apply Hall; left).
  apply IH. intros y Hy. apply Hall. by right.
Qed.

(** X18.  Select all, then delete.  On the canvas the application mounts,
    Ctrl+A (or Cmd+A) followed by [Delete] or [Backspace], outside a text
    input, leaves a model without entities; the select-all makes no call of
    its own.  When every relationship referenced entities of the model
    beforehand, no relationship is left either, and a relationship that was
    selected is still recorded as selected. *)
Theorem select_all_then_delete m dom st a d n :
  k_ctrlKey a || k_metaKey a = true → key a = "a" →
  key d = "Delete" ∨ key d = "Backspace" →
  activeElementTag dom ≠ Some "INPUT" →
  m_entities m ≠ [] →
  (handleKeyDown dom (canvasProps m) st a n).1.2 = []
  ∧ m_entities (commitAll m (twoKeys dom (canvasProps m) st a d n).1.2) = []
  ∧ (noDangling m →
       m_relationships (commitAll m (twoKeys dom (canvasProps m) st a d n).1.2) = [])
  ∧ selectedEntityIds (twoKeys dom (canvasProps m) st a d n).1.1 = ∅
  ∧ selectedRelId (twoKeys dom (canvasProps m) st a d n).1.1 = selectedRelId st.
Proof.
  intros Ha1 Ha2 Hd Hin Hne.
  assert (Hinput : isInput dom = false)
    by (unfold isInput; by apply bool_decide_eq_false_2).
  destruct (handleKeyDown_selectAll dom (canvasProps m) st a n eq_refl Ha1 Ha2)
    as (st1 & Hall & Hsel1 & Hrel1).
  destruct (handleKeyDown_delete dom (canvasProps m) st1 d n eq_refl Hinput Hd)
    as (acc & Hacc & Hdel).
  unfold twoKeys, mbind, Gen_bind. rewrite Hall. cbn [fst snd].
  rewrite Hdel. cbn [fst snd].
  assert (Hpos : (0 < size (selectedEntityIds st1))%nat).
  { apply size_gset_pos. rewrite Hsel1. cbn [canvasProps entities].
    destruct (m_entities m) as [|x l]; [done|].
    rewrite fmap_cons, list_to_set_cons. intros Hempty.
    assert (EntityNode.id x ∈ (∅ : gset string)) as Hx; [|by apply not_elem_of_empty in Hx].
    rewrite <- Hempty. apply elem_of_union_l, elem_of_singleton. done. }
  destruct (decide _) as [_|]; [|done].
  unfold handleDeleteSelectedEntities_in. cbn [readOnly canvasProps].
  destruct (decide (size (selectedEntityIds st1) = 0%nat)) as [|_]; [lia|].
  cbn [fst snd commitAll foldl updateSelectedModel m_entities m_relationships
       m_type entities relationships].
  split; [done|]. split; [|split; [|split]].
  - apply filter_nil_all. intros x Hx Hnot. apply Hnot.
    rewrite Hsel1. cbn [canvasProps entities].
    apply elem_of_list_to_set, list_elem_of_fmap. by exists x.
  - intros Hm. apply filter_nil_all. intros r Hr [Hs _]. apply Hs.
    rewrite Hsel1. cbn [canvasProps entities].
    apply elem_of_list_to_set. by apply (Hm r).
  - done.
  - rewrite <- Hrel1. by destruct Hacc as [-> | ->].
Qed.

(* ================================================================== *)
(** ** Connecting two entities *)
(* ================================================================== *)

(** X19.  Connecting.  After a click on the connect button of entity [src],
    a press on the same entity does nothing and the canvas stays in
    connection mode; a press on another entity [id] sends the host, in one
    call, the relationships followed by one new relationship from [src] to
    [id] with a newly drawn identifier, leaves connection mode, and neither
    changes the selection nor starts a drag.  A model without dangling
    references stays so when both are entities of the model. *)
Theorem connect_adds_relationship m st e src id n :
  src ≠ "" →
  (src = id →
     handleEntityMouseDown (canvasProps m) (connectClick st src) e id n =
       ((connectClick st src, []), n))
  ∧ (src ≠ id →
     ∃ rel,
       handleEntityMouseDown (canvasProps m) (connectClick st src) e id n =
         ((setConnectingSource None (connectClick st src),
           [onRelationshipsChange (m_relationships m ++ [rel])]), S n)
       ∧ Relationship.id rel = random_id n
       ∧ Relationship.sourceId rel = src
       ∧ Relationship.targetId rel = id
       ∧ (noDangling m →
          src ∈ EntityNode.id <$> m_entities m →
          id ∈ EntityNode.id <$> m_entities m →
          noDangling
            (updateSelectedModel m (onRelationshipsChange (m_relationships m ++ [rel])))))
  ∧ selectedEntityIds (handleEntityMouseDown (canvasProps m) (connectClick st src) e id n).1.1
      = selectedEntityIds st
  ∧ dragState (handleEntityMouseDown (canvasProps m) (connectClick st src) e id n).1.1
      = dragState st.
Proof.
  intros Hne.
  assert (Ht : truthy_str (Some src) = true).
  { simpl. apply negb_true_iff. by apply String.eqb_neq. }
  unfold handleEntityMouseDown, connectClick.
  cbn [readOnly canvasProps connectingSource setConnectingSource].
  rewrite Ht. cbn [default relationships]. change (Datatypes.id src) with src.
  destruct (decide (src ≠ id)) as [Hd|Hd].
  - split; [done|]. split; [|done].
    intros _. eexists. split; [reflexivity|].
    cbn [Relationship.id Relationship.sourceId Relationship.targetId].
    split; [done|]. split; [done|]. split; [done|].
    intros Hm Hs Hi r Hr. cbn [updateSelectedModel m_relationships m_entities] in *.
    apply elem_of_app in Hr as [Hr|Hr]; [by apply Hm|].
    apply list_elem_of_singleton in Hr as ->. done.
  - split; [done|]. split; [|done]. intros Hd'. done.
Qed.

(* ================================================================== *)
(** ** Moves and frames of a drag *)
(* ================================================================== *)

Lemma frame_step_entity dom props s ds ip move :
  readOnly props = false →
  dragState s = Some ds →
  DragState.type ds = drag_entity →
  DragState.initialPositions ds = Some ip →
  animationFrame dom (handleMouseMove props s move) =
    setDragUpdates
      (entityDragUpdate (worldDelta (DragState.startMouseX ds) (clientX move) (zoom s))
                        (worldDelta (DragState.startMouseY ds) (clientY move) (zoom s))
       <$> ip) (setRaf None s).
Proof.
  intros Hro Hds Hty Hip. unfold handleMouseMove. rewrite Hds, Hro.
  unfold animationFrame. cbn [raf setRaf].
  erewrite frameCallback_entity; [|done..]. reflexivity.
Qed.

Lemma duringDrag_cells props s0 ds s :
  duringDrag props s0 ds s → dragState s = dragState s0 ∧ zoom s = zoom s0.
Proof.
  intros [H _]. split.
  - exact (f_equal dragState (H ∅ None)).
  - exact (f_equal zoom (H ∅ None)).
Qed.

Lemma duringDrag_step dom props s0 ds ip s step :
  readOnly props = false →
  dragState s0 = Some ds →
  DragState.type ds = drag_entity →
  DragState.initialPositions ds = Some ip →
  duringDrag props s0 ds s →
  duringDrag props s0 ds (pointerStep dom props s step).
Proof.
  intros Hro Hds Hty Hip Hs.
  destruct (duringDrag_cells _ _ _ _ Hs) as [Hds' Hz'].
  destruct Hs as [Hcells Hraf].
  destruct step as [e|]; cbn [pointerStep].
  - unfold handleMouseMove. rewrite Hds', Hds. split.
    + intros U r. exact (Hcells U r).
    + intros f [= <-]. done.
  - unfold animationFrame. destruct (raf s) as [f|] eqn:Hf; [|split; [exact Hcells|by intros f; rewrite Hf]].
    destruct (Hraf f eq_refl) as [Hfd Hfr].
    erewrite frameCallback_entity; [|by rewrite Hfd|by rewrite Hfd|by rewrite Hfr].
    split.
    + intros U r. exact (Hcells U r).
    + intros f'. cbn [raf setDragUpdates setRaf]. done.
Qed.

Lemma duringDrag_steps dom props s0 ds ip steps :
  readOnly props = false →
  dragState s0 = Some ds →
  DragState.type ds = drag_entity →
  DragState.initialPositions ds = Some ip →
  raf s0 = None →
  duringDrag props s0 ds (foldl (pointerStep dom props) s0 steps).
Proof.
  intros Hro Hds Hty Hip Hraf.
  induction steps as [|step steps IH] using rev_ind.
  - split; [done|]. intros f. cbn [foldl]. by rewrite Hraf.
  - rewrite foldl_app. cbn [foldl]. by eapply duringDrag_step.
Qed.

(** X20.  Only the last rendered move of a drag counts.  Whatever moves and
    frames come between the press on an entity and the final move with its
    frame, the release makes the calls, and leaves the state, of the drag
    that has this final move alone: positions are computed from those
    captured at the press, never accumulated. *)
Theorem entityDrag_last_move_wins dom props st down id steps move n :
  readOnly props = false →
  truthy_str (connectingSource st) = false →
  isPanMode st = false →
  raf st = None →
  entityDragSteps dom props st down id (steps ++ [Move move; FrameTick]) n =
    entityDrag dom props st down id move n.
Proof.
  intros Hro Hconn Hpan Hraf.
  destruct (handleEntityMouseDown_drag props st down id n Hro Hconn Hpan)
    as (st1 & Hdown & Hds1 & _ & _).
  assert (Hraf1 : raf st1 = None).
  { revert Hdown. unfold handleEntityMouseDown. rewrite Hro, Hconn, Hpan.
    intros [= <-]. cbn [negb].
    by destruct (shiftKey down || ctrlKey down || metaKey down
                 || negb (bool_decide (id ∈ selectedEntityIds st))). }
  unfold entityDragSteps, entityDrag, mbind, Gen_bind. rewrite Hdown.
  rewrite foldl_app. cbn [foldl pointerStep].
  pose proof (duringDrag_steps dom props st1 _ _ steps Hro Hds1 eq_refl eq_refl Hraf1)
    as Hs.
  destruct (duringDrag_cells _ _ _ _ Hs) as [Hds' Hz'].
  erewrite (frame_step_entity dom props (foldl _ st1 steps));
    [|done|by rewrite Hds'|done|done].
  erewrite (frame_step_entity dom props st1); [|done..].
  rewrite Hz'. destruct Hs as [-> _]. reflexivity.
Qed.

(* ================================================================== *)
(** ** The minimap *)
(* ================================================================== *)

Lemma Math_min_of_le_last xs last : (Minimap.Math_min_of xs last <= last)%Q.
Proof.
  induction xs as [|x xs IH]; cbn [Minimap.Math_min_of foldr].
  - apply Qle_refl.
  - eapply Qle_trans; [apply Q.le_min_r|exact IH].
Qed.

Lemma Math_min_of_le_elem xs last x :
  x ∈ xs → (Minimap.Math_min_of xs last <= x)%Q.
Proof.
  induction xs as [|y xs IH]; intros Hx; [by apply elem_of_nil in Hx|].
  cbn [Minimap.Math_min_of foldr].
  apply elem_of_cons in Hx as [-> | Hx].
  - apply Q.le_min_l.
  - eapply Qle_trans; [apply Q.le_min_r|by apply IH].
Qed.

Lemma Math_max_of_ge_last xs last : (last <= Minimap.Math_max_of xs last)%Q.
Proof.
  induction xs as [|x xs IH]; cbn [Minimap.Math_max_of foldr].
  - apply Qle_refl.
  - eapply Qle_trans; [exact IH|apply Q.le_max_r].
Qed.

Lemma Math_max_of_ge_elem xs last x :
  x ∈ xs → (x <= Minimap.Math_max_of xs last)%Q.
Proof.
  induction xs as [|y xs IH]; intros Hx; [by apply elem_of_nil in Hx|].
  cbn [Minimap.Math_max_of foldr].
  apply elem_of_cons in Hx as [-> | Hx].
  - apply Q.le_max_l.
  - eapply Qle_trans; [by apply IH|apply Q.le_max_r].
Qed.

Lemma minimap_world_bounds p :
  (Minimap.minX p <= 0 ∧ Minimap.minY p <= 0
   ∧ 2000 <= Minimap.maxX p ∧ 2000 <= Minimap.maxY p)%Q.
Proof.
  repeat split.
  - apply Math_min_of_le_last.
  - apply Math_min_of_le_last.
  - apply Math_max_of_ge_last.
  - apply Math_max_of_ge_last.
Qed.

Lemma minimap_world_size p :
  (2500 <= Minimap.worldWidth p ∧ 2500 <= Minimap.worldHeight p)%Q.
Proof.
  destruct (minimap_world_bounds p) as (? & ? & ? & ?).
  unfold Minimap.worldWidth, Minimap.worldHeight. split; lra.
Qed.

Lemma minimap_scale_pos p :
  (0 < Minimap.scale p ∧ Minimap.scale p <= 3 # 50
   ∧ Minimap.worldWidth p * Minimap.scale p <= 150
   ∧ Minimap.worldHeight p * Minimap.scale p <= 150)%Q.
Proof.
  destruct (minimap_world_size p) as [Hw Hh].
  unfold Minimap.scale, Math_max.
  set (ww := Minimap.worldWidth p) in *. set (wh := Minimap.worldHeight p) in *.
  assert (HM : (2500 <= Qmax ww wh)%Q)
    by (eapply Qle_trans; [exact Hw|apply Q.le_max_l]).
  assert (Hww : (ww <= Qmax ww wh)%Q) by apply Q.le_max_l.
  assert (Hwh : (wh <= Qmax ww wh)%Q) by apply Q.le_max_r.
  set (M := Qmax ww wh) in *.
  assert (HM0 : (0 < M)%Q) by lra.
  assert (Hne : ¬ (M == 0)%Q) by lra.
  split; [|split; [|split]].
  - apply Qlt_shift_div_l; lra.
  - apply Qle_shift_div_r; lra.
  - assert (E : (ww * (150 / M) == (ww * 150) / M)%Q) by (field; exact Hne).
    rewrite E.
    apply Qle_shift_div_r; lra.
  - assert (E : (wh * (150 / M) == (wh * 150) / M)%Q) by (field; exact Hne).
    rewrite E.
    apply Qle_shift_div_r; lra.
Qed.

(** X21.  Whatever the entities, the minimap's scale is positive and at
    most 0.06, its surface is at most 150 high, and every entity of a
    rendered minimap is drawn inside the surface: its box starts at or after
    the left and top edges and ends within the 150 of the width and within
    the surface height.  One box is drawn per entity. *)
Theorem minimap_entities_inside p v :
  Minimap.render p = Some v →
  (0 < Minimap.scale p)%Q
  ∧ (Minimap.scale p <= 3 # 50)%Q
  ∧ (Minimap.surfaceHeight v <= 150)%Q
  ∧ length (Minimap.entityBoxes v) = length (Minimap.entities p)
  ∧ Forall (λ r, (0 <= rx r ∧ rx r + rw r <= 150
                  ∧ 0 <= ry r ∧ ry r + rh r <= Minimap.surfaceHeight v)%Q)
           (Minimap.entityBoxes v).
Proof.
  unfold Minimap.render.
  destruct (length (Minimap.entities p) =? 0)%nat; [done|]. intros [= <-].
  destruct (minimap_scale_pos p) as (Hpos & Hle & Hw & Hh).
  cbn [Minimap.surfaceHeight Minimap.entityBoxes].
  split; [done|]. split; [done|]. split; [done|].
  split; [by rewrite length_fmap|].
  apply Forall_fmap, Forall_forall. intros ent Hent.
  unfold compose. cbn [rx ry rw rh].
  assert (Hx1 : (Minimap.minX p <= EntityNode.x ent)%Q).
  { apply Math_min_of_le_elem, list_elem_of_fmap. by exists ent. }
  assert (Hy1 : (Minimap.minY p <= EntityNode.y ent)%Q).
  { apply Math_min_of_le_elem, list_elem_of_fmap. by exists ent. }
  assert (Hx2 : (EntityNode.x ent + 256 <= Minimap.maxX p)%Q).
  { apply Math_max_of_ge_elem, list_elem_of_fmap. by exists ent. }
  assert (Hy2 : (EntityNode.y ent + 200 <= Minimap.maxY p)%Q).
  { apply Math_max_of_ge_elem, list_elem_of_fmap. by exists ent. }
  unfold Minimap.worldWidth, Minimap.worldHeight in *.
  set (s := Minimap.scale p) in *.
  set (x := EntityNode.x ent) in *. set (y := EntityNode.y ent) in *.
  set (x0 := Minimap.minX p) in *. set (y0 := Minimap.minY p) in *.
  set (x1 := Minimap.maxX p) in *. set (y1 := Minimap.maxY p) in *.
  assert (Hm : ∀ a b, (a <= b)%Q → (a * s <= b * s)%Q).
  { intros a b Hab. apply Qmult_le_compat_r; [exact Hab|lra]. }
  pose proof (Hm 0 (x - x0) ltac:(lra))%Q as H1.
  pose proof (Hm 0 (y - y0) ltac:(lra))%Q as H2.
  pose proof (Hm (x - x0 + 256) (x1 - x0 + 500) ltac:(lra))%Q as H3.
  pose proof (Hm (y - y0 + 100) (y1 - y0 + 500) ltac:(lra))%Q as H4.
  repeat split; lra.
Qed.

(** X22.  A click on the minimap centres the view on the point clicked.
    With a non-zero zoom, after the offset the click asks for is set, the
    centre of the viewfinder is drawn at the point clicked, and the world
    point the canvas shows at the centre of its viewport is the world point
    clicked.  Nothing else of the canvas state changes and the viewfinder
    keeps its size. *)
Theorem minimap_click_centres props st vw vh rect e :
  ¬ (zoom st == 0)%Q →
  let p := minimapProps props st vw vh in
  ∃ view,
    Minimap.onClick p (Some rect) e = Some view
    ∧ let st' := onViewChange st view in
      let p' := minimapProps props st' vw vh in
      (Minimap.viewfinderX p' + Minimap.viewfinderW p' / 2
         == clientX e - rect_left rect)%Q
      ∧ (Minimap.viewfinderY p' + Minimap.viewfinderH p' / 2
           == clientY e - rect_top rect)%Q
      ∧ (toWorld (vw / 2) (px (offset st')) (zoom st')
           == (clientX e - rect_left rect) / Minimap.scale p + Minimap.minX p)%Q
      ∧ (toWorld (vh / 2) (py (offset st')) (zoom st')
           == (clientY e - rect_top rect) / Minimap.scale p + Minimap.minY p)%Q
      ∧ Minimap.viewfinderW p' = Minimap.viewfinderW p
      ∧ Minimap.viewfinderH p' = Minimap.viewfinderH p
      ∧ setOffset (offset st) st' = st.
Proof.
  intros Hz p. eexists. split; [reflexivity|].
  cbn zeta.
  destruct (minimap_scale_pos p) as (Hpos & _).
  assert (Hs : ¬ (Minimap.scale p == 0)%Q) by lra.
  unfold Minimap.viewfinderX, Minimap.viewfinderY, Minimap.viewfinderW,
    Minimap.viewfinderH, toWorld.
  change (Minimap.scale (minimapProps props (onViewChange st _) vw vh))
    with (Minimap.scale p).
  change (Minimap.minX (minimapProps props (onViewChange st _) vw vh))
    with (Minimap.minX p).
  change (Minimap.minY (minimapProps props (onViewChange st _) vw vh))
    with (Minimap.minY p).
  cbn [minimapProps onViewChange Minimap.viewX Minimap.viewY Minimap.zoom
       Minimap.containerWidth Minimap.containerHeight fst snd
       offset setOffset zoom px py].
  fold p.
  change (Minimap.zoom p) with (zoom st).
  change (Minimap.containerWidth p) with vw.
  change (Minimap.containerHeight p) with vh.
  generalize dependent (Minimap.scale p). intros s Hpos Hs.
  generalize (Minimap.minX p) (Minimap.minY p). intros x0 y0.
  split; [field; split; assumption|].
  split; [field; split; assumption|].
  split; [field; split; assumption|].
  split; [field; split; assumption|].
  split; [reflexivity|]. split; [reflexivity|].
  by destruct st.
Qed.

(** X23.  Dragging the viewfinder.  While the viewfinder is held, a pointer
    movement of (dx, dy) minimap pixels asks for the offset that moves the
    drawn viewfinder by exactly (dx, dy), at any non-zero zoom; its size
    stays.  When the viewfinder is not held, a movement makes no call. *)
Theorem minimap_drag_follows_pointer props st vw vh e :
  ¬ (zoom st == 0)%Q →
  let p := minimapProps props st vw vh in
  Minimap.handleMouseMove p false e = None
  ∧ ∃ view,
      Minimap.handleMouseMove p (Minimap.handleMouseDown false) e = Some view
      ∧ let p' := minimapProps props (onViewChange st view) vw vh in
        (Minimap.viewfinderX p' == Minimap.viewfinderX p + Minimap.movementX e)%Q
        ∧ (Minimap.viewfinderY p' == Minimap.viewfinderY p + Minimap.movementY e)%Q
        ∧ Minimap.viewfinderW p' = Minimap.viewfinderW p
        ∧ Minimap.viewfinderH p' = Minimap.viewfinderH p.
Proof.
  intros Hz p. split; [reflexivity|]. eexists. split; [reflexivity|].
  cbn zeta.
  destruct (minimap_scale_pos p) as (Hpos & _).
  assert (Hs : ¬ (Minimap.scale p == 0)%Q) by lra.
  unfold Minimap.viewfinderX, Minimap.viewfinderY, Minimap.viewfinderW,
    Minimap.viewfinderH.
  change (Minimap.scale (minimapProps props (onViewChange st _) vw vh))
    with (Minimap.scale p).
  change (Minimap.minX (minimapProps props (onViewChange st _) vw vh))
    with (Minimap.minX p).
  change (Minimap.minY (minimapProps props (onViewChange st _) vw vh))
    with (Minimap.minY p).
  cbn [minimapProps onViewChange Minimap.viewX Minimap.viewY Minimap.zoom
       Minimap.containerWidth Minimap.containerHeight fst snd
       offset setOffset zoom px py].
  fold p.
  change (Minimap.zoom p) with (zoom st).
  generalize dependent (Minimap.scale p). intros s Hpos Hs.
  generalize (Minimap.minX p) (Minimap.minY p). intros x0 y0.
  split; [field; split; assumption|].
  split; [field; split; assumption|].
  split; reflexivity.
Qed.

(* ================================================================== *)
(** ** The host: models, history, store *)
(* ================================================================== *)

Lemma find_model_id (l : list Model) id m :
  List.find (λ m, bool_decide (model_id m = id)) l = Some m → model_id m = id.
Proof.
  intros H. apply find_some in H as [_ H]. by apply bool_decide_eq_true in H.
Qed.

Lemma find_replace_same (l : list Model) id cur u :
  List.find (λ m, bool_decide (model_id m = id)) l = Some cur →
  model_id u = id →
  List.find (λ m, bool_decide (model_id m = id))
            ((λ m, if decide (model_id m = id) then u else m) <$> l) = Some u.
Proof.
  intros Hf Hu. induction l as [|x l IH]; [done|].
  rewrite fmap_cons. cbn [List.find] in *.
  destruct (decide (model_id x = id)) as [Hx|Hx].
  - by rewrite bool_decide_eq_true_2.
  - rewrite bool_decide_eq_false_2 in * by done. by apply IH.
Qed.

Lemma find_replace_other (l : list Model) id id' u :
  id' ≠ id →
  model_id u = id →
  List.find (λ m, bool_decide (model_id m = id'))
            ((λ m, if decide (model_id m = id) then u else m) <$> l)
  = List.find (λ m, bool_decide (model_id m = id')) l.
Proof.
  intros Hne Hu. induction l as [|x l IH]; [done|].
  rewrite fmap_cons. cbn [List.find].
  destruct (decide (model_id x = id)) as [Hx|Hx].
  - rewrite !bool_decide_eq_false_2 by congruence. exact IH.
  - by rewrite IH.
Qed.

Lemma mergeModel_partialOf cur c :
  mergeModel cur (partialOf c) =
    {| model_id := model_id cur;
       model_data := updateSelectedModel (model_data cur) c |}.
Proof. by destruct c. Qed.

Lemma selectedModel_inv a sm :
  selectedModel a = Some sm →
  selectedModelId a = Some (model_id sm)
  ∧ List.find (λ m, bool_decide (model_id m = model_id sm)) (models a) = Some sm.
Proof.
  unfold selectedModel. destruct (selectedModelId a) as [id|]; [|done].
  intros H. pose proof (find_model_id _ _ _ H) as <-. done.
Qed.

Lemma App_updateSelectedModel_eq render acc sm cur c :
  selectedModel render = Some sm →
  model_id sm ≠ "" →
  List.find (λ m, bool_decide (model_id m = model_id sm)) (models acc) = Some cur →
  App_updateSelectedModel render acc (partialOf c) true =
    {| models :=
         (λ m, if decide (model_id m = model_id sm)
               then mergeModel cur (partialOf c) else m) <$> models acc;
       selectedModelId := selectedModelId acc;
       historyStack := pushToHistory sm (historyStack acc);
       saveTimeoutRef := Some (model_id sm, partialOf c) |}.
Proof.
  intros Hsel Hne Hcur. unfold App_updateSelectedModel.
  destruct (selectedModel_inv _ _ Hsel) as [Hid _].
  rewrite Hsel, Hid. cbn [truthy_str default].
  change (Datatypes.id (model_id sm)) with (model_id sm).
  assert (String.eqb (model_id sm) "" = false) as -> by (by apply String.eqb_neq).
  cbn [negb]. by rewrite Hcur.
Qed.

Lemma hostCalls_fold render acc sm cur calls :
  selectedModel render = Some sm →
  model_id sm ≠ "" →
  List.find (λ m, bool_decide (model_id m = model_id sm)) (models acc) = Some cur →
  let acc' :=
    foldl (λ acc c, App_updateSelectedModel render acc (partialOf c) true) acc calls in
  List.find (λ m, bool_decide (model_id m = model_id sm)) (models acc') =
    Some {| model_id := model_id cur;
            model_data := commitAll (model_data cur) calls |}
  ∧ (∀ id', id' ≠ model_id sm →
       List.find (λ m, bool_decide (model_id m = id')) (models acc') =
       List.find (λ m, bool_decide (model_id m = id')) (models acc))
  ∧ selectedModelId acc' = selectedModelId acc
  ∧ length (models acc') = length (models acc)
  ∧ historyStack acc' =
      foldl (λ st _, pushToHistory sm st) (historyStack acc) calls
  ∧ saveTimeoutRef acc' =
      match last calls with
      | Some c => Some (model_id sm, partialOf c)
      | None => saveTimeoutRef acc
      end.
Proof.
  intros Hsel Hne. revert acc cur.
  induction calls as [|c calls IH]; intros acc cur Hcur acc'.
  - subst acc'. cbn [foldl commitAll last]. split; [by destruct cur as [? []]|]. done.
  - subst acc'. cbn [foldl].
    rewrite (App_updateSelectedModel_eq render acc sm cur c Hsel Hne Hcur).
    pose proof (find_model_id _ _ _ Hcur) as Hcid.
    set (acc1 := mkApp _ _ _ _).
    assert (Hcur1 : List.find (λ m, bool_decide (model_id m = model_id sm)) (models acc1)
                    = Some (mergeModel cur (partialOf c))).
    { subst acc1. cbn [models]. by eapply find_replace_same. }
    destruct (IH acc1 _ Hcur1) as (Hf & Hother & Hid & Hlen & Hhist & Hsave).
    split; [|split; [|split; [|split; [|split]]]].
    + rewrite Hf. by rewrite mergeModel_partialOf.
    + intros id' Hid'. rewrite (Hother id' Hid'). subst acc1. cbn [models].
      by apply find_replace_other.
    + by rewrite Hid.
    + rewrite Hlen. subst acc1. cbn [models]. by rewrite length_fmap.
    + by rewrite Hhist.
    + rewrite Hsave. subst acc1. cbn [saveTimeoutRef].
      destruct calls as [|c' calls']; [done|].
      change (last (c :: c' :: calls')) with (last (c' :: calls')).
      destruct (last (c' :: calls')) eqn:E; [done|]. by apply last_None in E.
Qed.

(** X24.  The calls of a canvas handler reach the selected model only, in
    order.  When the selected model has a non-empty identifier, after the
    host has received the calls the selected model holds what the calls,
    applied one after the other, make of it; a lookup of any other
    identifier gives what it gave before; the selection and the number of
    models are unchanged. *)
Theorem hostCalls_selected_model_only a sm calls :
  selectedModel a = Some sm →
  model_id sm ≠ "" →
  selectedModel (hostCalls a calls) =
    Some {| model_id := model_id sm;
            model_data := commitAll (model_data sm) calls |}
  ∧ (∀ id', id' ≠ model_id sm →
       List.find (λ m, bool_decide (model_id m = id')) (models (hostCalls a calls)) =
       List.find (λ m, bool_decide (model_id m = id')) (models a))
  ∧ selectedModelId (hostCalls a calls) = selectedModelId a
  ∧ length (models (hostCalls a calls)) = length (models a).
Proof.
  intros Hsel Hne.
  destruct (selectedModel_inv _ _ Hsel) as [Hid Hfind].
  destruct (hostCalls_fold a a sm sm calls Hsel Hne Hfind)
    as (Hf & Hother & Hsid & Hlen & _ & _).
  fold (hostCalls a calls) in *.
  assert (Hsm : selectedModel (hostCalls a calls) =
                Some {| model_id := model_id sm;
                        model_data := commitAll (model_data sm) calls |}).
  { unfold selectedModel. by rewrite Hsid, Hid. }
  split; [exact Hsm|]. split; [exact Hother|]. split; [exact Hsid|].
  exact Hlen.
Qed.

Lemma pushToHistory_eq model prev :
  pushToHistory model prev =
    drop (S (length prev) - 20) (prev ++ [snapshotOf model]).
Proof.
  unfold pushToHistory. fold (snapshotOf model).
  rewrite length_app. cbn [length]. rewrite Nat.add_1_r.
  destruct (20 <? S (length prev))%nat eqn:Hlt; [done|].
  apply Nat.ltb_ge in Hlt. by replace (S (length prev) - 20)%nat with 0%nat by lia.
Qed.

Lemma pushToHistory_length model prev :
  length (pushToHistory model prev) = (S (length prev) `min` 20)%nat
  ∧ (length (pushToHistory model prev) ≤ 20)%nat.
Proof.
  rewrite pushToHistory_eq, length_drop, length_app. cbn [length]. lia.
Qed.

Lemma pushToHistory_iter model prev (calls : list Commit) :
  (length prev ≤ 20)%nat →
  foldl (λ st _, pushToHistory model st) prev calls =
    drop (length prev + length calls - 20)
         (prev ++ replicate (length calls) (snapshotOf model)).
Proof.
  revert prev. induction calls as [|c calls IH]; intros prev Hlen.
  - cbn [foldl length replicate]. rewrite app_nil_r.
    by replace (length prev + 0 - 20)%nat with 0%nat by lia.
  - cbn [foldl length]. rewrite IH by apply pushToHistory_length.
    rewrite pushToHistory_eq, length_drop, length_app. cbn [length].
    rewrite <- drop_app_le by (rewrite length_app; cbn [length]; lia).
    rewrite drop_drop, <- app_assoc. cbn [app replicate].
    f_equal. lia.
Qed.

(** X25.  The undo history.  Each call of a handler records the same
    snapshot, the model as the canvas was mounted with it, so a handler
    that makes two calls records it twice; the stack keeps its last 20
    entries and is never longer. *)
Theorem hostCalls_history a sm calls :
  selectedModel a = Some sm →
  model_id sm ≠ "" →
  (length (historyStack a) ≤ 20)%nat →
  historyStack (hostCalls a calls) =
    drop (length (historyStack a) + length calls - 20)
         (historyStack a ++ replicate (length calls) (snapshotOf sm))
  ∧ (length (historyStack (hostCalls a calls)) ≤ 20)%nat.
Proof.
  intros Hsel Hne Hlen.
  destruct (selectedModel_inv _ _ Hsel) as [Hid Hfind].
  destruct (hostCalls_fold a a sm sm calls Hsel Hne Hfind)
    as (_ & _ & _ & _ & Hhist & _).
  fold (hostCalls a calls) in *.
  rewrite Hhist, pushToHistory_iter by done.
  split; [done|].
  rewrite length_drop, length_app, length_replicate. lia.
Qed.

Lemma handleUndo_eq a sm0 cur l :
  selectedModelId a = Some (model_id sm0) →
  model_id sm0 ≠ "" →
  List.find (λ m, bool_decide (model_id m = model_id sm0)) (models a) = Some cur →
  historyStack a = l ++ [snapshotOf sm0] →
  selectedModel (handleUndo a a) = Some sm0
  ∧ selectedModelId (handleUndo a a) = Some (model_id sm0)
  ∧ historyStack (handleUndo a a) = l
  ∧ saveTimeoutRef (handleUndo a a) = Some (model_id sm0, wholeOf sm0).
Proof.
  intros Hid Hne Hcur Hst. unfold handleUndo.
  rewrite Hid, Hst. cbn [truthy_str default].
  change (Datatypes.id (model_id sm0)) with (model_id sm0).
  assert (String.eqb (model_id sm0) "" = false) as -> by (by apply String.eqb_neq).
  rewrite length_app. cbn [length negb orb].
  replace (length l + 1 =? 0)%nat with false by (symmetry; apply Nat.eqb_neq; lia).
  rewrite last_snoc. cbn [snapshotOf modelId data].
  rewrite decide_True by done.
  unfold selectedModel.
  cbn [triggerSave setSaveTimeoutRef setHistoryStack setModels models selectedModelId
       historyStack saveTimeoutRef].
  rewrite Hid, Hst.
  split; [by eapply find_replace_same|]. split; [done|]. split; [|done].
  rewrite length_app. cbn [length].
  replace (length l + 1 - 1)%nat with (length l) by lia.
  by rewrite take_app_length.
Qed.

(** X26.  Undo after a handler.  When a handler of the canvas has made
    [k >= 1] calls and the history had room for them, each of the next [k]
    presses of undo puts the selected model back to what it was before the
    handler and removes one entry: the first press restores the model, the
    others change nothing of it, and after the [k]-th the history is as
    before the handler.  Each press asks for a save of the whole restored
    model. *)
Theorem undo_after_handler a sm calls j :
  selectedModel a = Some sm →
  model_id sm ≠ "" →
  (length (historyStack a) + length calls ≤ 20)%nat →
  (1 ≤ j ≤ length calls)%nat →
  selectedModel (undos j (hostCalls a calls)) = Some sm
  ∧ historyStack (undos j (hostCalls a calls)) =
      historyStack a ++ replicate (length calls - j) (snapshotOf sm)
  ∧ saveTimeoutRef (undos j (hostCalls a calls)) = Some (model_id sm, wholeOf sm).
Proof.
  intros Hsel Hne Hroom Hj.
  destruct (selectedModel_inv _ _ Hsel) as [Hid Hfind].
  destruct (hostCalls_fold a a sm sm calls Hsel Hne Hfind)
    as (Hf & _ & Hsid & _ & Hhist & _).
  fold (hostCalls a calls) in *.
  rewrite pushToHistory_iter in Hhist by lia.
  replace (length (historyStack a) + length calls - 20)%nat with 0%nat in Hhist by lia.
  rewrite drop_0 in Hhist. rewrite Hid in Hsid.
  set (a1 := hostCalls a calls) in *.
  (* the first press *)
  assert (H1 : selectedModel (undos 1 a1) = Some sm
               ∧ selectedModelId (undos 1 a1) = Some (model_id sm)
               ∧ historyStack (undos 1 a1) =
                   historyStack a ++ replicate (length calls - 1) (snapshotOf sm)
               ∧ saveTimeoutRef (undos 1 a1) = Some (model_id sm, wholeOf sm)).
  { cbn [undos Nat.iter]. eapply handleUndo_eq; [done|done|exact Hf|].
    rewrite Hhist. destruct (length calls) as [|k] eqn:Hk; [lia|].
    rewrite replicate_S_end, app_assoc. do 3 f_equal. lia. }
  clear Hf Hhist.
  destruct Hj as [Hj1 Hj2].
  induction j as [|j IH]; [lia|].
  destruct (decide (j = 0%nat)) as [->|Hj0].
  { destruct H1 as (? & ? & ? & ?). done. }
  destruct IH as (Hm & Hst & Hsv); [lia|lia|].
  assert (Hidj : selectedModelId (undos j a1) = Some (model_id sm)).
  { revert Hm. unfold selectedModel.
    destruct (selectedModelId (undos j a1)) as [i|]; [|done].
    intros Hm. by rewrite (find_model_id _ _ _ Hm). }
  assert (Hfj : List.find (λ m, bool_decide (model_id m = model_id sm))
                          (models (undos j a1)) = Some sm).
  { revert Hm. unfold selectedModel. by rewrite Hidj. }
  change (undos (S j) a1) with (handleUndo (undos j a1) (undos j a1)).
  destruct (handleUndo_eq (undos j a1) sm sm
              (historyStack a ++ replicate (length calls - S j) (snapshotOf sm))
              Hidj Hne Hfj) as (R1 & _ & R3 & R4); [|done].
  rewrite Hst. replace (length calls - j)%nat with (S (length calls - S j)) by lia.
  by rewrite replicate_S_end, app_assoc.
Qed.

Lemma api_find_list_find (dbStore : list Model) id :
  api_fetchModelById dbStore id = snd <$> list_find (λ m, model_id m = id) dbStore.
Proof.
  unfold api_fetchModelById. induction dbStore as [|x l IH]; [done|].
  cbn [List.find list_find]. destruct (decide (model_id x = id)) as [Hx|Hx].
  - by rewrite bool_decide_eq_true_2.
  - rewrite bool_decide_eq_false_2 by done. rewrite IH.
    by destruct (list_find _ l) as [[i y]|].
Qed.

Lemma api_updateModel_spec (dbStore : list Model) id updates :
  match api_fetchModelById dbStore id with
  | None => api_updateModel dbStore id updates = None
  | Some found =>
    ∃ db', api_updateModel dbStore id updates = Some db'
           ∧ api_fetchModelById db' id = Some (mergeModel found updates)
           ∧ (∀ id', id' ≠ id →
                api_fetchModelById db' id' = api_fetchModelById dbStore id')
           ∧ length db' = length dbStore
  end.
Proof.
  unfold api_updateModel, api_fetchModelById.
  induction dbStore as [|x l IH]; [done|].
  cbn [List.find list_find]. destruct (decide (model_id x = id)) as [Hx|Hx].
  - rewrite bool_decide_eq_true_2 by done. cbn [fmap option_fmap option_map].
    eexists. split; [reflexivity|].
    change (<[0%nat:=mergeModel x updates]> (x :: l)) with (mergeModel x updates :: l).
    cbn [List.find mergeModel model_id length].
    rewrite bool_decide_eq_true_2 by done. split; [done|]. split; [|done].
    intros id' Hid'. by rewrite !bool_decide_eq_false_2 by congruence.
  - rewrite bool_decide_eq_false_2 by done.
    destruct (List.find _ l) as [found|] eqn:Hfound.
    + destruct IH as (db' & Hup & Hf & Hother & Hlen).
      destruct (list_find _ l) as [[i y]|] eqn:Hlf; [|done].
      cbn [fmap option_fmap option_map] in *. injection Hup as <-.
      eexists. split; [reflexivity|].
      cbn [fst snd]. change (Datatypes.id y) with y.
      change (<[S i:=mergeModel y updates]> (x :: l))
        with (x :: <[i:=mergeModel y updates]> l).
      cbn [List.find length].
      rewrite bool_decide_eq_false_2 by done. split; [exact Hf|]. split.
      * intros id' Hid'. rewrite (Hother id' Hid'). done.
      * by rewrite Hlen.
    + destruct (list_find _ l) as [[i y]|] eqn:Hlf; [done|]. done.
Qed.

(** X27.  The store.  [updateModel] throws exactly when [fetchModelById]
    finds nothing under the identifier; otherwise a fetch of the identifier
    then returns the model found merged with the updates, fetches of other
    identifiers return what they did, and the store has as many models as
    before.  After [deleteModel] a fetch of the identifier finds nothing and
    other identifiers are found as before.  A model created under an
    identifier the store does not hold is fetched back. *)
Theorem api_store_round_trips (dbStore : list Model) id :
  (∀ updates,
     (api_updateModel dbStore id updates = None ↔ api_fetchModelById dbStore id = None)
     ∧ ∀ found db',
         api_fetchModelById dbStore id = Some found →
         api_updateModel dbStore id updates = Some db' →
         api_fetchModelById db' id = Some (mergeModel found updates)
         ∧ (∀ id', id' ≠ id →
              api_fetchModelById db' id' = api_fetchModelById dbStore id')
         ∧ length db' = length dbStore)
  ∧ api_fetchModelById (api_deleteModel dbStore id) id = None
  ∧ (∀ id', id' ≠ id →
       api_fetchModelById (api_deleteModel dbStore id) id'
       = api_fetchModelById dbStore id')
  ∧ (∀ model, model_id model = id →
       api_fetchModelById dbStore id = None →
       api_fetchModelById (api_createModel dbStore model) id = Some model).
Proof.
  split; [|split; [|split]].
  - intros updates. pose proof (api_updateModel_spec dbStore id updates) as H.
    destruct (api_fetchModelById dbStore id) as [found|].
    + destruct H as (db' & Hup & Hrest). split.
      * split; [by rewrite Hup|done].
      * intros found' db'' [= <-]. rewrite Hup. intros [= <-]. exact Hrest.
    + split; [done|]. intros found db' [=].
  - unfold api_fetchModelById, api_deleteModel.
    induction dbStore as [|x l IH]; [done|].
    destruct (decide (model_id x = id)) as [Hx|Hx].
    + by rewrite filter_cons_False by (intros H; by apply H).
    + rewrite filter_cons_True by done. cbn [List.find].
      by rewrite bool_decide_eq_false_2.
  - intros id' Hid'. unfold api_fetchModelById, api_deleteModel.
    induction dbStore as [|x l IH]; [done|].
    destruct (decide (model_id x = id)) as [Hx|Hx].
    + rewrite filter_cons_False by (intros H; by apply H). cbn [List.find].
      by rewrite bool_decide_eq_false_2 by congruence.
    + rewrite filter_cons_True by done. cbn [List.find]. by rewrite IH.
  - intros model Hm. unfold api_fetchModelById, api_createModel.
    induction dbStore as [|x l IH]; cbn [List.find app].
    + by rewrite bool_decide_eq_true_2.
    + destruct (bool_decide (model_id x = id)); [done|]. exact IH.
Qed.

(** X28.  What a delete saves.  A delete on the canvas makes two calls and
    each call replaces the pending save, so when the timeout fires only the
    entities are saved: the stored model, which was the selected model
    before, has the pruned entities and the relationships as they were.  If
    one of them referenced a deleted entity the stored model has a dangling
    relationship, while the model on screen has none of them.  The save an
    undo asks for writes the whole model back. *)
Theorem delete_saves_entities_only a sm st dbStore :
  selectedModel a = Some sm →
  model_id sm ≠ "" →
  selectedEntityIds st ≠ ∅ →
  api_fetchModelById dbStore (model_id sm) = Some sm →
  let sel := selectedEntityIds st in
  let calls := (handleDeleteSelectedEntities (canvasProps (model_data sm)) st).2 in
  let a1 := hostCalls a calls in
  let saved := saveTimeoutFires a1 dbStore in
  let undone := saveTimeoutFires (handleUndo saved.1 saved.1) saved.2 in
  api_fetchModelById saved.2 (model_id sm) =
    Some {| model_id := model_id sm;
            model_data :=
              {| m_type := m_type (model_data sm);
                 m_entities :=
                   filter (λ e, EntityNode.id e ∉ sel) (m_entities (model_data sm));
                 m_relationships := m_relationships (model_data sm) |} |}
  ∧ saveTimeoutRef saved.1 = None
  ∧ ((∃ r, r ∈ m_relationships (model_data sm)
           ∧ (Relationship.sourceId r ∈ sel ∨ Relationship.targetId r ∈ sel)) →
     ∃ stored, api_fetchModelById saved.2 (model_id sm) = Some stored
               ∧ entitiesGoneRelsRemain sel (model_data stored))
  ∧ (∃ shown, selectedModel a1 = Some shown
              ∧ ∀ r, r ∈ m_relationships (model_data shown) →
                     (Relationship.sourceId r ∉ sel) ∧ (Relationship.targetId r ∉ sel))
  ∧ api_fetchModelById undone.2 (model_id sm) = Some sm.
Proof.
  intros Hsel Hne Hnonempty Hdb sel calls a1 saved undone.
  destruct (selectedModel_inv _ _ Hsel) as [Hid Hfind].
  assert (Hcalls : calls =
            [onRelationshipsChange
               (filter (λ r, (Relationship.sourceId r ∉ sel)
                             ∧ (Relationship.targetId r ∉ sel))
                       (m_relationships (model_data sm)));
             onEntitiesChange
               (filter (λ e, EntityNode.id e ∉ sel) (m_entities (model_data sm)))]).
  { subst calls. by rewrite handleDeleteSelectedEntities_eq. }
  destruct (hostCalls_fold a a sm sm calls Hsel Hne Hfind)
    as (Hf & _ & Hsid & _ & Hhist & Hsave).
  fold (hostCalls a calls) in *. fold a1 in Hf, Hsid, Hhist, Hsave.
  rewrite Hcalls in Hsave. cbn [last partialOf] in Hsave.
  assert (Hsaved : saved =
            (setSaveTimeoutRef None a1,
             default dbStore
               (api_updateModel dbStore (model_id sm)
                  {| p_entities :=
                       Some (filter (λ e, EntityNode.id e ∉ sel)
                                    (m_entities (model_data sm)));
                     p_relationships := None |}))).
  { subst saved. unfold saveTimeoutFires. by rewrite Hsave. }
  pose proof (api_updateModel_spec dbStore (model_id sm)
                {| p_entities :=
                     Some (filter (λ e, EntityNode.id e ∉ sel)
                                  (m_entities (model_data sm)));
                   p_relationships := None |}) as Hup.
  rewrite Hdb in Hup. destruct Hup as (db' & Hup & Hfetch & _ & _).
  rewrite Hup in Hsaved. cbn [default] in Hsaved.
  change (Datatypes.id db') with db' in Hsaved.
  assert (Hshown : selectedModel a1 =
                   Some {| model_id := model_id sm;
                           model_data := commitAll (model_data sm) calls |}).
  { unfold selectedModel. by rewrite Hsid, Hid. }
  assert (Hstack : historyStack a1 ≠ [] ∧ last (historyStack a1) = Some (snapshotOf sm)).
  { rewrite Hhist, Hcalls. cbn [foldl]. rewrite !pushToHistory_eq.
    set (l1 := drop _ (historyStack a ++ _)).
    assert (Hlast : last (drop (S (length l1) - 20) (l1 ++ [snapshotOf sm]))
                    = Some (snapshotOf sm)).
    { rewrite drop_app_le by lia. apply last_snoc. }
    split; [|exact Hlast]. intros Hnil. by rewrite Hnil in Hlast. }
  rewrite Hsaved. cbn [fst snd].
  split; [exact Hfetch|]. split; [done|]. split; [|split].
  - intros (r & Hr & Href). eexists. split; [exact Hfetch|].
    cbn [mergeModel model_data m_entities m_relationships default p_entities
         p_relationships]. split.
    + intros e He. by apply list_elem_of_filter in He as [? _].
    + by exists r.
  - eexists. split; [exact Hshown|]. rewrite Hcalls.
    cbn [model_data commitAll foldl updateSelectedModel m_relationships].
    intros r Hr. by apply list_elem_of_filter in Hr as [? _].
  - subst undone. rewrite Hsaved. cbn [fst snd].
    destruct Hstack as [Hnonnil Hlast].
    destruct (exists_last Hnonnil) as (l & x & Hl).
    assert (x = snapshotOf sm) as ->.
    { rewrite Hl, last_snoc in Hlast. by injection Hlast. }
    set (a2 := setSaveTimeoutRef None a1).
    destruct (handleUndo_eq a2 sm
                {| model_id := model_id sm;
                   model_data := commitAll (model_data sm) calls |} l)
      as (_ & _ & _ & Hsv); [by rewrite <- Hid, <- Hsid|done| |exact Hl|].
    { cbn [a2 models setSaveTimeoutRef]. exact Hf. }
    unfold saveTimeoutFires. rewrite Hsv. cbn [snd].
    pose proof (api_updateModel_spec db' (model_id sm) (wholeOf sm)) as Hup2.
    rewrite Hfetch in Hup2. destruct Hup2 as (db2 & Hup2 & Hfetch2 & _).
    rewrite Hup2. cbn [default]. change (Datatypes.id db2) with db2.
    rewrite Hfetch2. by destruct sm as [i [t es rs]].
Qed.

(* ================================================================== *)
(** ** Auto layout *)
(* ================================================================== *)

Lemma foldl_visitOutgoing_queue c lv q outgoing :
  (foldl (visitOutgoing c) (lv, q) outgoing).2 = q ++ (Relationship.targetId <$> outgoing).
Proof.
  revert lv q. induction outgoing as [|r l IH]; intros lv q.
  - cbn [foldl fmap list_fmap snd]. by rewrite app_nil_r.
  - cbn [foldl]. unfold visitOutgoing at 2. cbn [fst snd].
    rewrite IH, fmap_cons, <- app_assoc. done.
Qed.

Lemma filter_unvisited_split (V : gset string) c (rels : list Relationship.t) :
  c ∉ V →
  length (filter (λ r, Relationship.sourceId r ∉ V) rels) =
    (length (filter (λ r, Relationship.sourceId r ∉ {[c]} ∪ V) rels)
     + length (filter (λ r, Relationship.sourceId r = c) rels))%nat.
Proof.
  intros Hc. induction rels as [|r l IH]; [done|].
  destruct (decide (Relationship.sourceId r = c)) as [Heq|Hne].
  - rewrite (filter_cons_True (λ r, Relationship.sourceId r ∉ V)) by (by rewrite Heq).
    rewrite (filter_cons_False (λ r, Relationship.sourceId r ∉ {[c]} ∪ V)).
    2:{ intros Hn. apply Hn, elem_of_union_l, elem_of_singleton. done. }
    rewrite (filter_cons_True (λ r, Relationship.sourceId r = c)) by done.
    cbn [length]. lia.
  - rewrite (filter_cons_False (λ r, Relationship.sourceId r = c)) by done.
    destruct (decide (Relationship.sourceId r ∈ V)) as [Hin|Hnin].
    + rewrite (filter_cons_False (λ r, Relationship.sourceId r ∉ V)) by (intros H; by apply H).
      rewrite (filter_cons_False (λ r, Relationship.sourceId r ∉ {[c]} ∪ V)).
      2:{ intros Hn. apply Hn, elem_of_union_r. done. }
      exact IH.
    + rewrite (filter_cons_True (λ r, Relationship.sourceId r ∉ V)) by done.
      rewrite (filter_cons_True (λ r, Relationship.sourceId r ∉ {[c]} ∪ V)).
      2:{ intros [Hs%elem_of_singleton|Hv]%elem_of_union; done. }
      cbn [length]. lia.
Qed.

Lemma layoutIteration_measure rels s s' :
  layoutIteration rels s = Some s' →
  layoutMeasure rels s = S (layoutMeasure rels s').
Proof.
  unfold layoutIteration, layoutMeasure.
  destruct (queue s) as [|c rest] eqn:Hq; [done|].
  destruct (decide (c ∈ visited s)) as [Hin|Hnin]; intros [= <-]; cbn [queue visited].
  - done.
  - rewrite foldl_visitOutgoing_queue, length_app, length_fmap.
    rewrite (filter_unvisited_split (visited s) c rels Hnin). cbn [length]. lia.
Qed.

Lemma layoutIteration_None rels s :
  layoutIteration rels s = None ↔ queue s = [].
Proof.
  unfold layoutIteration. destruct (queue s) as [|c rest]; [done|].
  destruct (decide (c ∈ visited s)); split; intros H; discriminate H.
Qed.

Lemma layoutLoop_done fuel rels s :
  (layoutMeasure rels s ≤ fuel)%nat → queue (layoutLoop fuel rels s) = [].
Proof.
  revert s. induction fuel as [|fuel IH]; intros s Hm.
  - cbn [layoutLoop]. unfold layoutMeasure in Hm.
    destruct (queue s); [done|]. cbn [length] in Hm. lia.
  - cbn [layoutLoop]. destruct (layoutIteration rels s) as [s'|] eqn:Hit.
    + apply IH. apply layoutIteration_measure in Hit. lia.
    + by apply (layoutIteration_None rels s).
Qed.

Lemma layoutLoop_invariant (I : LayoutState → Prop) fuel rels s :
  (∀ s s', I s → layoutIteration rels s = Some s' → I s') →
  I s → I (layoutLoop fuel rels s).
Proof.
  intros Hstep. revert s. induction fuel as [|fuel IH]; intros s Hs; [done|].
  cbn [layoutLoop]. destruct (layoutIteration rels s) as [s'|] eqn:Hit; [|done].
  apply IH. by eapply Hstep.
Qed.

Lemma initialLayout_measure entities rels :
  (layoutMeasure rels (initialLayout entities rels) ≤ length entities + length rels)%nat.
Proof.
  unfold layoutMeasure, initialLayout. cbn [queue visited].
  rewrite length_fmap.
  apply Nat.add_le_mono; apply length_filter.
Qed.

Lemma layoutResult_done entities rels : queue (layoutResult entities rels) = [].
Proof. apply layoutLoop_done, initialLayout_measure. Qed.

Lemma initialRecord_lookup entities k :
  initialRecord entities !! k =
    if decide (k ∈ EntityNode.id <$> entities) then Some 0%nat else None.
Proof.
  unfold initialRecord.
  assert (H : ∀ (m : gmap string nat),
            foldl (λ record e, <[EntityNode.id e := 0%nat]> record) m entities !! k =
              if decide (k ∈ EntityNode.id <$> entities) then Some 0%nat else m !! k).
  { induction entities as [|e l IH]; intros m; [done|].
    cbn [foldl]. rewrite IH, fmap_cons.
    destruct (decide (k ∈ EntityNode.id <$> l)) as [Hin|Hnin].
    - rewrite decide_True by (by right). done.
    - destruct (decide (k = EntityNode.id e)) as [->|Hne].
      + rewrite lookup_insert_eq, decide_True by left. done.
      + rewrite lookup_insert_ne by done.
        rewrite decide_False; [done|].
        intros [?|?]%elem_of_cons; done. }
  rewrite H. by destruct (decide _).
Qed.

Lemma orZero_initialRecord entities k : orZero (initialRecord entities) k = 0%nat.
Proof.
  unfold orZero. rewrite initialRecord_lookup. by destruct (decide _).
Qed.

Lemma inDegree_root entities rels k :
  k ∈ EntityNode.id <$> entities →
  isRoot rels k →
  inDegree entities rels !! k = Some 0%nat.
Proof.
  intros Hk Hroot. unfold inDegree.
  assert (H0 : initialRecord entities !! k = Some 0%nat).
  { rewrite initialRecord_lookup. by rewrite decide_True. }
  revert H0. generalize (initialRecord entities).
  induction rels as [|r l IH]; intros d Hd; [done|].
  cbn [foldl]. apply IH.
  - intros r' Hr'. apply Hroot. by right.
  - rewrite lookup_insert_ne; [done|]. apply Hroot. left.
Qed.

Lemma orZero_insert lv k v k' :
  orZero (<[k := v]> lv) k' = if decide (k = k') then v else orZero lv k'.
Proof.
  unfold orZero. destruct (decide (k = k')) as [->|Hne].
  - by rewrite lookup_insert_eq.
  - by rewrite lookup_insert_ne.
Qed.

Lemma foldl_visitOutgoing_levels c lv q outgoing :
  let lv' := (foldl (visitOutgoing c) (lv, q) outgoing).1 in
  (∀ k, (orZero lv k ≤ orZero lv' k)%nat)
  ∧ (∀ r, r ∈ outgoing → (1 ≤ orZero lv' (Relationship.targetId r))%nat)
  ∧ (∀ k, orZero lv' k ≠ 0%nat →
          orZero lv k ≠ 0%nat ∨ ∃ r, r ∈ outgoing ∧ Relationship.targetId r = k).
Proof.
  induction outgoing as [|r l IH] using rev_ind.
  - cbn [foldl fst]. split; [done|]. split; [|by left].
    intros r Hr. by apply elem_of_nil in Hr.
  - rewrite foldl_app. cbn [foldl].
    destruct IH as (Hmono & Hone & Hsrc).
    set (lv1 := (foldl (visitOutgoing c) (lv, q) l).1) in *.
    assert (E : (visitOutgoing c (foldl (visitOutgoing c) (lv, q) l) r).1 =
                <[Relationship.targetId r :=
                    Nat.max (orZero lv1 (Relationship.targetId r)) (orZero lv1 c + 1)]>
                  lv1) by reflexivity.
    rewrite E. clear E.
    split; [|split].
    + intros k. rewrite orZero_insert. destruct (decide _) as [<-|_]; [|done].
      pose proof (Hmono (Relationship.targetId r)). lia.
    + intros r' [Hr'|Hr']%elem_of_app.
      * rewrite orZero_insert. destruct (decide _) as [Heq|_].
        -- lia.
        -- by apply Hone.
      * apply list_elem_of_singleton in Hr' as ->.
        rewrite orZero_insert, decide_True by done. lia.
    + intros k. rewrite orZero_insert. destruct (decide _) as [<-|_].
      * intros _. right. exists r. split; [|done].
        apply elem_of_app. right. apply list_elem_of_here.
      * intros Hk. destruct (Hsrc k Hk) as [?|(r' & Hr' & Ht)]; [by left|].
        right. exists r'. split; [|done]. apply elem_of_app. by left.
Qed.

(** Only identifiers a relationship leads to are ever given a level other
    than 0. *)
Lemma layoutResult_levels_targets entities rels k :
  orZero (levels (layoutResult entities rels)) k ≠ 0%nat →
  ∃ r, r ∈ rels ∧ Relationship.targetId r = k.
Proof.
  revert k. unfold layoutResult.
  apply (layoutLoop_invariant
           (λ s, ∀ k, orZero (levels s) k ≠ 0%nat →
                      ∃ r, r ∈ rels ∧ Relationship.targetId r = k)).
  - intros s s' Hs. unfold layoutIteration.
    destruct (queue s) as [|c rest]; [done|].
    destruct (decide (c ∈ visited s)); intros [= <-]; cbn [levels]; [exact Hs|].
    intros k Hk.
    destruct (foldl_visitOutgoing_levels c (levels s) rest
                (filter (λ r, Relationship.sourceId r = c) rels)) as (_ & _ & Hsrc).
    destruct (Hsrc k Hk) as [H0|(r & Hr & Ht)]; [by apply Hs|].
    exists r. split; [|done]. by apply list_elem_of_filter in Hr as [_ ?].
  - intros k. cbn [initialLayout levels]. by rewrite orZero_initialRecord.
Qed.

(** Once the loop has ended every root has been visited, and the targets
    of a visited identifier are at level 1 or more. *)
Lemma layoutResult_visited entities rels :
  let s := layoutResult entities rels in
  (∀ e, e ∈ entities → isRoot rels (EntityNode.id e) → EntityNode.id e ∈ visited s)
  ∧ (∀ r, r ∈ rels → Relationship.sourceId r ∈ visited s →
          (1 ≤ orZero (levels s) (Relationship.targetId r))%nat).
Proof.
  cbn zeta.
  pose proof (layoutResult_done entities rels) as Hdone.
  assert (Hinv :
    (∀ e, e ∈ entities → isRoot rels (EntityNode.id e) →
          EntityNode.id e ∈ queue (layoutResult entities rels)
          ∨ EntityNode.id e ∈ visited (layoutResult entities rels))
    ∧ (∀ r, r ∈ rels → Relationship.sourceId r ∈ visited (layoutResult entities rels) →
            (1 ≤ orZero (levels (layoutResult entities rels))
                        (Relationship.targetId r))%nat)).
  { unfold layoutResult.
    apply (layoutLoop_invariant
             (λ s, (∀ e, e ∈ entities → isRoot rels (EntityNode.id e) →
                         EntityNode.id e ∈ queue s ∨ EntityNode.id e ∈ visited s)
                   ∧ (∀ r, r ∈ rels → Relationship.sourceId r ∈ visited s →
                           (1 ≤ orZero (levels s) (Relationship.targetId r))%nat))).
    - intros s s' [Hroots Hvis]. unfold layoutIteration.
      destruct (queue s) as [|c rest] eqn:Hq; [done|].
      destruct (decide (c ∈ visited s)) as [Hin|Hnin]; intros [= <-];
        cbn [queue visited levels].
      + split; [|exact Hvis].
        intros e He Hroot. destruct (Hroots e He Hroot) as [[->|?]%elem_of_cons|?]; auto.
      + destruct (foldl_visitOutgoing_levels c (levels s) rest
                    (filter (λ r, Relationship.sourceId r = c) rels))
          as (Hmono & Hone & _).
        split.
        * intros e He Hroot.
          destruct (Hroots e He Hroot) as [[->|Hrest]%elem_of_cons|Hv].
          -- right. apply elem_of_union_l, elem_of_singleton. done.
          -- left. rewrite foldl_visitOutgoing_queue. apply elem_of_app. by left.
          -- right. by apply elem_of_union_r.
        * intros r Hr [Hc%elem_of_singleton|Hv]%elem_of_union.
          -- apply Hone. apply list_elem_of_filter. done.
          -- eapply Nat.le_trans; [by apply Hvis|apply Hmono].
    - cbn [initialLayout queue visited levels]. split.
      + intros e He Hroot. left. apply list_elem_of_fmap. exists e. split; [done|].
        apply list_elem_of_filter. split; [|done].
        apply inDegree_root; [|done]. apply list_elem_of_fmap. by exists e.
      + intros r _ Hr. by apply not_elem_of_empty in Hr. }
  destruct Hinv as [Hroots Hvis]. split; [|exact Hvis].
  intros e He Hroot. destruct (Hroots e He Hroot) as [Hq|Hv]; [|done].
  rewrite Hdone in Hq. by apply elem_of_nil in Hq.
Qed.

Lemma nodesByLevel_elem_of lv entities i e :
  entities !! i = Some e →
  i ∈ default [] (nodesByLevel lv entities !! levelOf lv e).
Proof.
  unfold nodesByLevel. revert i e.
  induction entities as [|x l IH] using rev_ind; intros i e Hi; [done|].
  rewrite imap_app, foldl_app. cbn [imap foldl fst snd].
  rewrite Nat.add_0_r.
  set (m := foldl _ ∅ (imap pair l)) in *.
  destruct (decide (i < length l)%nat) as [Hlt|Hge].
  - rewrite lookup_app_l in Hi by done. specialize (IH i e Hi).
    destruct (decide (levelOf lv x = levelOf lv e)) as [Heq|Hne].
    + rewrite Heq, lookup_insert_eq. cbn [default]. apply elem_of_app. by left.
    + by rewrite lookup_insert_ne.
  - apply lookup_lt_Some in Hi as Hlen. rewrite length_app in Hlen. cbn [length] in Hlen.
    assert (i = length l) as -> by lia.
    rewrite list_lookup_middle in Hi by done. injection Hi as <-.
    rewrite lookup_insert_eq. cbn [default]. apply elem_of_app. right.
    apply list_elem_of_here.
Qed.

Lemma indexOf_found (l : list nat) i :
  i ∈ l → ∃ k, indexOf l i = Z.of_nat k ∧ l !! k = Some i.
Proof.
  intros Hi. unfold indexOf.
  destruct (list_find_elem_of (λ j, j = i) l i Hi eq_refl) as [[k x] Hf].
  rewrite Hf. exists k. split; [done|].
  apply list_find_Some in Hf as (Hk & -> & _). done.
Qed.

Lemma indexOf_inj (l : list nat) i j :
  i ∈ l → j ∈ l → indexOf l i = indexOf l j → i = j.
Proof.
  intros Hi Hj Heq.
  destruct (indexOf_found l i Hi) as (k & Hk & Hlk).
  destruct (indexOf_found l j Hj) as (k' & Hk' & Hlk').
  rewrite Hk, Hk' in Heq. apply Nat2Z.inj in Heq as <-. congruence.
Qed.

Lemma grid_coordinate_inj (a b : Z) (step : Q) :
  ¬ (step == 0)%Q →
  (100 + inject_Z a * step == 100 + inject_Z b * step)%Q → a = b.
Proof.
  intros Hstep Heq.
  assert (H : (inject_Z a * step == inject_Z b * step)%Q) by lra.
  apply Qmult_inj_r in H; [|done].
  unfold Qeq, inject_Z in H. cbn in H. lia.
Qed.

(** X29.  Auto layout ends and puts the entities on distinct cells of a
    grid.  The loop has emptied its queue within the turns given to it; the
    result has the entities in their order, each with its identifier, name,
    attributes, size, collapse flag and colour, only [x] and [y] being
    replaced; and no two of them receive the same position. *)
Theorem autoLayout_distinct_cells entities rels :
  queue (layoutResult entities rels) = []
  ∧ length (autoLayout entities rels) = length entities
  ∧ Forall2 (λ e e', ∃ x y, e' = withPosition x y e) entities (autoLayout entities rels)
  ∧ ∀ i j e e',
      autoLayout entities rels !! i = Some e →
      autoLayout entities rels !! j = Some e' →
      (EntityNode.x e == EntityNode.x e')%Q →
      (EntityNode.y e == EntityNode.y e')%Q →
      i = j.
Proof.
  split; [apply layoutResult_done|].
  unfold autoLayout. cbn zeta.
  set (lv := levels (layoutResult entities rels)).
  split; [by rewrite length_imap|]. split.
  - apply Forall2_same_length_lookup. split; [by rewrite length_imap|].
    intros i e e' He. rewrite list_lookup_imap, He. intros [= <-]. eauto.
  - intros i j e e'. rewrite !list_lookup_imap.
    destruct (entities !! i) as [ei|] eqn:Hi; [|done].
    destruct (entities !! j) as [ej|] eqn:Hj; [|done].
    intros [= <-] [= <-]. cbn [withPosition EntityNode.x EntityNode.y].
    intros Hx Hy.
    apply grid_coordinate_inj in Hx; [|discriminate].
    apply Nat2Z.inj in Hx.
    apply grid_coordinate_inj in Hy; [|discriminate].
    rewrite <- Hx in Hy.
    eapply indexOf_inj; [| |exact Hy].
    + by apply nodesByLevel_elem_of.
    + rewrite Hx. by apply nodesByLevel_elem_of.
Qed.

(** X30.  Roots go to the first column, what they lead to goes further
    right.  An entity no relationship leads to is placed at [x = 100]; the
    entity a relationship leads to from such a root is placed at
    [x >= 450]. *)
Theorem autoLayout_roots_first_column entities rels i e :
  autoLayout entities rels !! i = Some e →
  isRoot rels (EntityNode.id e) →
  (EntityNode.x e == 100)%Q
  ∧ ∀ r j e',
      r ∈ rels →
      Relationship.sourceId r = EntityNode.id e →
      autoLayout entities rels !! j = Some e' →
      Relationship.targetId r = EntityNode.id e' →
      (450 <= EntityNode.x e')%Q.
Proof.
  unfold autoLayout. cbn zeta.
  set (lv := levels (layoutResult entities rels)).
  rewrite list_lookup_imap.
  destruct (entities !! i) as [ei|] eqn:Hi; [|done].
  intros [= <-]. cbn [withPosition EntityNode.x EntityNode.id]. intros Hroot.
  split.
  - assert (levelOf lv ei = 0%nat) as ->; [|reflexivity].
    unfold levelOf. destruct (decide (orZero lv (EntityNode.id ei) = 0%nat)) as [|Hne];
      [done|].
    destruct (layoutResult_levels_targets entities rels _ Hne) as (r & Hr & Ht).
    by destruct (Hroot r Hr).
  - intros r j e' Hr Hsrc. rewrite list_lookup_imap.
    destruct (entities !! j) as [ej|] eqn:Hj; [|done].
    intros [= <-]. cbn [withPosition EntityNode.x EntityNode.id]. intros Htgt.
    destruct (layoutResult_visited entities rels) as [Hroots Hvis].
    assert (Hlvl : (1 ≤ levelOf lv ej)%nat).
    { unfold levelOf. rewrite <- Htgt. apply Hvis; [done|].
      rewrite Hsrc. apply Hroots; [|done]. by eapply list_elem_of_lookup_2. }
    assert (Hq : (1 <= inject_Z (Z.of_nat (levelOf lv ej)))%Q).
    { rewrite <- (Zle_Qle 1). lia. }
    lra.
Qed.

(** [handleAutoLayout] is one call of the host's update, with the laid
    out entities. *)
Lemma handleAutoLayout_hostCalls a sm :
  selectedModel a = Some sm →
  handleAutoLayout a a =
    hostCalls a
      [onEntitiesChange
         (autoLayout (m_entities (model_data sm)) (m_relationships (model_data sm)))].
Proof. intros Hsel. unfold handleAutoLayout. by rewrite Hsel. Qed.

End Canvas.

(* ================================================================== *)
(** ** The theorems on the sample data *)
(* ================================================================== *)

Lemma handleWheel_anchor_preserving_witness :
  wheelZooms dom0 initialState wheelIn
  ∧ ¬ (zoom initialState == 0)%Q
  ∧ (toWorld (anchorX dom0 wheelIn)
       (px (offset (handleWheel pow_int dom0 initialState wheelIn)))
       (zoom (handleWheel pow_int dom0 initialState wheelIn))
     == toWorld (anchorX dom0 wheelIn) (px (offset initialState))
          (zoom initialState))%Q.
Proof.
  assert (Hw : wheelZooms dom0 initialState wheelIn).
  { split; [by eexists|reflexivity]. }
  assert (Hz : ¬ (zoom initialState == 0)%Q).
  { intros H. discriminate H. }
  split; [exact Hw|]. split; [exact Hz|].
  exact (proj1 (handleWheel_anchor_preserving pow_int dom0 initialState wheelIn Hw Hz)).
Defined.

Lemma stSelected_nonempty : selectedEntityIds stSelected ≠ ∅.
Proof.
  change (selectedEntityIds stSelected) with ({["e1"]} : gset string).
  intros H. apply (not_elem_of_empty (C:=gset string) "e1").
  rewrite <- H. apply elem_of_singleton_2. reflexivity.
Defined.

Lemma delete_selected_entities_prunes_witness :
  selectedEntityIds stSelected ≠ ∅
  ∧ ∀ r, r ∈ m_relationships
               (commitAll model0
                  (handleDeleteSelectedEntities (canvasProps model0) stSelected).2) →
         (Relationship.sourceId r ∉ selectedEntityIds stSelected)
         ∧ (Relationship.targetId r ∉ selectedEntityIds stSelected).
Proof.
  split; [exact stSelected_nonempty|].
  exact (proj1 (delete_selected_entities_prunes model0 stSelected stSelected_nonempty)).
Defined.



Lemma marquee_release_union_witness :
  dragState stMarquee = Some marqueeDrag
  ∧ DragState.type marqueeDrag = drag_selection
  ∧ selectionBox stMarquee = Some marqueeBox
  ∧ selectedEntityIds stMarquee
      ⊆ selectedEntityIds (handleMouseUp (canvasProps model0) stMarquee).1
  ∧ "e1" ∈ selectedEntityIds (handleMouseUp (canvasProps model0) stMarquee).1.
Proof.
  split; [reflexivity|]. split; [reflexivity|]. split; [reflexivity|].
  destruct (marquee_release_union (canvasProps model0) stMarquee marqueeDrag marqueeBox
              eq_refl eq_refl eq_refl) as (Hiff & Hsub & _).
  split; [exact Hsub|].
  apply Hiff. right. exists E1.
  split; [apply list_elem_of_here|]. split; [reflexivity|].
  unfold boxIntersects. vm_compute. repeat split; discriminate.
Defined.

Lemma model0_NoDup : NoDup (EntityNode.id <$> m_entities model0).
Proof.
  cbn. apply NoDup_cons. split.
  - intros Hin. apply list_elem_of_singleton in Hin. discriminate Hin.
  - apply NoDup_singleton.
Defined.

Lemma entity_drag_commits_witness :
  truthy_str (connectingSource stZoom2) = false
  ∧ isPanMode stZoom2 = false
  ∧ NoDup (EntityNode.id <$> m_entities model0)
  ∧ (zoom stZoom2 == 2)%Q
  ∧ (clientX moveBy100 - clientX press == 100)%Q
  ∧ (clientY moveBy100 - clientY press == -40)%Q
  ∧ ∃ e',
      e' ∈ m_entities
             (commitAll model0
                (entityDrag sample_random_id dom0 (canvasProps model0) stZoom2
                   press "e1" moveBy100 0%nat).1.2)
      ∧ EntityNode.id e' = "e1"
      ∧ (EntityNode.x e' == 150)%Q
      ∧ (EntityNode.y e' == 80)%Q.
Proof.
  split; [reflexivity|]. split; [reflexivity|]. split; [exact model0_NoDup|].
  split; [reflexivity|]. split; [reflexivity|]. split; [reflexivity|].
  destruct (entity_drag_commits sample_random_id dom0 model0 stZoom2
              press "e1" moveBy100 0%nat
              eq_refl eq_refl model0_NoDup)
    as (_ & _ & _ & _ & Hcap & _ & _ & Hscenario).
  apply (Hscenario E1).
  - apply list_elem_of_here.
  - apply Hcap. reflexivity.
  - reflexivity.
  - reflexivity.
  - reflexivity.
  - reflexivity.
Defined.

Lemma model0_noDangling : noDangling model0.
Proof.
  intros r Hr. apply list_elem_of_singleton in Hr. subst r. split.
  - apply list_elem_of_here.
  - apply list_elem_of_further, list_elem_of_here.
Defined.

Lemma resize_commits_clamped_witness :
  isPanMode stSelectedZoom2 = false
  ∧ "e1" ≠ ""
  ∧ List.find (λ en, bool_decide (EntityNode.id en = "e1")) (m_entities model0)
      = Some E1
  ∧ (zoom stSelectedZoom2 == 2)%Q
  ∧ (clientX moveShrinkZoomed - clientX pressHandle == -352)%Q
  ∧ (rw (getEntityRect LOGICAL "" E1) == 256)%Q
  ∧ ∃ newW newH,
      (resizeDrag dom0 (canvasProps model0) stSelectedZoom2 pressHandle "e1"
         moveShrinkZoomed).2 =
        [onEntitiesChange
           ((λ e, if decide (EntityNode.id e = "e1")
                  then resizedTo newW newH e else e) <$> m_entities model0)]
      ∧ (newW == 150)%Q
      ∧ (80 <= newH)%Q.
Proof.
  assert (Hid : "e1" ≠ "") by discriminate.
  split; [reflexivity|]. split; [exact Hid|]. split; [reflexivity|].
  split; [reflexivity|]. split; [reflexivity|]. split; [reflexivity|].
  destruct (resize_commits_clamped dom0 model0 stSelectedZoom2 pressHandle "e1"
              moveShrinkZoomed E1 eq_refl Hid eq_refl)
    as (newW & newH & Hcalls & _ & _ & _ & HH & H80 & _).
  exists newW, newH. split; [exact Hcalls|]. split; [|exact HH].
  apply H80. reflexivity.
Defined.

Lemma getEntityRect_eight_attributes_witness :
  LOGICAL ≠ CONCEPTUAL
  ∧ EntityNode.width E8 = None
  ∧ EntityNode.height E8 = None
  ∧ length (EntityNode.attributes E8) = 8%nat
  ∧ EntityNode.collapsed E8 = false
  ∧ getEntityRect LOGICAL "" E8 = {| rx := 0; ry := 0; rw := 256; rh := 260 |}.
Proof.
  assert (Hmt : LOGICAL ≠ CONCEPTUAL) by discriminate.
  split; [exact Hmt|]. split; [reflexivity|]. split; [reflexivity|].
  split; [reflexivity|]. split; [reflexivity|].
  exact (proj1 (getEntityRect_eight_attributes LOGICAL E8 Hmt
                  eq_refl eq_refl eq_refl eq_refl)).
Defined.

(* ================================================================== *)
(** ** Where the specification and the code part *)
(* ================================================================== *)

(** Bernoulli's inequality, to bound [1.001 ^ n] without computing it. *)
Lemma Qpower_bernoulli (n : nat) (x : Q) :
  (0 <= x)%Q →
  (1 + inject_Z (Z.of_nat n) * x <= Qpower (1 + x) (Z.of_nat n))%Q.
Proof.
  intros Hx. induction n as [|n IH].
  - change (Z.of_nat 0) with 0%Z. change (Qpower (1 + x) 0) with 1%Q.
    change (inject_Z 0) with 0%Q. lra.
  - rewrite Nat2Z.inj_succ, <- Z.add_1_r, inject_Z_plus.
    rewrite Qpower_plus by lra.
    change (Qpower (1 + x) 1) with (1 + x)%Q.
    change (inject_Z 1) with 1%Q.
    assert (Hn : (0 <= inject_Z (Z.of_nat n))%Q).
    { change 0%Q with (inject_Z 0). rewrite <- Zle_Qle. lia. }
    set (k := inject_Z (Z.of_nat n)) in *.
    set (p := Qpower (1 + x) (Z.of_nat n)) in *.
    assert (H1 : ((1 + k * x) * (1 + x) <= p * (1 + x))%Q).
    { apply Qmult_le_compat_r; [exact IH|lra]. }
    assert (H2 : (0 <= k * x * x)%Q).
    { apply Qmult_le_0_compat; [apply Qmult_le_0_compat|]; assumption. }
    lra.
Qed.

Lemma Qpower_bernoulli_Z (z : Z) (x : Q) :
  (0 <= z)%Z → (0 <= x)%Q → (1 + inject_Z z * x <= Qpower (1 + x) z)%Q.
Proof.
  intros Hz Hx. rewrite <- (Z2Nat.id z Hz). by apply Qpower_bernoulli.
Qed.

Lemma wheelFarOut_scale : (pow_int (1 + 0.001) (- deltaY wheelFarOut) <= 0.1)%Q.
Proof.
  unfold pow_int.
  change (Qfloor (- deltaY wheelFarOut)) with (Z.opp 9000).
  rewrite Qpower_opp.
  pose proof (Qpower_bernoulli_Z 9000 0.001 ltac:(lia) ltac:(lra)) as Hb.
  set (p := Qpower (1 + 0.001) 9000) in *.
  assert (H10 : (10 <= p)%Q).
  { eapply Qle_trans; [|exact Hb]. apply Qle_bool_iff. reflexivity. }
  apply Qle_shift_inv_r; lra.
Qed.

Lemma wheelFarIn_scale : (5 <= pow_int (1 + 0.001) (- deltaY wheelFarIn))%Q.
Proof.
  unfold pow_int.
  change (Qfloor (- deltaY wheelFarIn)) with 4000%Z.
  eapply Qle_trans; [|apply (Qpower_bernoulli_Z 4000 0.001); [lia|lra]].
  apply Qle_bool_iff. reflexivity.
Qed.

Lemma wheelFarOut_zoom :
  (zoom (zoomSteps pow_int initialState [Wheel dom0 wheelFarOut]) == 0.1)%Q.
Proof.
  change (zoomSteps pow_int initialState [Wheel dom0 wheelFarOut])
    with (handleWheel pow_int dom0 initialState wheelFarOut).
  rewrite (handleWheel_zoom_branch pow_int dom0 initialState wheelFarOut
             (mkDOMRect 10 20) eq_refl eq_refl).
  change (zoom initialState) with 1%Q.
  set (sf := pow_int (1 + 0.001) (- deltaY wheelFarOut)).
  pose proof wheelFarOut_scale as Hsf. fold sf in Hsf.
  change (Math_max 0.1 (Math_min 5 (1 * sf)) == 0.1)%Q.
  unfold Math_max. apply Q.max_l.
  eapply Qle_trans; [apply Math_min_ub_r|]. lra.
Qed.

Lemma wheelFarIn_zoom :
  (zoom (zoomSteps pow_int initialState [Wheel dom0 wheelFarIn]) == 5)%Q.
Proof.
  change (zoomSteps pow_int initialState [Wheel dom0 wheelFarIn])
    with (handleWheel pow_int dom0 initialState wheelFarIn).
  rewrite (handleWheel_zoom_branch pow_int dom0 initialState wheelFarIn
             (mkDOMRect 10 20) eq_refl eq_refl).
  change (zoom initialState) with 1%Q.
  set (sf := pow_int (1 + 0.001) (- deltaY wheelFarIn)).
  pose proof wheelFarIn_scale as Hsf. fold sf in Hsf.
  change (Math_max 0.1 (Math_min 5 (1 * sf)) == 5)%Q.
  unfold Math_max, Math_min.
  assert (Hmin : (Qmin 5 (1 * sf) == 5)%Q) by (apply Q.min_l; lra).
  rewrite Hmin. reflexivity.
Qed.

(** C9, as stated, fails.  The wheel takes the zoom from 1 down to 0.1;
    from there the zoom-in button gives 0.2, below 0.5.  The wheel takes the
    zoom up to 5; from there the zoom-out button gives 4.9, above 2. *)
Lemma toolbar_zoom_leaves_range :
  let low := zoomSteps pow_int initialState [Wheel dom0 wheelFarOut] in
  let high := zoomSteps pow_int initialState [Wheel dom0 wheelFarIn] in
  (zoom low == 0.1)%Q
  ∧ (zoom (zoomInButton low) == 0.2)%Q
  ∧ ¬ (0.5 <= zoom (zoomInButton low) <= 2)%Q
  ∧ (zoom high == 5)%Q
  ∧ (zoom (zoomOutButton high) == 4.9)%Q
  ∧ ¬ (0.5 <= zoom (zoomOutButton high) <= 2)%Q.
Proof.
  cbv zeta.
  set (low := zoomSteps pow_int initialState [Wheel dom0 wheelFarOut]).
  set (high := zoomSteps pow_int initialState [Wheel dom0 wheelFarIn]).
  pose proof wheelFarOut_zoom as Hlow. fold low in Hlow.
  pose proof wheelFarIn_zoom as Hhigh. fold high in Hhigh.
  assert (Hin : (zoom (zoomInButton low) == 0.2)%Q).
  { rewrite zoomInButton_zoom. unfold Math_min. rewrite Hlow. reflexivity. }
  assert (Hout : (zoom (zoomOutButton high) == 4.9)%Q).
  { rewrite zoomOutButton_zoom. unfold Math_max. rewrite Hhigh. reflexivity. }
  split; [exact Hlow|]. split; [exact Hin|].
  split; [rewrite Hin; intros [Hlo _]; lra|].
  split; [exact Hhigh|]. split; [exact Hout|].
  rewrite Hout. intros [_ Hhi]. lra.
Qed.




(* ================================================================== *)
(** ** Ports, routing, geometry and gestures on the sample data *)
(* ================================================================== *)

Lemma hypot_sq_order : hypotOrder hypot_sq.
Proof. intros a b c d. reflexivity. Qed.

Lemma getBestConnection_closest_witness :
  hypotOrder hypot_sq
  ∧ c_start (getBestConnection hypot_sq LOGICAL "" E1 E2)
      ∈ portValues (getPorts (getEntityRect LOGICAL "" E1))
  ∧ (sqDist (c_start (getBestConnection hypot_sq LOGICAL "" E1 E2))
            (c_end (getBestConnection hypot_sq LOGICAL "" E1 E2))
     <= sqDist (p_top (getPorts (getEntityRect LOGICAL "" E1)))
               (p_top (getPorts (getEntityRect LOGICAL "" E2))))%Q.
Proof.
  split; [exact hypot_sq_order|].
  destruct (getBestConnection_closest hypot_sq LOGICAL "" E1 E2 hypot_sq_order)
    as (Hs & _ & Hmin).
  split; [exact Hs|].
  apply Hmin; apply list_elem_of_here.
Defined.

Lemma getBestConnection_symmetric_cost_witness :
  hypotOrder hypot_sq
  ∧ (sqDist (c_start (getBestConnection hypot_sq LOGICAL "" E1 E2))
            (c_end (getBestConnection hypot_sq LOGICAL "" E1 E2))
     == sqDist (c_start (getBestConnection hypot_sq LOGICAL "" E2 E1))
               (c_end (getBestConnection hypot_sq LOGICAL "" E2 E1)))%Q.
Proof.
  split; [exact hypot_sq_order|].
  exact (getBestConnection_symmetric_cost hypot_sq LOGICAL "" E1 E2 hypot_sq_order).
Defined.

Lemma getPathData_step_orthogonal_witness :
  Relationship.lineStyle R1 = step
  ∧ orthogonalChain (cmdPoint <$> path (getPathData hypot_sq LOGICAL "" R1 E1 E2)).
Proof.
  split; [reflexivity|].
  destruct (getPathData_step_orthogonal hypot_sq LOGICAL "" R1 E1 E2 eq_refl)
    as (_ & H & _).
  exact H.
Defined.

Lemma getEntityRect_never_degenerate_witness :
  truthy (EntityNode.width E1) && truthy (EntityNode.height E1) = false
  ∧ (160 <= rw (getEntityRect LOGICAL "" E1))%Q
  ∧ (48 <= rh (getEntityRect LOGICAL "" E1))%Q.
Proof.
  split; [reflexivity|].
  destruct (getEntityRect_never_degenerate LOGICAL "" E1 eq_refl) as (Hw & Hh & _).
  split; [exact Hw|exact Hh].
Defined.

Lemma model0_no_explicit_size ent :
  ent ∈ entities (canvasProps model0) →
  EntityNode.width ent = None ∧ EntityNode.height ent = None.
Proof.
  cbn [entities canvasProps model0 m_entities]. intros Hin.
  apply elem_of_cons in Hin as [-> | Hin]; [done|].
  apply elem_of_cons in Hin as [-> | Hin]; [done|].
  by apply elem_of_nil in Hin.
Qed.

Lemma marquee_selects_touching_boxes_witness :
  dragState stMarquee = Some marqueeDrag
  ∧ DragState.type marqueeDrag = drag_selection
  ∧ selectionBox stMarquee = Some marqueeBox
  ∧ "e1" ∈ selectedEntityIds (handleMouseUp (canvasProps model0) stMarquee).1.
Proof.
  split; [reflexivity|]. split; [reflexivity|]. split; [reflexivity|].
  apply (marquee_selects_touching_boxes (canvasProps model0) stMarquee
           marqueeDrag marqueeBox eq_refl eq_refl eq_refl).
  - intros ent w Hin Hw.
    destruct (model0_no_explicit_size ent Hin) as [Hnone _]. congruence.
  - intros ent h Hin Hh.
    destruct (model0_no_explicit_size ent Hin) as [_ Hnone]. congruence.
  - right. exists E1. split; [apply list_elem_of_here|]. split; [reflexivity|].
    exists 110%Q, 110%Q. vm_compute. repeat split; discriminate.
Defined.

Lemma release_commits_rendered_witness :
  dragState stDragging = Some dragE1
  ∧ DragState.type dragE1 = drag_entity
  ∧ effectiveEntities (canvasProps model0)
      (handleMouseUp (canvasProps model0) stDragging).1
    = entities (canvasProps model0).
Proof.
  split; [reflexivity|]. split; [reflexivity|].
  destruct (release_commits_rendered (canvasProps model0) stDragging dragE1
              eq_refl (or_introl eq_refl)) as [_ H].
  exact H.
Defined.

Lemma panDrag_moves_offset_only_witness :
  startsPan stPan press = true
  ∧ offset (panDrag dom0 (canvasProps model0) stPan press moveBy50).1
    = {| px := px (offset stPan) + (clientX moveBy50 - clientX press);
         py := py (offset stPan) + (clientY moveBy50 - clientY press) |}
  ∧ (panDrag dom0 (canvasProps model0) stPan press moveBy50).2 = [].
Proof.
  split; [reflexivity|].
  destruct (panDrag_moves_offset_only dom0 (canvasProps model0) stPan press moveBy50
              eq_refl) as (Hout & Hoff & _).
  split; [exact Hoff|exact Hout].
Defined.

Lemma modifier_press_toggles_witness :
  readOnly (canvasProps model0) = false
  ∧ truthy_str (connectingSource stSelected) = false
  ∧ shiftKey shiftPress || ctrlKey shiftPress || metaKey shiftPress = true
  ∧ selectedEntityIds
      (handleEntityMouseDown sample_random_id (canvasProps model0)
         (handleEntityMouseDown sample_random_id (canvasProps model0)
            stSelected shiftPress "e2" 0%nat).1.1
         shiftPress "e2" 0%nat).1.1
    = selectedEntityIds stSelected.
Proof.
  split; [reflexivity|]. split; [reflexivity|]. split; [reflexivity|].
  destruct (modifier_press_toggles sample_random_id (canvasProps model0) stSelected
              shiftPress "e2" 0%nat eq_refl eq_refl eq_refl) as (_ & _ & H & _).
  exact H.
Defined.

Lemma backgroundClick_selects_under_pointer_witness :
  startsPan initialState pressOnE1 = false
  ∧ boundingClientRect dom0 = Some (mkDOMRect 10 20)
  ∧ "e1" ∈ selectedEntityIds
             (backgroundClick dom0 (canvasProps model0) initialState pressOnE1).1
  ∧ (backgroundClick dom0 (canvasProps model0) initialState pressOnE1).2 = [].
Proof.
  split; [reflexivity|]. split; [reflexivity|].
  destruct (backgroundClick_selects_under_pointer dom0 (canvasProps model0)
              initialState pressOnE1 (mkDOMRect 10 20)
              eq_refl eq_refl eq_refl eq_refl eq_refl) as (Hsel & _ & Hout & _).
  split; [|exact Hout].
  apply Hsel. exists E1. split; [apply list_elem_of_here|]. split; [reflexivity|].
  vm_compute. repeat split; discriminate.
Defined.

(* ================================================================== *)
(** ** Keyboard and connection on the sample data *)
(* ================================================================== *)

Lemma readOnly_keyboard_and_press_inert_witness :
  readOnly readOnlyProps = true
  ∧ handleDeleteSelectedEntities readOnlyProps stSelected = (stSelected, [])
  ∧ (handleKeyDown sample_random_id dom0 readOnlyProps stClipboard ctrlV 0%nat).1.2 = [].
Proof.
  split; [reflexivity|].
  split.
  - destruct (readOnly_keyboard_and_press_inert sample_random_id dom0 readOnlyProps
                stSelected 0%nat eq_refl) as (_ & H & _).
    exact H.
  - destruct (readOnly_keyboard_and_press_inert sample_random_id dom0 readOnlyProps
                stClipboard 0%nat eq_refl) as (H & _).
    exact (proj1 (H ctrlV)).
Defined.

Lemma input_focus_suppresses_keys_witness :
  activeElementTag domInput = Some "INPUT"
  ∧ (handleKeyDown sample_random_id domInput (canvasProps model0) stSelected
       deleteKey 0%nat).1.2 = []
  ∧ selectedEntityIds
      (handleKeyDown sample_random_id domInput (canvasProps model0) stSelected
         deleteKey 0%nat).1.1 = selectedEntityIds stSelected.
Proof.
  split; [reflexivity|].
  destruct (input_focus_suppresses_keys sample_random_id domInput (canvasProps model0)
              stSelected deleteKey 0%nat eq_refl) as [H _].
  destruct (H (or_introl eq_refl)) as (Hout & Hsel & _).
  split; [exact Hout|exact Hsel].
Defined.

Lemma stSelected_in_model0 :
  filter (λ ent, EntityNode.id ent ∈ selectedEntityIds stSelected)
         (entities (canvasProps model0)) ≠ [].
Proof. vm_compute. discriminate. Qed.

Lemma copy_then_paste_witness :
  k_ctrlKey ctrlC || k_metaKey ctrlC = true
  ∧ key ctrlC = "c"
  ∧ key ctrlV = "v"
  ∧ (handleKeyDown sample_random_id dom0 (canvasProps model0) stSelected ctrlC 0%nat).1.2
    = []
  ∧ ∃ st' clones n',
      twoKeys sample_random_id dom0 (canvasProps model0) stSelected ctrlC ctrlV 0%nat =
        ((st', [onEntitiesChange (entities (canvasProps model0) ++ clones)]), n')
      ∧ Forall2 cloneOf
          (filter (λ ent, EntityNode.id ent ∈ selectedEntityIds stSelected)
                  (entities (canvasProps model0)))
          clones
      ∧ selectedEntityIds st' = list_to_set (EntityNode.id <$> clones)
      ∧ (0 ≤ n')%nat.
Proof.
  split; [reflexivity|]. split; [reflexivity|]. split; [reflexivity|].
  destruct (copy_then_paste sample_random_id dom0 (canvasProps model0) stSelected
              ctrlC ctrlV 0%nat eq_refl eq_refl eq_refl eq_refl eq_refl
              stSelected_in_model0) as (Hcopy & _ & _ & _ & Hpaste).
  split; [exact Hcopy|exact Hpaste].
Defined.

Lemma dom0_no_input : activeElementTag dom0 ≠ Some "INPUT".
Proof. discriminate. Qed.

Lemma delete_key_dispatch_witness :
  readOnly (canvasProps model0) = false
  ∧ key deleteKey = "Delete"
  ∧ selectedEntityIds
      (handleKeyDown sample_random_id dom0 (canvasProps model0) stSelected
         deleteKey 0%nat).1.1 = ∅
  ∧ (handleKeyDown sample_random_id dom0 (canvasProps model0) stSelected
       deleteKey 0%nat).2 = 0%nat.
Proof.
  split; [reflexivity|]. split; [reflexivity|].
  destruct (delete_key_dispatch sample_random_id dom0 (canvasProps model0) stSelected
              deleteKey 0%nat eq_refl dom0_no_input (or_introl eq_refl))
    as (Hn & Hents & _).
  destruct (Hents stSelected_nonempty) as (_ & Hsel & _).
  split; [exact Hsel|exact Hn].
Defined.

Lemma model0_has_entities : m_entities model0 ≠ [].
Proof. discriminate. Qed.

Lemma select_all_then_delete_witness :
  k_ctrlKey ctrlA || k_metaKey ctrlA = true
  ∧ key ctrlA = "a"
  ∧ m_entities
      (commitAll model0
         (twoKeys sample_random_id dom0 (canvasProps model0) initialState
            ctrlA deleteKey 0%nat).1.2) = []
  ∧ m_relationships
      (commitAll model0
         (twoKeys sample_random_id dom0 (canvasProps model0) initialState
            ctrlA deleteKey 0%nat).1.2) = [].
Proof.
  split; [reflexivity|]. split; [reflexivity|].
  destruct (select_all_then_delete sample_random_id model0 dom0 initialState
              ctrlA deleteKey 0%nat eq_refl eq_refl (or_introl eq_refl)
              dom0_no_input model0_has_entities) as (_ & Hents & Hrels & _).
  split; [exact Hents|exact (Hrels model0_noDangling)].
Defined.

Lemma e1_not_empty : "e1" ≠ "".
Proof. discriminate. Qed.

Lemma e1_not_e2 : "e1" ≠ "e2".
Proof. discriminate. Qed.

Lemma connect_adds_relationship_witness :
  ∃ rel,
    handleEntityMouseDown sample_random_id (canvasProps model0)
      (connectClick initialState "e1") press "e2" 0%nat =
      ((setConnectingSource None (connectClick initialState "e1"),
        [onRelationshipsChange (m_relationships model0 ++ [rel])]), 1%nat)
    ∧ Relationship.sourceId rel = "e1"
    ∧ Relationship.targetId rel = "e2".
Proof.
  destruct (connect_adds_relationship sample_random_id model0 initialState press
              "e1" "e2" 0%nat e1_not_empty) as (_ & H & _).
  destruct (H e1_not_e2) as (rel & Heq & _ & Hs & Ht & _).
  exists rel. split; [exact Heq|]. split; [exact Hs|exact Ht].
Defined.

Lemma entityDrag_last_move_wins_witness :
  truthy_str (connectingSource initialState) = false
  ∧ isPanMode initialState = false
  ∧ raf initialState = None
  ∧ entityDragSteps sample_random_id dom0 (canvasProps model0) initialState press "e1"
      ([Move moveShrink; FrameTick; Move moveShrink] ++ [Move moveBy50; FrameTick])
      0%nat
    = entityDrag sample_random_id dom0 (canvasProps model0) initialState press "e1"
        moveBy50 0%nat.
Proof.
  split; [reflexivity|]. split; [reflexivity|]. split; [reflexivity|].
  exact (entityDrag_last_move_wins sample_random_id dom0 (canvasProps model0)
           initialState press "e1" [Move moveShrink; FrameTick; Move moveShrink]
           moveBy50 0%nat eq_refl eq_refl eq_refl eq_refl).
Defined.

(* ================================================================== *)
(** ** The minimap on the sample data *)
(* ================================================================== *)

Lemma minimap_entities_inside_witness :
  ∃ v, Minimap.render minimap0 = Some v
       ∧ (0 < Minimap.scale minimap0)%Q
       ∧ (Minimap.surfaceHeight v <= 150)%Q
       ∧ length (Minimap.entityBoxes v) = 2%nat.
Proof.
  eexists. split; [reflexivity|].
  match goal with
  | |- context [Minimap.surfaceHeight ?v] =>
    destruct (minimap_entities_inside minimap0 v eq_refl) as (Hs & _ & Hh & Hl & _)
  end.
  split; [exact Hs|]. split; [exact Hh|exact Hl].
Defined.

Lemma initial_zoom_nonzero : ¬ (zoom initialState == 0)%Q.
Proof. discriminate. Qed.

Lemma minimap_click_centres_witness :
  ∃ view,
    Minimap.onClick minimap0 (Some (mkDOMRect 0 0)) press = Some view
    ∧ (Minimap.viewfinderX
         (minimapProps (canvasProps model0) (onViewChange initialState view) 800 600)
       + Minimap.viewfinderW
           (minimapProps (canvasProps model0) (onViewChange initialState view) 800 600)
         / 2
       == clientX press - rect_left (mkDOMRect 0 0))%Q.
Proof.
  destruct (minimap_click_centres (canvasProps model0) initialState 800 600
              (mkDOMRect 0 0) press initial_zoom_nonzero) as (view & Hv & Hx & _).
  exists view. split; [exact Hv|exact Hx].
Defined.

Lemma minimap_drag_follows_pointer_witness :
  ∃ view,
    Minimap.handleMouseMove minimap0 true movement0 = Some view
    ∧ (Minimap.viewfinderX
         (minimapProps (canvasProps model0) (onViewChange initialState view) 800 600)
       == Minimap.viewfinderX minimap0 + 5)%Q.
Proof.
  destruct (minimap_drag_follows_pointer (canvasProps model0) initialState 800 600
              movement0 initial_zoom_nonzero) as (_ & view & Hv & Hx & _).
  exists view. split; [exact Hv|exact Hx].
Defined.

(* ================================================================== *)
(** ** The host on the sample data *)
(* ================================================================== *)

Lemma stored0_id : model_id stored0 ≠ "".
Proof. discriminate. Qed.

Lemma hostCalls_selected_model_only_witness :
  selectedModel app0 = Some stored0
  ∧ selectedModel (hostCalls app0 deleteCalls0)
    = Some {| model_id := "1";
              model_data := commitAll model0 deleteCalls0 |}.
Proof.
  split; [reflexivity|].
  destruct (hostCalls_selected_model_only app0 stored0 deleteCalls0 eq_refl stored0_id)
    as (H & _).
  exact H.
Defined.

Lemma app0_history_short : (length (historyStack app0) ≤ 20)%nat.
Proof. cbn. lia. Qed.

Lemma hostCalls_history_witness :
  selectedModel app0 = Some stored0
  ∧ historyStack (hostCalls app0 deleteCalls0) = [snapshotOf stored0; snapshotOf stored0]
  ∧ (length (historyStack (hostCalls app0 deleteCalls0)) ≤ 20)%nat.
Proof.
  split; [reflexivity|].
  destruct (hostCalls_history app0 stored0 deleteCalls0 eq_refl stored0_id
              app0_history_short) as (Heq & Hlen).
  split; [exact Heq|exact Hlen].
Defined.

Lemma app0_history_room :
  (length (historyStack app0) + length deleteCalls0 ≤ 20)%nat.
Proof. cbn. lia. Qed.

Lemma second_of_two : (1 ≤ 2 ≤ length deleteCalls0)%nat.
Proof. cbn. lia. Qed.

Lemma undo_after_handler_witness :
  selectedModel app0 = Some stored0
  ∧ selectedModel (undos 2 (hostCalls app0 deleteCalls0)) = Some stored0
  ∧ historyStack (undos 2 (hostCalls app0 deleteCalls0)) = historyStack app0 ++ [].
Proof.
  split; [reflexivity|].
  destruct (undo_after_handler app0 stored0 deleteCalls0 2 eq_refl stored0_id
              app0_history_room second_of_two) as (Hm & Hh & _).
  split; [exact Hm|exact Hh].
Defined.

Lemma R1_references_selected :
  ∃ r, r ∈ m_relationships (model_data stored0)
       ∧ (Relationship.sourceId r ∈ selectedEntityIds stSelected
          ∨ Relationship.targetId r ∈ selectedEntityIds stSelected).
Proof.
  exists R1. split; [apply list_elem_of_here|]. left.
  change (selectedEntityIds stSelected) with ({["e1"]} : gset string).
  apply elem_of_singleton_2. reflexivity.
Qed.

Lemma delete_saves_entities_only_witness :
  selectedModel app0 = Some stored0
  ∧ api_fetchModelById [stored0] (model_id stored0) = Some stored0
  ∧ ∃ stored,
      api_fetchModelById
        (saveTimeoutFires
           (hostCalls app0
              (handleDeleteSelectedEntities (canvasProps (model_data stored0))
                 stSelected).2)
           [stored0]).2 (model_id stored0) = Some stored
      ∧ entitiesGoneRelsRemain (selectedEntityIds stSelected) (model_data stored).
Proof.
  split; [reflexivity|]. split; [reflexivity|].
  destruct (delete_saves_entities_only app0 stored0 stSelected [stored0]
              eq_refl stored0_id stSelected_nonempty eq_refl)
    as (_ & _ & H & _).
  exact (H R1_references_selected).
Defined.

(* ================================================================== *)
(** ** Auto layout on the sample data *)
(* ================================================================== *)

Lemma E1_is_root : isRoot (m_relationships model0) "e1".
Proof.
  intros r Hr. apply list_elem_of_singleton in Hr as ->. discriminate.
Qed.

Lemma autoLayout_model0 :
  ∃ e e',
    autoLayout (m_entities model0) (m_relationships model0) !! 0%nat = Some e
    ∧ autoLayout (m_entities model0) (m_relationships model0) !! 1%nat = Some e'
    ∧ EntityNode.id e = "e1"
    ∧ EntityNode.id e' = "e2".
Proof.
  eexists _, _. split; [vm_compute; reflexivity|].
  split; [vm_compute; reflexivity|]. split; reflexivity.
Qed.

Lemma autoLayout_roots_first_column_witness :
  ∃ e e',
    autoLayout (m_entities model0) (m_relationships model0) !! 0%nat = Some e
    ∧ autoLayout (m_entities model0) (m_relationships model0) !! 1%nat = Some e'
    ∧ (EntityNode.x e == 100)%Q
    ∧ (450 <= EntityNode.x e')%Q.
Proof.
  destruct autoLayout_model0 as (e & e' & He & He' & Hid & Hid').
  assert (Hroot : isRoot (m_relationships model0) (EntityNode.id e))
    by (rewrite Hid; exact E1_is_root).
  destruct (autoLayout_roots_first_column (m_entities model0) (m_relationships model0)
              0%nat e He Hroot) as [Hx Hedge].
  exists e, e'. split; [exact He|]. split; [exact He'|]. split; [exact Hx|].
  apply (Hedge R1 1%nat e').
  - apply list_elem_of_here.
  - rewrite Hid. reflexivity.
  - exact He'.
  - rewrite Hid'. reflexivity.
Defined.
